(** * Lsh::vector — storage management and mutation protocol

    A shallow embedding of [src/vector.h] (with the construct/destroy
    primitives of [src/construct.h]) and the properties of its growth,
    insertion, assignment and comparison operations.

    Storage is a flat, element-granular address space: a pointer [T*] is a
    natural number, [nullptr] is address [0], and every slot is either not
    owned by anybody ([Free]), raw storage obtained from the allocator
    ([Raw]), a constructed object ([Obj v]) or an object that was
    default-initialised without an initialiser and so has an indeterminate
    value ([Indet]).  Values of [size_type] are
    integers in [0, 2^64) with the wrap-around of unsigned arithmetic
    written out where the code adds them.  Member functions are programs
    of a state-and-exception monad over the vector object ([this]) and the
    heap; a third outcome, [Undef], stands for undefined behaviour. *)

From Stdlib Require Import ZArith Lia Bool.
From stdpp Require Import base list.

(** ** The element type *)

(** What the container needs to know about [T]: the state a move leaves
    behind in its source, which values make the copy or the move
    operations throw, what default-initialisation [::new (p) T] does,
    [operator==], [sizeof(T)] and the allocator's own [max_size()].

    [default_init] is [None] for a type whose default-initialisation
    performs no initialisation ([int], pointers, aggregates of them): the
    new object has an indeterminate value.  It is [Some o] for a type with
    a default constructor: [o] is the value the constructor builds, [None]
    when it throws. *)
Class Element (T : Type) := {
  moved_from : T -> T;
  copy_throws : T -> bool;
  move_throws : T -> bool;
  default_init : option (option T);
  elem_eq : T -> T -> bool;
  sizeof_T : Z;
  alloc_max_size : Z
}.

(** ** Heap, events, outcomes *)

Inductive cell (T : Type) : Type :=
| Free
| Raw
| Obj (v : T)
| Indet.
Arguments Free {T}.
Arguments Raw {T}.
Arguments Obj {T} v.
Arguments Indet {T}.

(** Calls made to the allocator and to the element type, in program order. *)
Inductive event : Type :=
| EAlloc (n : Z) (p : nat)
| EDealloc (p : nat) (n : Z)
| EConstruct (p : nat)
| EDestroy (p : nat)
| EAssign (p : nat).

Record heap (T : Type) : Type := Heap {
  cells : list (cell T);
  avail : Z;
  log : list event
}.
Arguments Heap {T} _ _ _.
Arguments cells {T} _.
Arguments avail {T} _.
Arguments log {T} _.

(** The three data members of [vector]. *)
Record vec : Type := Vec {
  start_ : nat;
  finish_ : nat;
  end_of_storage_ : nat
}.

Record state (T : Type) : Type := State {
  this : vec;
  mem : heap T
}.
Arguments State {T} _ _.
Arguments this {T} _.
Arguments mem {T} _.

Inductive exn : Type :=
| length_error
| bad_alloc
| out_of_range
| elem_failure.

Inductive outcome (S A : Type) : Type :=
| Ret (a : A) (s : S)
| Throw (e : exn) (s : S)
| Undef.
Arguments Ret {S A} a s.
Arguments Throw {S A} e s.
Arguments Undef {S A}.

Definition M (T A : Type) : Type := state T -> outcome (state T) A.

Definition ret {S A} (a : A) : S -> outcome S A := fun s => Ret a s.
Definition throw {S A} (e : exn) : S -> outcome S A := fun s => Throw e s.
Definition undef {S A} : S -> outcome S A := fun _ => Undef.

Definition bind {S A B} (m : S -> outcome S A) (f : A -> S -> outcome S B)
  : S -> outcome S B :=
  fun s =>
    match m s with
    | Ret a s' => f a s'
    | Throw e s' => Throw e s'
    | Undef => Undef
    end.

(** [try { m } catch (...) { h }] *)
Definition try_catch {S A} (m : S -> outcome S A) (h : exn -> S -> outcome S A)
  : S -> outcome S A :=
  fun s =>
    match m s with
    | Throw e s' => h e s'
    | r => r
    end.

Declare Scope cpp_scope.
Delimit Scope cpp_scope with cpp.
Notation "x <- m ;; k" := (bind m (fun x => k))
  (at level 100, m at next level, right associativity) : cpp_scope.
Notation "m ;; k" := (bind m (fun _ => k))
  (at level 100, right associativity) : cpp_scope.
Local Open Scope cpp_scope.

(** Constants of the target: a 64-bit [size_t] and [ptrdiff_t]. *)
Definition SIZE_MOD : Z := (2 ^ 64)%Z.
Definition PTRDIFF_MAX : Z := (2 ^ 63 - 1)%Z.
Definition wrap (z : Z) : Z := (z mod SIZE_MOD)%Z.

Section Vector.
Context {T : Type} `{Element T}.

Abbreviation M := (M T).

(** *** Access to the object and to single slots *)

Definition get_this : M vec := fun s => Ret (this s) s.
Definition put_this (v : vec) : M unit :=
  fun s => Ret tt (State v (mem s)).
Definition put_cells (c : list (cell T)) : M unit :=
  fun s => Ret tt (State (this s) (Heap c (avail (mem s)) (log (mem s)))).
Definition emit (e : event) : M unit :=
  fun s => Ret tt (State (this s)
                     (Heap (cells (mem s)) (avail (mem s)) (log (mem s) ++ [e]))).

Definition set_finish (p : nat) : M unit :=
  v <- get_this;; put_this (Vec (start_ v) p (end_of_storage_ v)).
Definition set_end_of_storage (p : nat) : M unit :=
  v <- get_this;; put_this (Vec (start_ v) (finish_ v) p).

(** Reading [*p]: only a constructed object with a determinate value can
    be read. *)
Definition read (p : nat) : M T :=
  fun s =>
    match cells (mem s) !! p with
    | Some (Obj v) => Ret v s
    | _ => Undef
    end.

(** Overwriting the value of the object at [p] (no event: used for the
    trace a move leaves in its source). *)
Definition poke (p : nat) (v : T) : M unit :=
  fun s =>
    match cells (mem s) !! p with
    | Some (Obj _) => put_cells (<[p := Obj v]> (cells (mem s))) s
    | _ => Undef
    end.

(** Placement new of [T(v)] at [p]: the slot must be storage handed out
    by the allocator. *)
Definition place (p : nat) (v : T) : M unit :=
  fun s =>
    match cells (mem s) !! p with
    | Some Raw | Some (Obj _) | Some Indet =>
        (put_cells (<[p := Obj v]> (cells (mem s)));; emit (EConstruct p)) s
    | _ => Undef
    end.

(** Placement new without an initialiser, [::new (p) T], for a type whose
    default-initialisation performs no initialisation: an object begins to
    live at [p], nothing is written. *)
Definition place_indet (p : nat) : M unit :=
  fun s =>
    match cells (mem s) !! p with
    | Some Raw | Some (Obj _) | Some Indet =>
        (put_cells (<[p := Indet]> (cells (mem s)));; emit (EConstruct p)) s
    | _ => Undef
    end.

(** [*p = v] on a live object. *)
Definition store (p : nat) (v : T) : M unit :=
  fun s =>
    match cells (mem s) !! p with
    | Some (Obj _) | Some Indet =>
        (put_cells (<[p := Obj v]> (cells (mem s)));; emit (EAssign p)) s
    | _ => Undef
    end.

(** [Tr::destroy(alloc_, p)] / [Lsh::destroy(p)]: [p->~T()]. *)
Definition destroy_at (p : nat) : M unit :=
  fun s =>
    match cells (mem s) !! p with
    | Some (Obj _) | Some Indet =>
        (put_cells (<[p := Raw]> (cells (mem s)));; emit (EDestroy p)) s
    | _ => Undef
    end.

(** *** Constructor and assignment arguments *)

(** A [const T&] / [T&&] parameter refers either to an object outside the
    modelled heap or to a slot of the heap (possibly one of the vector's
    own elements). *)
Inductive ref : Type :=
| Ext (v : T)
| Loc (a : nat).

(** What [T(args...)] or [operator=] is given: an lvalue to copy, an rvalue
    to move from, or arbitrary constructor arguments (then [o] is the value
    they build, [None] when that constructor throws). *)
Inductive arg : Type :=
| ACopy (r : ref)
| AMove (r : ref)
| AMake (o : option T).

Definition deref (r : ref) : M T :=
  match r with
  | Ext v => ret v
  | Loc a => read a
  end.

Definition leave_moved (r : ref) (v : T) : M unit :=
  match r with
  | Ext _ => ret tt
  | Loc a => poke a (moved_from v)
  end.

(** Evaluating the copy/move/converting operation of [T] on its argument. *)
Definition eval_arg (a : arg) : M T :=
  match a with
  | ACopy r =>
      v <- deref r;;
      if copy_throws v then throw elem_failure else ret v
  | AMove r =>
      v <- deref r;;
      if move_throws v then throw elem_failure
      else (leave_moved r v;; ret v)
  | AMake o =>
      match o with
      | Some v => ret v
      | None => throw elem_failure
      end
  end.

(** [Tr::construct(alloc_, p, args...)] *)
Definition construct (p : nat) (a : arg) : M unit :=
  v <- eval_arg a;; place p v.

(** Default-initialisation at [p], [::new (p) T]: the default constructor
    of a type that has one, no initialisation otherwise. *)
Definition default_construct (p : nat) : M unit :=
  match default_init with
  | Some o => construct p (AMake o)
  | None => place_indet p
  end.

(** [*p = args] *)
Definition assign_at (p : nat) (a : arg) : M unit :=
  v <- eval_arg a;; store p v.

(** *** The allocator: [std::allocator_traits<std::allocator<T>>] *)

(** [Tr::allocate(alloc_, n)]: fresh storage for [n] elements, or
    [bad_alloc] when the request exceeds what the allocator or the system
    can provide. *)
Definition Tr_allocate (n : Z) : M nat :=
  fun s =>
    let h := mem s in
    if ((alloc_max_size <? n) || (avail h <? n))%Z then Throw bad_alloc s
    else
      let base := length (cells h) in
      Ret base (State (this s)
                  (Heap (cells h ++ replicate (Z.to_nat n) Raw)
                        (avail h - n)%Z
                        (log h ++ [EAlloc n base]))).

(** Slots [p, p+n) handed back. *)
Fixpoint release (n : nat) (p : nat) (c : list (cell T)) : list (cell T) :=
  match n with
  | O => c
  | S n' => <[p := Free]> (release n' (S p) c)
  end.

(** The blocks handed out by the allocator and not yet returned, replayed
    from the log: [allocate(n)] returning [p] adds the block [(p, n)],
    [deallocate(p, n)] removes the block that starts at [p]. *)
Fixpoint drop_block (p : nat) (held : list (nat * Z)) : list (nat * Z) :=
  match held with
  | [] => []
  | b :: held' =>
      if fst b =? p then drop_block p held' else b :: drop_block p held'
  end.

Definition held_step (held : list (nat * Z)) (e : event) : list (nat * Z) :=
  match e with
  | EAlloc n p => (p, n) :: held
  | EDealloc p n => drop_block p held
  | _ => held
  end.

Definition held_blocks (l : list event) : list (nat * Z) :=
  fold_left held_step l [].

Definition holds_block (p : nat) (n : Z) (held : list (nat * Z)) : bool :=
  existsb (fun b => (fst b =? p) && (snd b =? n)%Z) held.

(** [Tr::deallocate(alloc_, p, n)].  The allocator's contract admits the
    call only for a pointer that [allocate(n)] returned, with the same
    count [n], and that has not been returned since; then the [n] slots
    from [p] on are no longer the caller's.  On the null pointer the call
    does nothing.  Any other call (a pointer into the middle of a block, a
    different count, a block already returned) is undefined behaviour. *)
Definition Tr_deallocate (p : nat) (n : Z) : M unit :=
  fun s =>
    let h := mem s in
    if p =? 0 then
      Ret tt (State (this s)
                (Heap (cells h) (avail h) (log h ++ [EDealloc p n])))
    else if holds_block p n (held_blocks (log h)) then
      Ret tt (State (this s)
                (Heap (release (Z.to_nat n) p (cells h))
                      (avail h)
                      (log h ++ [EDealloc p n])))
    else Undef.

(** *** Standard algorithms used by the container *)

(** [std::distance(first, last)] on pointers; a reversed range has no
    defined length. *)
Definition distance (first last : nat) : M nat :=
  if first <=? last then ret (last - first) else undef.

Fixpoint destroy_n (n : nat) (p : nat) : M unit :=
  match n with
  | O => ret tt
  | S n' => destroy_at p;; destroy_n n' (S p)
  end.

(** [std::destroy(first, last)] *)
Definition std_destroy (first last : nat) : M unit :=
  n <- distance first last;; destroy_n n first.

(** The loop shared by the [std::uninitialized_*] algorithms: build [n]
    objects at [d + i], [d + i + 1], ... from the arguments [src i]; when a
    constructor throws, the objects built so far by this call are destroyed
    and the exception is rethrown. *)
Fixpoint uninit_loop (src : nat -> arg) (d : nat) (n i : nat) : M nat :=
  match n with
  | O => ret (d + i)
  | S n' =>
      try_catch (construct (d + i) (src i))
                (fun e => destroy_n i d;; throw e);;
      uninit_loop src d n' (S i)
  end.

Definition uninitialized_copy (first last d : nat) : M nat :=
  n <- distance first last;;
  uninit_loop (fun i => ACopy (Loc (first + i))) d n 0.

Definition uninitialized_copy_n (first n d : nat) : M nat :=
  uninit_loop (fun i => ACopy (Loc (first + i))) d n 0.

Definition uninitialized_move (first last d : nat) : M nat :=
  n <- distance first last;;
  uninit_loop (fun i => AMove (Loc (first + i))) d n 0.

Definition uninitialized_fill_n (d n : nat) (value : ref) : M nat :=
  uninit_loop (fun _ => ACopy value) d n 0.

(** [std::uninitialized_default_construct_n(d, n)]: the same loop with
    default-initialisation, [::new (p) T], of each object. *)
Fixpoint default_loop (d : nat) (n i : nat) : M nat :=
  match n with
  | O => ret (d + i)
  | S n' =>
      try_catch (default_construct (d + i))
                (fun e => destroy_n i d;; throw e);;
      default_loop d n' (S i)
  end.

Definition uninitialized_default_construct_n (d n : nat) : M nat :=
  default_loop d n 0.

(** The loop shared by [std::copy], [std::move], [std::move_backward] and
    [std::fill]: the [i]-th step assigns [src i] to the object at [dst i].
    The algorithms are taken as these element-by-element loops also where
    source and destination ranges overlap. *)
Fixpoint assign_loop (dst : nat -> nat) (src : nat -> arg) (n i : nat)
  : M unit :=
  match n with
  | O => ret tt
  | S n' => assign_at (dst i) (src i);; assign_loop dst src n' (S i)
  end.

Definition std_copy (first last d : nat) : M nat :=
  n <- distance first last;;
  assign_loop (fun i => d + i) (fun i => ACopy (Loc (first + i))) n 0;;
  ret (d + n).

Definition std_move (first last d : nat) : M nat :=
  n <- distance first last;;
  assign_loop (fun i => d + i) (fun i => AMove (Loc (first + i))) n 0;;
  ret (d + n).

Definition std_move_backward (first last d_last : nat) : M nat :=
  n <- distance first last;;
  assign_loop (fun i => d_last - 1 - i)
              (fun i => AMove (Loc (last - 1 - i))) n 0;;
  ret (d_last - n).

Definition std_fill (first last : nat) (value : ref) : M unit :=
  n <- distance first last;;
  assign_loop (fun i => first + i) (fun _ => ACopy value) n 0.

(** [std::equal(first1, last1, first2)] with [T]'s [operator==]; stops at
    the first mismatch. *)
Fixpoint equal_loop (n : nat) (p q : nat) : M bool :=
  match n with
  | O => ret true
  | S n' =>
      a <- read p;;
      b <- read q;;
      if elem_eq a b then equal_loop n' (S p) (S q) else ret false
  end.

Definition std_equal (first1 last1 first2 : nat) : M bool :=
  n <- distance first1 last1;; equal_loop n first1 first2.

(** *** Capacity queries *)

(** [finish_ - start_] and [end_of_storage_ - start_] as element counts. *)
Definition nsize (v : vec) : nat := finish_ v - start_ v.
Definition ncapacity (v : vec) : nat := end_of_storage_ v - start_ v.

Definition size (v : vec) : Z := Z.of_nat (nsize v).
Definition capacity (v : vec) : Z := Z.of_nat (ncapacity v).
Definition empty (v : vec) : bool := finish_ v =? start_ v.

Definition max_size : Z :=
  Z.min (PTRDIFF_MAX / sizeof_T) alloc_max_size.

(** *** Private helpers of [vector] *)

Definition allocate (count : Z) : M nat :=
  if (count =? 0)%Z then ret 0 else Tr_allocate count.

Definition deallocate (p : nat) (count : Z) : M unit :=
  if p =? 0 then ret tt else Tr_deallocate p count.

Definition create_storage (count : Z) : M unit :=
  p <- allocate count;;
  put_this (Vec p p (p + Z.to_nat count)).

Definition allocate_and_copy (count : Z) (first last : nat) : M nat :=
  result <- allocate count;;
  uninitialized_copy first last result;;
  ret result.

Definition check_init_len (count : Z) : M Z :=
  if (max_size <? count)%Z then throw length_error else ret count.

Definition check_len (count : Z) : M Z :=
  v <- get_this;;
  if (max_size <? wrap (count + size v))%Z then throw length_error
  else
    let len := wrap (size v + Z.max count (size v)) in
    ret (if ((len <? size v) || (max_size <? len))%Z then max_size else len).

Definition erase_at_end (position : nat) : M unit :=
  v <- get_this;;
  if finish_ v - position =? 0 then ret tt
  else (std_destroy position (finish_ v);; set_finish position).

Definition default_initialize (count : Z) : M unit :=
  create_storage count;;
  v <- get_this;;
  p <- uninitialized_default_construct_n (start_ v) (Z.to_nat count);;
  set_finish p.

Definition fill_initialize (count : Z) (value : ref) : M unit :=
  create_storage count;;
  v <- get_this;;
  p <- uninitialized_fill_n (start_ v) (Z.to_nat count) value;;
  set_finish p.

Definition ranges_initialize (first last : nat) : M unit :=
  n <- distance first last;;
  count <- check_init_len (Z.of_nat n);;
  create_storage count;;
  v <- get_this;;
  p <- uninitialized_copy_n first n (start_ v);;
  set_finish p.

(** *** Insertion helpers *)

(** [for (iterator it = end() - 1; it != position; --it) *it = *(it - 1);] *)
Fixpoint shift_up (n : nat) (it : nat) : M unit :=
  match n with
  | O => ret tt
  | S n' => assign_at it (ACopy (Loc (it - 1)));; shift_up n' (it - 1)
  end.

(** Insertion without reallocation. *)
Definition unrealloc_insert (position : nat) (a : arg) : M unit :=
  v <- get_this;;
  if position =? finish_ v then
    (construct (finish_ v) a;;
     set_finish (S (finish_ v)))
  else
    (construct (finish_ v) (ACopy (Loc (finish_ v - 1)));;
     n <- distance position (finish_ v - 1);;
     shift_up n (finish_ v - 1);;
     destroy_at position;;
     construct position a;;
     set_finish (S (finish_ v))).

(** Insertion with reallocation. *)
Definition realloc_insert (position : nat) (a : arg) : M unit :=
  new_capacity <- check_len 1;;
  v <- get_this;;
  let old_start := start_ v in
  let old_finish := finish_ v in
  let elems_before := position - start_ v in
  new_start <- allocate new_capacity;;
  construct (new_start + elems_before) a;;
  new_finish <- uninitialized_move old_start position new_start;;
  new_finish <- uninitialized_move position old_finish (S new_finish);;
  std_destroy old_start old_finish;;
  deallocate old_start (Z.of_nat (end_of_storage_ v - old_start));;
  put_this (Vec new_start new_finish (new_start + Z.to_nat new_capacity)).

Definition fill_insert (position : nat) (count : Z) (value : ref) : M unit :=
  if (count =? 0)%Z then ret tt
  else
    v <- get_this;;
    if (count <? Z.of_nat (end_of_storage_ v - finish_ v))%Z then
      let elems_after := finish_ v - position in
      let old_finish := finish_ v in
      let cnt := Z.to_nat count in
      if (count <? Z.of_nat elems_after)%Z then
        (uninitialized_move (old_finish - cnt) old_finish old_finish;;
         set_finish (old_finish + cnt);;
         std_move_backward position (old_finish - cnt) old_finish;;
         std_fill position (position + cnt) value)
      else
        (p <- uninitialized_fill_n old_finish (cnt - elems_after) value;;
         set_finish p;;
         uninitialized_move position old_finish p;;
         set_finish (p + elems_after);;
         std_fill position old_finish value)
    else
      (new_capacity <- check_len count;;
       let old_start := start_ v in
       let old_finish := finish_ v in
       new_start <- allocate new_capacity;;
       let elems_before := position - start_ v in
       uninitialized_fill_n (new_start + elems_before) (Z.to_nat count) value;;
       new_finish <- uninitialized_move old_start position new_start;;
       new_finish <-
         uninitialized_move position old_finish (new_finish + Z.to_nat count);;
       std_destroy old_start old_finish;;
       deallocate old_start (Z.of_nat (end_of_storage_ v - old_start));;
       put_this (Vec new_start new_finish (new_start + Z.to_nat new_capacity))).

Definition range_insert (pos first last : nat) : M unit :=
  if first =? last then ret tt
  else
    n <- distance first last;;
    v <- get_this;;
    if n <? end_of_storage_ v - finish_ v then
      let elems_after := finish_ v - pos in
      let old_finish := finish_ v in
      if n <? elems_after then
        (uninitialized_move (old_finish - n) old_finish old_finish;;
         set_finish (old_finish + n);;
         std_move_backward pos (old_finish - n) old_finish;;
         std_copy first last pos;;
         ret tt)
      else
        (let mid := first + elems_after in
         p <- uninitialized_copy mid last old_finish;;
         set_finish p;;
         uninitialized_move pos old_finish p;;
         set_finish (p + elems_after);;
         std_copy first mid pos;;
         ret tt)
    else
      (new_capacity <- check_len (Z.of_nat n);;
       let old_start := start_ v in
       let old_finish := finish_ v in
       new_start <- allocate new_capacity;;
       let elems_before := pos - start_ v in
       uninitialized_copy first last (new_start + elems_before);;
       new_finish <- uninitialized_move old_start pos new_start;;
       new_finish <- uninitialized_move pos old_finish (new_finish + n);;
       std_destroy old_start old_finish;;
       deallocate old_start (Z.of_nat (end_of_storage_ v - old_start));;
       put_this (Vec new_start new_finish (new_start + Z.to_nat new_capacity))).

(** Appends [n] default-constructed objects after [end()]. *)
Definition default_append (n : Z) : M unit :=
  if (n =? 0)%Z then ret tt
  else
    v <- get_this;;
    let size := nsize v in
    let available := end_of_storage_ v - finish_ v in
    if (n <=? Z.of_nat available)%Z then
      (p <- uninitialized_default_construct_n (finish_ v) (Z.to_nat n);;
       set_finish p)
    else
      (let old_start := start_ v in
       let old_finish := finish_ v in
       new_capacity <- check_len n;;
       new_start <- allocate new_capacity;;
       new_finish <- uninitialized_move old_start old_finish new_start;;
       uninitialized_default_construct_n new_finish (Z.to_nat n);;
       std_destroy old_start old_finish;;
       deallocate old_start (Z.of_nat (end_of_storage_ v - old_start));;
       put_this (Vec new_start (new_start + size + Z.to_nat n)
                     (new_start + Z.to_nat new_capacity))).

Definition range_assign (first last : nat) : M unit :=
  n <- distance first last;;
  let len := Z.of_nat n in
  v <- get_this;;
  if (capacity v <? len)%Z then
    (check_init_len len;;
     new_start <- allocate_and_copy len first last;;
     std_destroy (start_ v) (finish_ v);;
     deallocate (start_ v) (Z.of_nat (end_of_storage_ v - start_ v));;
     put_this (Vec new_start (new_start + n) (new_start + n)))
  else if (len <=? size v)%Z then
    (p <- std_copy first last (start_ v);;
     erase_at_end p)
  else
    (let mid := first + nsize v in
     std_copy first mid (start_ v);;
     p <- uninitialized_copy mid last (finish_ v);;
     set_finish p).

(** *** Public member functions *)

(** [vector()] *)
Definition vector_default : M unit := put_this (Vec 0 0 0).

(** [vector(size_type count)] *)
Definition vector_count (count : Z) : M unit :=
  put_this (Vec 0 0 0);;
  count <- check_init_len count;;
  default_initialize count.

(** [vector(size_type count, const_reference value)] *)
Definition vector_fill (count : Z) (value : ref) : M unit :=
  put_this (Vec 0 0 0);;
  count <- check_init_len count;;
  fill_initialize count value.

(** [vector(const vector& other)] *)
Definition vector_copy (other : vec) : M unit :=
  put_this (Vec 0 0 0);;
  n <- check_init_len (size other);;
  create_storage n;;
  v <- get_this;;
  p <- uninitialized_copy (start_ other) (finish_ other) (start_ v);;
  set_finish p.

(** [~vector()] *)
Definition vector_dtor : M unit :=
  v <- get_this;;
  std_destroy (start_ v) (finish_ v);;
  Tr_deallocate (start_ v) (size v);;
  put_this (Vec 0 0 0).

(** [at(size_type index)] *)
Definition at_ (index : Z) : M T :=
  v <- get_this;;
  if (size v <=? index)%Z then throw out_of_range
  else read (start_ v + Z.to_nat index).

(** [assign(InputIterator first, InputIterator last)] *)
Definition assign (first last : nat) : M unit := range_assign first last.

Definition clear : M unit :=
  v <- get_this;; erase_at_end (start_ v).

Definition reserve (new_cap : Z) : M unit :=
  if (max_size <? new_cap)%Z then throw length_error
  else
    v <- get_this;;
    if (capacity v <? new_cap)%Z then
      (let old_size := nsize v in
       temp <- allocate_and_copy new_cap (start_ v) (finish_ v);;
       std_destroy (start_ v) (finish_ v);;
       deallocate (start_ v) (Z.of_nat (end_of_storage_ v - start_ v));;
       put_this (Vec temp (temp + old_size) (temp + Z.to_nat new_cap)))
    else ret tt.

Definition shrink_to_fit : M unit :=
  v <- get_this;;
  if (size v <? capacity v)%Z then
    (deallocate (finish_ v) (Z.of_nat (end_of_storage_ v - finish_ v));;
     set_end_of_storage (finish_ v))
  else ret tt.

(** [insert(const_iterator pos, const value_type& value)] (with [ACopy]),
    [insert(const_iterator pos, value_type&& value)] (with [AMove]); the
    result is the returned iterator. *)
Definition insert (pos : nat) (a : arg) : M nat :=
  v <- get_this;;
  let diff := pos - start_ v in
  (if negb (finish_ v =? end_of_storage_ v)
   then unrealloc_insert (start_ v + (pos - start_ v)) a
   else realloc_insert (start_ v + (pos - start_ v)) a);;
  v' <- get_this;;
  ret (start_ v' + diff).

(** [insert(const_iterator pos, size_type count, const value_type& value)] *)
Definition insert_fill (pos : nat) (count : Z) (value : ref) : M nat :=
  v <- get_this;;
  let diff := pos - start_ v in
  fill_insert (start_ v + diff) count value;;
  v' <- get_this;;
  ret (start_ v' + diff).

(** [insert(const_iterator position, InputIterator first, InputIterator last)] *)
Definition insert_range (position first last : nat) : M nat :=
  v <- get_this;;
  let diff := position - start_ v in
  range_insert (start_ v + diff) first last;;
  v' <- get_this;;
  ret (start_ v' + diff).

Definition emplace (position : nat) (a : arg) : M unit :=
  v <- get_this;;
  if negb (finish_ v =? end_of_storage_ v)
  then unrealloc_insert (start_ v + (position - start_ v)) a
  else realloc_insert (start_ v + (position - start_ v)) a.

Definition emplace_back (a : arg) : M unit :=
  v <- get_this;;
  if negb (finish_ v =? end_of_storage_ v) then
    (construct (finish_ v) a;;
     set_finish (S (finish_ v)))
  else realloc_insert (finish_ v) a.

(** [push_back(const value_type& value)] *)
Definition push_back (value : ref) : M unit :=
  v <- get_this;;
  if negb (finish_ v =? end_of_storage_ v) then
    (construct (finish_ v) (ACopy value);;
     set_finish (S (finish_ v)))
  else realloc_insert (finish_ v) (ACopy value).

(** [push_back(value_type&& value)] *)
Definition push_back_move (value : ref) : M unit :=
  emplace_back (AMove value).

(** [resize(size_type new_size)] *)
Definition resize (new_size : Z) : M unit :=
  v <- get_this;;
  if (size v <? new_size)%Z then default_append (new_size - size v)
  else if (new_size <? size v)%Z
       then erase_at_end (start_ v + Z.to_nat new_size)
       else ret tt.

(** [resize(size_type new_size, const value_type& value)] *)
Definition resize_fill (new_size : Z) (value : ref) : M unit :=
  v <- get_this;;
  if (size v <? new_size)%Z
  then (insert_fill (finish_ v) (new_size - size v) value;; ret tt)
  else if (new_size <? size v)%Z
       then erase_at_end (start_ v + Z.to_nat new_size)
       else ret tt.

(** *** Non-member comparison *)

Definition operator_eq (lhs rhs : vec) : M bool :=
  if (size lhs =? size rhs)%Z
  then std_equal (start_ lhs) (finish_ lhs) (start_ rhs)
  else ret false.

Definition operator_ne (lhs rhs : vec) : M bool :=
  b <- operator_eq lhs rhs;; ret (negb b).

(** *** Assignment between vector objects *)

(** Several vector objects over one heap; an object is identified by its
    index, which plays the role of its address ([this], [std::addressof]). *)
Record world : Type := World {
  objects : list vec;
  wmem : heap T
}.

Abbreviation W A := (world -> outcome world A).

Definition object (i : nat) : W vec :=
  fun w =>
    match objects w !! i with
    | Some v => Ret v w
    | None => Undef
    end.

Definition set_object (i : nat) (v : vec) : W unit :=
  fun w =>
    match objects w !! i with
    | Some _ => Ret tt (World (<[i := v]> (objects w)) (wmem w))
    | None => Undef
    end.

(** Runs a member function with [this] bound to object [i]. *)
Definition on_object {A} (i : nat) (m : M A) : W A :=
  fun w =>
    match objects w !! i with
    | None => Undef
    | Some v =>
        match m (State v (wmem w)) with
        | Ret a s => Ret a (World (<[i := this s]> (objects w)) (mem s))
        | Throw e s => Throw e (World (<[i := this s]> (objects w)) (mem s))
        | Undef => Undef
        end
    end.

(** The branch of [operator=(const vector& other)] taken when [other] is
    another object. *)
Definition copy_assign_from (other : vec) : M unit :=
  let other_size := size other in
  v <- get_this;;
  if (capacity v <? other_size)%Z then
    (new_start <-
       allocate_and_copy other_size (start_ other) (finish_ other);;
     std_destroy (start_ v) (finish_ v);;
     deallocate (start_ v) (Z.of_nat (end_of_storage_ v - start_ v));;
     put_this (Vec new_start (new_start + Z.to_nat other_size)
                   (new_start + Z.to_nat other_size)))
  else
    ((if (other_size <=? size v)%Z then
        (p <- std_copy (start_ other) (finish_ other) (start_ v);;
         std_destroy p (finish_ v))
      else
        (std_copy (start_ other) (start_ other + nsize v) (start_ v);;
         uninitialized_copy (start_ other + nsize v) (finish_ other)
                            (finish_ v);;
         ret tt));;
     set_finish (start_ v + Z.to_nat other_size)).

(** [vector& operator=(const vector& other)] *)
Definition operator_assign (self other : nat) : W unit :=
  if negb (other =? self) then
    (o <- object other;;
     on_object self (copy_assign_from o))
  else ret tt.

(** [vector& operator=(vector&& other) noexcept] *)
Definition operator_assign_move (self other : nat) : W unit :=
  if negb (other =? self) then
    (on_object self
       (clear;;
        v <- get_this;;
        deallocate (start_ v) (Z.of_nat (end_of_storage_ v - start_ v)));;
     o <- object other;;
     set_object self o;;
     set_object other (Vec 0 0 0))
  else ret tt.

(** *** Observing a vector *)

(** The values of the objects in slots [p, p+n), if all are constructed. *)
Fixpoint objs_at (c : list (cell T)) (p n : nat) : option (list T) :=
  match n with
  | O => Some []
  | S n' =>
      match c !! p, objs_at c (S p) n' with
      | Some (Obj v), Some l => Some (v :: l)
      | _, _ => None
      end
  end.

(** The element sequence [begin(), end()). *)
Definition contents (s : state T) : option (list T) :=
  objs_at (cells (mem s)) (start_ (this s)) (nsize (this s)).

(** Slots [p, p+n) are all raw storage. *)
Fixpoint raw_at (c : list (cell T)) (p n : nat) : bool :=
  match n with
  | O => true
  | S n' =>
      match c !! p with
      | Some Raw => raw_at c (S p) n'
      | _ => false
      end
  end.

(** The blocks the allocator has handed out and not got back. *)
Definition blocks (s : state T) : list (nat * Z) :=
  held_blocks (log (mem s)).

(** The vector owns its buffer: [start_] is the null sentinel, or the
    non-empty block [start_, end_of_storage_) is one that the allocator
    handed out, with [capacity()] as its count, and still holds for the
    vector. *)
Definition owns (s : state T) : Prop :=
  let v := this s in
  start_ v = 0 \/
  (start_ v < end_of_storage_ v /\ In (start_ v, capacity v) (blocks s)).

(** The representation invariant of section 3 of the specification:
    [start_ <= finish_ <= end_of_storage_], live elements in [0, size), raw
    storage in [size, capacity), capacity bounded by [max_size()], the
    null sentinel exactly when there is no storage, and ownership of the
    buffer. *)
Definition wf (s : state T) : Prop :=
  let v := this s in
  start_ v <= finish_ v /\ finish_ v <= end_of_storage_ v /\
  is_Some (contents s) /\
  raw_at (cells (mem s)) (finish_ v) (end_of_storage_ v - finish_ v) = true /\
  (capacity v <= max_size)%Z /\
  (start_ v = 0 -> end_of_storage_ v = 0) /\
  owns s.

(** The blocks handed out are pairwise disjoint ranges of addresses. *)
Definition blocks_apart (held : list (nat * Z)) : Prop :=
  forall b1 b2, In b1 held -> In b2 held ->
    b1 = b2 \/
    fst b1 + Z.to_nat (snd b1) <= fst b2 \/
    fst b2 + Z.to_nat (snd b2) <= fst b1.

(** [quiet m]: [m] leaves the allocator's account of blocks as it is,
    whether it returns or throws. *)
Definition quiet {A} (m : M A) : Prop :=
  forall s,
    match m s with
    | Ret _ s' => blocks s' = blocks s
    | Throw _ s' => blocks s' = blocks s
    | Undef => True
    end.

(** The allocator's contract, replayed on a log: every [deallocate(p, n)]
    must name a block that [allocate(n)] returned and that is still held
    (or be called on the null pointer).  [held] lists the blocks handed
    out and not yet returned. *)
Fixpoint log_ok_from (held : list (nat * Z)) (l : list event) : bool :=
  match l with
  | [] => true
  | EAlloc n p :: l' => log_ok_from ((p, n) :: held) l'
  | EDealloc p n :: l' =>
      if p =? 0 then log_ok_from held l'
      else if existsb (fun b => (fst b =? p) && (snd b =? n)%Z) held
           then log_ok_from
                  (filter (fun b => negb (fst b =? p)) held) l'
           else false
  | _ :: l' => log_ok_from held l'
  end.

Definition log_ok (l : list event) : bool := log_ok_from [] l.

Definition is_dealloc (e : event) : bool :=
  match e with
  | EDealloc _ _ => true
  | _ => false
  end.

(** *** Further member functions *)

(** [std::fill_n(first, n, value)]; the result is [first + n]. *)
Definition std_fill_n (first n : nat) (value : ref) : M nat :=
  assign_loop (fun i => first + i) (fun _ => ACopy value) n 0;;
  ret (first + n).

(** [vector(InputIterator first, InputIterator last)] *)
Definition vector_range (first last : nat) : M unit :=
  put_this (Vec 0 0 0);;
  ranges_initialize first last.

(** [assign(size_type count, const value_type& value)] *)
Definition assign_fill (count : Z) (value : ref) : M unit :=
  v <- get_this;;
  if (capacity v <? count)%Z then
    (clear;;
     deallocate (start_ v) (Z.of_nat (end_of_storage_ v - start_ v));;
     n <- check_init_len count;;
     create_storage n;;
     fill_initialize count value)
  else if (count <=? size v)%Z then
    (p <- std_fill_n (start_ v) (Z.to_nat count) value;;
     erase_at_end p)
  else
    (std_fill (start_ v) (finish_ v) value;;
     let diff := Z.to_nat count - nsize v in
     uninitialized_fill_n (finish_ v) diff value;;
     set_finish (start_ v + Z.to_nat count)).

(** [operator[](size_type index)]: no bounds check. *)
Definition subscript (index : Z) : M T :=
  v <- get_this;; read (start_ v + Z.to_nat index).

(** [front()] *)
Definition front : M T :=
  v <- get_this;; read (start_ v).

(** [back()]: [*(finish_ - 1)]; there is no element before the null
    pointer. *)
Definition back : M T :=
  v <- get_this;;
  if finish_ v =? 0 then undef else read (finish_ v - 1).

(** [pop_back()] *)
Definition pop_back : M unit :=
  v <- get_this;;
  if finish_ v =? 0 then undef
  else (set_finish (finish_ v - 1);;
        destroy_at (finish_ v - 1)).

(** [erase(const_iterator pos)]; the result is the returned iterator. *)
Definition erase (pos : nat) : M nat :=
  v <- get_this;;
  let pos_ := start_ v + (pos - start_ v) in
  (if negb (S pos_ =? finish_ v)
   then (std_move (S pos_) (finish_ v) pos_;; ret tt)
   else ret tt);;
  if finish_ v =? 0 then undef
  else (set_finish (finish_ v - 1);;
        destroy_at (finish_ v - 1);;
        ret pos_).

(** [erase(const_iterator first, const_iterator last)] *)
Definition erase_range (first last : nat) : M nat :=
  v <- get_this;;
  let first_ := start_ v + (first - start_ v) in
  let last_ := start_ v + (last - start_ v) in
  (if negb (first_ =? last_) then
     ((if negb (last_ =? finish_ v)
       then (std_move last_ (finish_ v) first_;; ret tt)
       else ret tt);;
      erase_at_end (first_ + (finish_ v - last_)))
   else ret tt);;
  ret first_.

(** [vector(vector&& other) noexcept], building object [self]. *)
Definition vector_move (self other : nat) : W unit :=
  o <- object other;;
  set_object self o;;
  set_object other (Vec 0 0 0).

(** [void swap(vector& other) noexcept]: three [std::swap]s of pointers. *)
Definition swap (self other : nat) : W unit :=
  a <- object self;;
  b <- object other;;
  set_object self (Vec (start_ b) (finish_ a) (end_of_storage_ a));;
  set_object other (Vec (start_ a) (finish_ b) (end_of_storage_ b));;
  a <- object self;;
  b <- object other;;
  set_object self (Vec (start_ a) (finish_ b) (end_of_storage_ a));;
  set_object other (Vec (start_ b) (finish_ a) (end_of_storage_ b));;
  a <- object self;;
  b <- object other;;
  set_object self (Vec (start_ a) (finish_ a) (end_of_storage_ b));;
  set_object other (Vec (start_ b) (finish_ b) (end_of_storage_ a)).

(** *** [Lsh::allocator] (allocator.h) *)

(** [allocator<T>::max_size()]: [numeric_limits<size_type>::max() /
    sizeof(value_type)]. *)
Definition Lsh_max_size : Z := (SIZE_MOD - 1) / sizeof_T.

(** The byte count that [allocator<T>::allocate(n)] passes to [operator
    new] (and [deallocate(p, n)] to [operator delete]): [n * sizeof(T)] in
    [size_t] arithmetic. *)
Definition Lsh_allocate_bytes (n : Z) : Z := wrap (n * sizeof_T).

(** The element sequence of object [i] of a world. *)
Definition contents_of (w : world) (i : nat) : option (list T) :=
  match objects w !! i with
  | Some v => objs_at (cells (wmem w)) (start_ v) (nsize v)
  | None => None
  end.

(** *** Vocabulary of the properties *)

(** The state after events have been added to the log. *)
Definition logged (s : state T) (l : list event) : state T :=
  State (this s) (Heap (cells (mem s)) (avail (mem s)) (log (mem s) ++ l)).

Definition no_dealloc (l : list event) : bool :=
  forallb (fun e => negb (is_dealloc e)) l.

(** [residue x y]: [y] is [x] after zero or more moves out of it. *)
Inductive residue : T -> T -> Prop :=
| residue_same x : residue x x
| residue_moved x y : residue x y -> residue x (moved_from y).

(** In the definitions below [R] relates the value of an old element
    before a call with its value afterwards: equality for operations that
    only copy, [residue] for operations that move. *)
Definition cell_rel (R : T -> T -> Prop) (k0 k1 : cell T) : Prop :=
  match k0, k1 with
  | Free, Free => True
  | Raw, Raw => True
  | Obj x, Obj y => R x y
  | Indet, Indet => True
  | _, _ => False
  end.

(** [kept R s0 s]: relative to [s0], the vector object is the same, every
    slot that existed in [s0] is in the same condition with a related
    value, and no block has been handed back to the allocator. *)
Definition kept (R : T -> T -> Prop) (s0 s : state T) : Prop :=
  this s = this s0 /\
  (forall a k0, cells (mem s0) !! a = Some k0 ->
     exists k1, cells (mem s) !! a = Some k1 /\ cell_rel R k0 k1) /\
  (exists l, log (mem s) = log (mem s0) ++ l /\ no_dealloc l = true).

(** [keeps R s0 m Q]: from a state related to [s0], [m] ends, whether it
    returns or throws, in a state related to [s0]; a returned value
    satisfies [Q]. *)
Definition keeps (R : T -> T -> Prop) {A} (s0 : state T) (m : M A)
    (Q : A -> Prop) : Prop :=
  forall s, kept R s0 s ->
    match m s with
    | Ret a s' => kept R s0 s' /\ Q a
    | Throw _ s' => kept R s0 s'
    | Undef => True
    end.

(** [throws_kept R s0 m]: when [m] throws, it does so in a state related to
    [s0]. *)
Definition throws_kept (R : T -> T -> Prop) {A} (s0 : state T) (m : M A)
  : Prop :=
  forall s e s', kept R s0 s -> m s = Throw e s' -> kept R s0 s'.

Definition nothrow {A} (m : M A) : Prop :=
  forall s, match m s with Throw _ _ => False | _ => True end.

(** A move is admitted only when [R] accounts for what it leaves behind. *)
Definition safe_arg (R : T -> T -> Prop) (a : arg) : Prop :=
  match a with
  | AMove _ => forall x, R x (moved_from x)
  | _ => True
  end.

(** The growth operations of the container. *)
Inductive growth : Type :=
| g_push_back (value : ref)
| g_push_back_move (value : ref)
| g_emplace_back (a : arg)
| g_insert (pos : nat) (a : arg)
| g_emplace (pos : nat) (a : arg)
| g_insert_fill (pos : nat) (count : Z) (value : ref)
| g_insert_range (pos first last : nat)
| g_resize (new_size : Z)
| g_resize_fill (new_size : Z) (value : ref)
| g_reserve (new_cap : Z).

Definition run_growth (g : growth) : M unit :=
  match g with
  | g_push_back value => push_back value
  | g_push_back_move value => push_back_move value
  | g_emplace_back a => emplace_back a
  | g_insert pos a => insert pos a;; ret tt
  | g_emplace pos a => emplace pos a
  | g_insert_fill pos count value => insert_fill pos count value;; ret tt
  | g_insert_range pos first last => insert_range pos first last;; ret tt
  | g_resize new_size => resize new_size
  | g_resize_fill new_size value => resize_fill new_size value
  | g_reserve new_cap => reserve new_cap
  end.

(** The condition, on the arguments (values of [size_type], a non-empty
    range) and on the vector, under which the operation takes its
    reallocating path. *)
Definition reallocates (g : growth) (v : vec) : Prop :=
  match g with
  | g_push_back _ | g_push_back_move _ | g_emplace_back _
  | g_insert _ _ | g_emplace _ _ =>
      finish_ v = end_of_storage_ v
  | g_insert_fill _ count _ =>
      (0 < count < SIZE_MOD)%Z /\
      (Z.of_nat (end_of_storage_ v - finish_ v) <= count)%Z
  | g_insert_range _ first last =>
      first < last /\ (Z.of_nat (last - first) < SIZE_MOD)%Z /\
      end_of_storage_ v - finish_ v <= last - first
  | g_resize new_size =>
      (size v < new_size < SIZE_MOD)%Z /\
      (Z.of_nat (end_of_storage_ v - finish_ v) < new_size - size v)%Z
  | g_resize_fill new_size _ =>
      (size v < new_size < SIZE_MOD)%Z /\
      (Z.of_nat (end_of_storage_ v - finish_ v) <= new_size - size v)%Z
  | g_reserve new_cap => (capacity v < new_cap)%Z
  end.

Definition copies_only (g : growth) : bool :=
  match g with
  | g_reserve _ => true
  | _ => false
  end.

(** [refers s r x]: in state [s] the reference [r] denotes an object of
    value [x]. *)
Definition refers (s : state T) (r : ref) (x : T) : Prop :=
  match r with
  | Ext v => v = x
  | Loc a => cells (mem s) !! a = Some (Obj x)
  end.

(** Object [i] of world [w] seen as the state of its member functions. *)
(** The reference [r] does not point into the slots [lo, hi]. *)
Definition outside (r : ref) (lo hi : nat) : Prop :=
  match r with
  | Ext _ => True
  | Loc a => a < lo \/ hi < a
  end.

(** Evaluating the constructor argument [a] in [s] gives [x] without
    throwing and without changing the state. *)
Definition yields (s : state T) (a : arg) (x : T) : Prop :=
  match a with
  | ACopy r => refers s r x /\ copy_throws x = false
  | AMove _ => False
  | AMake o => o = Some x
  end.

Definition state_of (w : world) (v : vec) : state T := State v (wmem w).

(** Two vectors whose storage does not overlap. *)
Definition apart (a b : vec) : Prop :=
  end_of_storage_ a <= start_ b \/ end_of_storage_ b <= start_ a \/
  start_ a = end_of_storage_ a \/ start_ b = end_of_storage_ b.

End Vector.

Arguments ref T : clear implicits.
Arguments arg T : clear implicits.
Arguments world T : clear implicits.
Arguments growth T : clear implicits.

(** ** Ordering comparisons *)

(** [operator<] of the element type. *)
Class Ordered (T : Type) := elem_lt : T -> T -> bool.

Section Ordering.
Context {T : Type} `{Element T} `{Ordered T}.

(** [std::lexicographical_compare(first1, last1, first2, last2)], with [n1]
    and [n2] elements left in the two ranges. *)
Fixpoint lex_loop (n1 n2 : nat) (p q : nat) : M T bool :=
  match n1, n2 with
  | S n1', S n2' =>
      a <- read p;;
      b <- read q;;
      if elem_lt a b then ret true
      else if elem_lt b a then ret false
      else lex_loop n1' n2' (S p) (S q)
  | O, S _ => ret true
  | _, O => ret false
  end.

Definition lexicographical_compare (first1 last1 first2 last2 : nat)
  : M T bool :=
  n1 <- distance first1 last1;;
  n2 <- distance first2 last2;;
  lex_loop n1 n2 first1 first2.

Definition operator_lt (lhs rhs : vec) : M T bool :=
  lexicographical_compare (start_ lhs) (finish_ lhs)
                          (start_ rhs) (finish_ rhs).

Definition operator_le (lhs rhs : vec) : M T bool :=
  b <- operator_lt rhs lhs;; ret (negb b).

Definition operator_gt (lhs rhs : vec) : M T bool :=
  operator_lt rhs lhs.

Definition operator_ge (lhs rhs : vec) : M T bool :=
  b <- operator_lt lhs rhs;; ret (negb b).

(** The lexicographic order on element sequences that the loop decides. *)
Fixpoint lex_lt (l1 l2 : list T) : bool :=
  match l1, l2 with
  | x :: t1, y :: t2 =>
      if elem_lt x y then true
      else if elem_lt y x then false
      else lex_lt t1 t2
  | [], _ :: _ => true
  | _, [] => false
  end.

(** [l1] comes before [l2] in the lexicographic order: [k] is the first
    index at which the sequences are ordered; up to it the elements are
    pairwise unordered, and there [l1] ends before [l2] or has the smaller
    element. *)
Definition lex_less (l1 l2 : list T) : Prop :=
  exists k,
    (forall i x y, i < k -> l1 !! i = Some x -> l2 !! i = Some y ->
       elem_lt x y = false /\ elem_lt y x = false) /\
    k <= length l1 /\ k <= length l2 /\
    ((k = length l1 /\ k < length l2) \/
     exists x y, l1 !! k = Some x /\ l2 !! k = Some y /\
                 elem_lt x y = true).

End Ordering.

(** ** Concrete element types and states *)

(** [int]: trivially copyable, nothing throws, a move leaves the source as
    it is, and default-initialisation writes no value. *)
Definition int_elem : Element Z := {|
  moved_from := fun v => v;
  copy_throws := fun _ => false;
  move_throws := fun _ => false;
  default_init := None;
  elem_eq := Z.eqb;
  sizeof_T := 4;
  alloc_max_size := (2 ^ 61 - 1)%Z
|}.

(** An instrumented element type: integers whose move constructor throws
    on the value [13] and otherwise leaves [0] behind in the source, and
    whose default constructor builds [0]. *)
Definition fragile_elem : Element Z := {|
  moved_from := fun _ => 0%Z;
  copy_throws := fun _ => false;
  move_throws := fun v => (v =? 13)%Z;
  default_init := Some (Some 0%Z);
  elem_eq := Z.eqb;
  sizeof_T := 8;
  alloc_max_size := (2 ^ 60 - 1)%Z
|}.

(** No storage handed out yet; slot [0] is the null address. *)
Definition empty_heap : heap Z := Heap [Free] 1000 [].

(** A default-constructed vector on the empty heap. *)
Definition fresh : state Z := State (Vec 0 0 0) empty_heap.

(** The state reached by a successful run, [fresh] if it fails. *)
Definition after {A} (r : outcome (state Z) A) : state Z :=
  match r with
  | Ret _ s' => s'
  | _ => fresh
  end.

(** The states below are written out; that the container reaches them
    from [fresh] by its own operations is shown with the properties. *)

(** [v = {1, 2, 3}] with [capacity() == 4]. *)
Definition v123_spare : state Z :=
  State (Vec 4 7 8)
    (Heap [Free; Free; Free; Free; Obj 1%Z; Obj 2%Z; Obj 3%Z; Raw] 993
       [EAlloc 1 1; EConstruct 1; EAlloc 2 2; EConstruct 3; EConstruct 2;
        EDestroy 1; EDealloc 1 1; EAlloc 4 4; EConstruct 6; EConstruct 4;
        EConstruct 5; EDestroy 2; EDestroy 3; EDealloc 2 2]).

(** [v = {1, 2, 3, 4}] with [capacity() == 4]. *)
Definition v1234_full : state Z :=
  State (Vec 4 8 8)
    (Heap [Free; Free; Free; Free; Obj 1%Z; Obj 2%Z; Obj 3%Z; Obj 4%Z] 993
       [EAlloc 1 1; EConstruct 1; EAlloc 2 2; EConstruct 3; EConstruct 2;
        EDestroy 1; EDealloc 1 1; EAlloc 4 4; EConstruct 6; EConstruct 4;
        EConstruct 5; EDestroy 2; EDestroy 3; EDealloc 2 2; EConstruct 7]).

(** [v = {1, 2}] with [capacity() == 2]. *)
Definition v12_full : state Z :=
  State (Vec 2 4 4)
    (Heap [Free; Free; Obj 1%Z; Obj 2%Z] 997
       [EAlloc 1 1; EConstruct 1; EAlloc 2 2; EConstruct 3; EConstruct 2;
        EDestroy 1; EDealloc 1 1]).

(** [v = {7}] with [capacity() == 2]. *)
Definition v7_cap2 : state Z :=
  State (Vec 1 2 3)
    (Heap [Free; Obj 7%Z; Raw] 998 [EAlloc 2 1; EConstruct 1]).

(** [v = {5, 13}] with [capacity() == 2], elements of the fragile type. *)
Definition v5_13_full : state Z :=
  State (Vec 2 4 4)
    (Heap [Free; Free; Obj 5%Z; Obj 13%Z] 997
       [EAlloc 1 1; EConstruct 1; EAlloc 2 2; EConstruct 3; EConstruct 2;
        EDestroy 1; EDealloc 1 1]).

(** The state in which [push_back(7)] on [v5_13_full] throws. *)
Definition v5_13_failed : state Z :=
  State (Vec 2 4 4)
    (Heap [Free; Free; Obj 0%Z; Obj 13%Z; Raw; Raw; Obj 7%Z; Raw] 993
       [EAlloc 1 1; EConstruct 1; EAlloc 2 2; EConstruct 3; EConstruct 2;
        EDestroy 1; EDealloc 1 1; EAlloc 4 4; EConstruct 6; EConstruct 4;
        EDestroy 4]).

(** [v = {1, 2, 3}] with [capacity() == 4], on an allocator that has
    nothing left to give. *)
Definition v123_spare_exhausted : state Z :=
  State (Vec 4 7 8)
    (Heap [Free; Free; Free; Free; Obj 1%Z; Obj 2%Z; Obj 3%Z; Raw] 0
       [EAlloc 1 1; EConstruct 1; EAlloc 2 2; EConstruct 3; EConstruct 2;
        EDestroy 1; EDealloc 1 1; EAlloc 4 4; EConstruct 6; EConstruct 4;
        EConstruct 5; EDestroy 2; EDestroy 3; EDealloc 2 2]).

(** [v = {1}] with [capacity() == 4]. *)
Definition v1_cap4 : state Z :=
  State (Vec 1 2 5)
    (Heap [Free; Obj 1%Z; Raw; Raw; Raw] 996 [EAlloc 4 1; EConstruct 1]).

(** Two vectors on one heap: object 0 is [{1, 2, 3}] with [capacity() ==
    4], object 1 is [{7}] with [capacity() == 2]. *)
Definition two_vectors : world Z :=
  World [Vec 3 6 7; Vec 1 2 3]
    (Heap [Free; Obj 7%Z; Raw; Obj 1%Z; Obj 2%Z; Obj 3%Z; Raw] 994
       [EAlloc 2 1; EConstruct 1; EAlloc 4 3; EConstruct 3; EConstruct 4;
        EConstruct 5]).

(** Integers ordered by [<]. *)
Definition int_lt : Ordered Z := Z.ltb.

(** * Properties *)

Section Properties.
Context {T : Type} `{Element T}.

Implicit Types (s : state T) (c : list (cell T)).

(** ** Inserting nothing *)

(** C9: [insert(p, 0, x)] and the range insert of an empty range
    [first, first) return at once: the whole state (object, slots, allocator
    account, log of allocator and element events) is what it was, and the
    iterator returned is [begin() + (p - begin())]. *)
Theorem insert_nothing_is_identity s (pos first : nat) (value : ref T) :
  insert_fill pos 0 value s
    = Ret (start_ (this s) + (pos - start_ (this s))) s /\
  insert_range pos first first s
    = Ret (start_ (this s) + (pos - start_ (this s))) s.
Proof.
  unfold insert_fill, insert_range, fill_insert, range_insert.
  rewrite Nat.eqb_refl. destruct s as [v h]. split; reflexivity.
Qed.

(** ** Self-assignment *)

(** C6: copy-assigning or move-assigning a vector object to itself returns
    with the world unchanged: same objects, same slots, and no event (so no
    deallocation at all) added to the log. *)
Theorem self_assignment_is_identity (w : world T) (i : nat) :
  operator_assign i i w = Ret tt w /\
  operator_assign_move i i w = Ret tt w.
Proof.
  unfold operator_assign, operator_assign_move.
  rewrite Nat.eqb_refl. split; reflexivity.
Qed.

(** ** Slots and ranges *)

Lemma objs_at_ext c c' p n :
  (forall i, i < n -> c !! (p + i) = c' !! (p + i)) ->
  objs_at c p n = objs_at c' p n.
Proof.
  revert p. induction n as [|n IH]; intros p Hext; simpl; [reflexivity|].
  pose proof (Hext 0 ltac:(lia)) as H0. rewrite Nat.add_0_r in H0.
  rewrite H0, (IH (S p)); [reflexivity|].
  intros i Hi. replace (S p + i) with (p + S i) by lia. apply Hext. lia.
Qed.

Lemma objs_at_length c p n l : objs_at c p n = Some l -> length l = n.
Proof.
  revert p l. induction n as [|n IH]; intros p l; simpl.
  - intros [= <-]. reflexivity.
  - destruct (c !! p) as [[| |x|]|]; try discriminate.
    destruct (objs_at c (S p) n) as [l'|] eqn:E; try discriminate.
    intros [= <-]. simpl. f_equal. eauto.
Qed.

Lemma objs_at_lookup c p n l i x :
  objs_at c p n = Some l -> l !! i = Some x -> c !! (p + i) = Some (Obj x).
Proof.
  revert p l i. induction n as [|n IH]; intros p l i; simpl.
  - intros [= <-]. discriminate.
  - destruct (c !! p) as [[| |y|]|] eqn:Ep; try discriminate.
    destruct (objs_at c (S p) n) as [l'|] eqn:E; try discriminate.
    intros [= <-]. destruct i as [|i]; simpl.
    + intros [= <-]. rewrite Nat.add_0_r. exact Ep.
    + intros Hi. replace (p + S i) with (S p + i) by lia. eauto.
Qed.

Lemma objs_at_intro c p l :
  (forall i x, l !! i = Some x -> c !! (p + i) = Some (Obj x)) ->
  objs_at c p (length l) = Some l.
Proof.
  revert p. induction l as [|y l IH]; intros p Hl; simpl; [reflexivity|].
  pose proof (Hl 0 y eq_refl) as H0. rewrite Nat.add_0_r in H0.
  rewrite H0, (IH (S p)); [reflexivity|].
  intros i x Hi. replace (S p + i) with (p + S i) by lia. apply Hl. exact Hi.
Qed.

Lemma raw_at_lookup c p n i :
  raw_at c p n = true -> i < n -> c !! (p + i) = Some Raw.
Proof.
  revert p i. induction n as [|n IH]; intros p i; simpl; [lia|].
  destruct (c !! p) as [[| |y|]|] eqn:Ep; try discriminate.
  intros Hr Hi. destruct i as [|i].
  - rewrite Nat.add_0_r. exact Ep.
  - replace (p + S i) with (S p + i) by lia. apply IH; [exact Hr|lia].
Qed.

Lemma length_release n p c : length (release n p c) = length c.
Proof.
  revert p. induction n as [|n IH]; intros p; simpl; [reflexivity|].
  rewrite length_insert. apply IH.
Qed.

Lemma release_lookup_out n p c a :
  a < p \/ p + n <= a -> release n p c !! a = c !! a.
Proof.
  revert p. induction n as [|n IH]; intros p Ha; simpl; [reflexivity|].
  rewrite list_lookup_insert_ne by lia. apply IH. lia.
Qed.

Lemma release_lookup_in n p c a :
  p <= a < p + n -> a < length c -> release n p c !! a = Some Free.
Proof.
  revert p. induction n as [|n IH]; intros p Ha Hlen; simpl; [lia|].
  destruct (decide (a = p)) as [->|Hne].
  - apply list_lookup_insert_eq. rewrite length_release. exact Hlen.
  - rewrite list_lookup_insert_ne by lia. apply IH; [lia|exact Hlen].
Qed.

(** In a well-formed state the slots of [start_, end_of_storage_) exist. *)
Lemma wf_storage_in_heap s a :
  wf s -> start_ (this s) <= a < end_of_storage_ (this s) ->
  a < length (cells (mem s)).
Proof.
  intros (Hsf & Hfe & [l Hl] & Hraw & _) Ha.
  destruct (decide (a < finish_ (this s))) as [Hlt|Hge].
  - unfold contents, nsize in Hl.
    assert (Hlen := objs_at_length _ _ _ _ Hl).
    destruct (lookup_lt_is_Some_2 l (a - start_ (this s))) as [x Hx]; [lia|].
    pose proof (objs_at_lookup _ _ _ _ _ _ Hl Hx) as Hc.
    replace (start_ (this s) + (a - start_ (this s))) with a in Hc by lia.
    eapply lookup_lt_Some. exact Hc.
  - pose proof (raw_at_lookup _ _ _ (a - finish_ (this s)) Hraw) as Hc.
    replace (finish_ (this s) + (a - finish_ (this s))) with a in Hc by lia.
    eapply lookup_lt_Some. apply Hc. lia.
Qed.

(** ** The allocator's account *)

Lemma holds_block_In p n held :
  holds_block p n held = true <-> In (p, n) held.
Proof.
  unfold holds_block. rewrite existsb_exists. split.
  - intros ([q m] & Hin & Hb). simpl in Hb.
    apply andb_true_iff in Hb as [Hq Hm].
    apply Nat.eqb_eq in Hq. apply Z.eqb_eq in Hm. subst. exact Hin.
  - intros Hin. exists (p, n). split; [exact Hin|]. simpl.
    rewrite Nat.eqb_refl, Z.eqb_refl. reflexivity.
Qed.

Lemma In_drop_block b p held :
  In b (drop_block p held) <-> In b held /\ fst b <> p.
Proof.
  induction held as [|b' held IH]; simpl; [tauto|].
  destruct (fst b' =? p) eqn:E.
  - apply Nat.eqb_eq in E. rewrite IH. split.
    + intros [Hin Hne]. auto.
    + intros [[->|Hin] Hne]; [contradiction|auto].
  - apply Nat.eqb_neq in E. simpl. rewrite IH. split.
    + intros [->|[Hin Hne]]; auto.
    + intros [[->|Hin] Hne]; auto.
Qed.

Lemma held_blocks_snoc l e :
  held_blocks (l ++ [e]) = held_step (held_blocks l) e.
Proof. unfold held_blocks. rewrite fold_left_app. reflexivity. Qed.

Lemma blocks_logged s e :
  (forall n p, e <> EAlloc n p) -> (forall p n, e <> EDealloc p n) ->
  held_blocks (log (mem s) ++ [e]) = blocks s.
Proof.
  intros Ha Hd. rewrite held_blocks_snoc. unfold blocks.
  destruct e; try reflexivity; [destruct (Ha n p)|destruct (Hd p n)];
    reflexivity.
Qed.

(** Only the allocator changes its account: the operations on objects,
    and the algorithms built from them, are quiet. *)
Lemma quiet_run {A} (m : M T A) s r s' :
  quiet m -> m s = Ret r s' -> blocks s' = blocks s.
Proof. intros Hm Hrun. specialize (Hm s). rewrite Hrun in Hm. exact Hm. Qed.

Lemma quiet_ret {A} (a : A) : quiet (ret a : M T A).
Proof. intros s. reflexivity. Qed.

Lemma quiet_throw {A} e : quiet (throw e : M T A).
Proof. intros s. reflexivity. Qed.

Lemma quiet_undef {A} : quiet (undef : M T A).
Proof. intros s. exact I. Qed.

Lemma quiet_bind {A B} (m : M T A) (f : A -> M T B) :
  quiet m -> (forall a, quiet (f a)) -> quiet (bind m f).
Proof.
  intros Hm Hf s. unfold bind. specialize (Hm s).
  destruct (m s) as [a s1|e s1|]; [|exact Hm|exact I].
  specialize (Hf a s1). destruct (f a s1); congruence.
Qed.

Lemma quiet_try_catch {A} (m : M T A) (h : exn -> M T A) :
  quiet m -> (forall e, quiet (h e)) -> quiet (try_catch m h).
Proof.
  intros Hm Hh s. unfold try_catch. specialize (Hm s).
  destruct (m s) as [a s1|e s1|]; [exact Hm| |exact I].
  specialize (Hh e s1). destruct (h e s1); congruence.
Qed.

Lemma quiet_get_this : quiet (get_this : M T vec).
Proof. intros s. reflexivity. Qed.

Lemma quiet_put_this v : quiet (put_this v : M T unit).
Proof. intros s. reflexivity. Qed.

Lemma quiet_set_finish p : quiet (set_finish p : M T unit).
Proof. intros s. reflexivity. Qed.

Lemma quiet_distance a b : quiet (distance a b : M T nat).
Proof. intros s. unfold distance. destruct (a <=? b); simpl; auto. Qed.

Lemma quiet_read p : quiet (read p : M T T).
Proof.
  intros s. unfold read.
  destruct (cells (mem s) !! p) as [[| |x|]|]; simpl; auto.
Qed.

Lemma quiet_poke p v : quiet (poke p v : M T unit).
Proof.
  intros s. unfold poke.
  destruct (cells (mem s) !! p) as [[| |x|]|]; simpl; auto.
Qed.

Lemma quiet_place p v : quiet (place p v : M T unit).
Proof.
  intros s. unfold place.
  destruct (cells (mem s) !! p) as [[| |x|]|]; simpl; auto;
    apply blocks_logged; discriminate.
Qed.

Lemma quiet_place_indet p : quiet (place_indet p : M T unit).
Proof.
  intros s. unfold place_indet.
  destruct (cells (mem s) !! p) as [[| |x|]|]; simpl; auto;
    apply blocks_logged; discriminate.
Qed.

Lemma quiet_store p v : quiet (store p v : M T unit).
Proof.
  intros s. unfold store.
  destruct (cells (mem s) !! p) as [[| |x|]|]; simpl; auto;
    apply blocks_logged; discriminate.
Qed.

Lemma quiet_destroy_at p : quiet (destroy_at p : M T unit).
Proof.
  intros s. unfold destroy_at.
  destruct (cells (mem s) !! p) as [[| |x|]|]; simpl; auto;
    apply blocks_logged; discriminate.
Qed.

Lemma quiet_eval_arg (a : arg T) : quiet (eval_arg a : M T T).
Proof.
  destruct a as [r|r|o]; simpl.
  - apply quiet_bind.
    + destruct r; [apply quiet_ret|apply quiet_read].
    + intros v. destruct (copy_throws v); [apply quiet_throw|apply quiet_ret].
  - apply quiet_bind.
    + destruct r; [apply quiet_ret|apply quiet_read].
    + intros v. destruct (move_throws v); [apply quiet_throw|].
      apply quiet_bind; [|intros _; apply quiet_ret].
      destruct r; [apply quiet_ret|apply quiet_poke].
  - destruct o; [apply quiet_ret|apply quiet_throw].
Qed.

Lemma quiet_construct p (a : arg T) : quiet (construct p a : M T unit).
Proof.
  apply quiet_bind; [apply quiet_eval_arg|intros v; apply quiet_place].
Qed.

Lemma quiet_default_construct p : quiet (default_construct p : M T unit).
Proof.
  unfold default_construct. destruct default_init.
  - apply quiet_construct.
  - apply quiet_place_indet.
Qed.

Lemma quiet_assign_at p (a : arg T) : quiet (assign_at p a : M T unit).
Proof.
  apply quiet_bind; [apply quiet_eval_arg|intros v; apply quiet_store].
Qed.

Lemma quiet_destroy_n n : forall p, quiet (destroy_n n p : M T unit).
Proof.
  induction n as [|n IH]; intros p; simpl; [apply quiet_ret|].
  apply quiet_bind; [apply quiet_destroy_at|intros _; apply IH].
Qed.

Lemma quiet_std_destroy a b : quiet (std_destroy a b : M T unit).
Proof.
  apply quiet_bind; [apply quiet_distance|intros n; apply quiet_destroy_n].
Qed.

Lemma quiet_uninit_loop (src : nat -> arg T) d n :
  forall i, quiet (uninit_loop src d n i : M T nat).
Proof.
  induction n as [|n IH]; intros i; simpl; [apply quiet_ret|].
  apply quiet_bind; [|intros _; apply IH].
  apply quiet_try_catch; [apply quiet_construct|].
  intros e. apply quiet_bind; [apply quiet_destroy_n|].
  intros _. apply quiet_throw.
Qed.

Lemma quiet_default_loop d n : forall i, quiet (default_loop d n i : M T nat).
Proof.
  induction n as [|n IH]; intros i; simpl; [apply quiet_ret|].
  apply quiet_bind; [|intros _; apply IH].
  apply quiet_try_catch; [apply quiet_default_construct|].
  intros e. apply quiet_bind; [apply quiet_destroy_n|].
  intros _. apply quiet_throw.
Qed.

Lemma quiet_assign_loop dst (src : nat -> arg T) n :
  forall i, quiet (assign_loop dst src n i : M T unit).
Proof.
  induction n as [|n IH]; intros i; simpl; [apply quiet_ret|].
  apply quiet_bind; [apply quiet_assign_at|intros _; apply IH].
Qed.

Lemma quiet_shift_up n : forall it, quiet (shift_up n it : M T unit).
Proof.
  induction n as [|n IH]; intros it; simpl; [apply quiet_ret|].
  apply quiet_bind; [apply quiet_assign_at|intros _; apply IH].
Qed.

Lemma quiet_erase_at_end p : quiet (erase_at_end p : M T unit).
Proof.
  unfold erase_at_end. apply quiet_bind; [apply quiet_get_this|].
  intros v. destruct (finish_ v - p =? 0); [apply quiet_ret|].
  apply quiet_bind; [apply quiet_std_destroy|].
  intros _. apply quiet_set_finish.
Qed.

Lemma quiet_std_copy a b d : quiet (std_copy a b d : M T nat).
Proof.
  apply quiet_bind; [apply quiet_distance|]. intros n.
  apply quiet_bind; [apply quiet_assign_loop|intros _; apply quiet_ret].
Qed.

Lemma quiet_std_move a b d : quiet (std_move a b d : M T nat).
Proof.
  apply quiet_bind; [apply quiet_distance|]. intros n.
  apply quiet_bind; [apply quiet_assign_loop|intros _; apply quiet_ret].
Qed.

Lemma quiet_std_move_backward a b d :
  quiet (std_move_backward a b d : M T nat).
Proof.
  apply quiet_bind; [apply quiet_distance|]. intros n.
  apply quiet_bind; [apply quiet_assign_loop|intros _; apply quiet_ret].
Qed.

Lemma quiet_std_fill a b (r : ref T) : quiet (std_fill a b r : M T unit).
Proof.
  apply quiet_bind; [apply quiet_distance|]. intros n.
  apply quiet_assign_loop.
Qed.

Lemma quiet_uninitialized_copy a b d :
  quiet (uninitialized_copy a b d : M T nat).
Proof.
  apply quiet_bind; [apply quiet_distance|]. intros n.
  apply quiet_uninit_loop.
Qed.

Lemma quiet_uninitialized_move a b d :
  quiet (uninitialized_move a b d : M T nat).
Proof.
  apply quiet_bind; [apply quiet_distance|]. intros n.
  apply quiet_uninit_loop.
Qed.

(** Ownership depends on the bounds of the block and on the allocator's
    account only. *)
Lemma owns_same st fi eo (hp : heap T) fi' (hp' : heap T) :
  owns (State (Vec st fi eo) hp) ->
  held_blocks (log hp') = held_blocks (log hp) ->
  owns (State (Vec st fi' eo) hp').
Proof.
  unfold owns, blocks, capacity, ncapacity. simpl.
  intros Hown ->. exact Hown.
Qed.

Lemma wf_owns s : wf s -> owns s.
Proof. intros (_ & _ & _ & _ & _ & _ & Hown). exact Hown. Qed.

Lemma raw_at_intro (c : list (cell T)) p n :
  (forall i, i < n -> c !! (p + i) = Some Raw) -> raw_at c p n = true.
Proof.
  revert p. induction n as [|n IH]; intros p Hraw; simpl; [reflexivity|].
  pose proof (Hraw 0 ltac:(lia)) as H0. rewrite Nat.add_0_r in H0.
  rewrite H0. apply IH. intros i Hi.
  replace (S p + i) with (p + S i) by lia. apply Hraw. lia.
Qed.

Lemma wf_intro st fi eo (hp : heap T) (l : list T) :
  st <= fi -> fi <= eo ->
  objs_at (cells hp) st (fi - st) = Some l ->
  (forall i, i < eo - fi -> cells hp !! (fi + i) = Some Raw) ->
  (Z.of_nat (eo - st) <= max_size)%Z ->
  (st = 0 -> eo = 0) ->
  owns (State (Vec st fi eo) hp) ->
  wf (State (Vec st fi eo) hp).
Proof.
  intros Hsf Hfe Hl Hraw Hcap Hnull Hown. unfold wf. simpl.
  split; [exact Hsf|]. split; [exact Hfe|]. split.
  { exists l. exact Hl. }
  split; [apply raw_at_intro, Hraw|]. split; [exact Hcap|].
  split; [exact Hnull|exact Hown].
Qed.

(** What a well-formed state says about single slots. *)
Lemma wf_slots st fi eo (hp : heap T) (l : list T) :
  wf (State (Vec st fi eo) hp) ->
  contents (State (Vec st fi eo) hp) = Some l ->
  length l = fi - st /\
  (forall t y, l !! t = Some y -> cells hp !! (st + t) = Some (Obj y)) /\
  (forall t, t < eo - fi -> cells hp !! (fi + t) = Some Raw) /\
  (forall a, st <= a < eo -> a < length (cells hp)) /\
  (Z.of_nat (eo - st) <= max_size)%Z /\
  (st <= fi <= eo /\ (st = 0 -> eo = 0)).
Proof.
  intros Hwf Hl. pose proof Hwf as (Hsf & Hfe & _ & Hraw & Hcap & Hz & _).
  unfold contents, nsize in Hl. simpl in *.
  split; [apply (objs_at_length _ _ _ _ Hl)|]. split.
  { intros t y Ht. apply (objs_at_lookup _ _ _ _ _ _ Hl Ht). }
  split.
  { intros t Ht. apply (raw_at_lookup _ _ _ _ Hraw Ht). }
  split.
  { intros a Ha. apply (wf_storage_in_heap _ a Hwf). exact Ha. }
  split; [exact Hcap|]. split; [lia|exact Hz].
Qed.

(** ** shrink_to_fit *)

(** With [capacity() == size()], [shrink_to_fit] does nothing. *)
Lemma shrink_to_fit_at_capacity s :
  capacity (this s) = size (this s) -> shrink_to_fit s = Ret tt s.
Proof.
  intros Heq. unfold shrink_to_fit, bind, get_this.
  rewrite Heq, Z.ltb_irrefl. reflexivity.
Qed.

(** On a non-empty vector with spare capacity, [shrink_to_fit] passes
    [finish_], a pointer strictly inside the block that the vector owns,
    to [deallocate]: when the blocks that the allocator has handed out do
    not overlap, no block starts there, and the call is undefined. *)
Lemma shrink_to_fit_interior_pointer s :
  wf s ->
  blocks_apart (blocks s) ->
  start_ (this s) < finish_ (this s) ->
  finish_ (this s) < end_of_storage_ (this s) ->
  shrink_to_fit s = Undef.
Proof.
  intros Hwf Hapart Hsf Hfe.
  destruct Hwf as (_ & _ & _ & _ & _ & Hnull & Hown).
  destruct s as [[st fi eo] hp]. unfold owns, blocks in *. simpl in *.
  destruct Hown as [Hst|[_ Hown]]; [specialize (Hnull Hst); lia|].
  unfold shrink_to_fit, bind, get_this, size, capacity, nsize, ncapacity.
  simpl.
  replace (Z.of_nat (fi - st) <? Z.of_nat (eo - st))%Z with true
    by (symmetry; apply Z.ltb_lt; lia).
  unfold deallocate, Tr_deallocate. simpl.
  replace (fi =? 0) with false by (symmetry; apply Nat.eqb_neq; lia).
  cbn [mem this log].
  destruct (holds_block fi (Z.of_nat (eo - fi)) (held_blocks (log hp)))
    eqn:Eheld; [|reflexivity].
  apply holds_block_In in Eheld.
  unfold capacity, ncapacity in Hown. simpl in Hown.
  destruct (Hapart _ _ Hown Eheld) as [Heq|[Hlt|Hlt]]; simpl in *.
  - injection Heq as Heq _. lia.
  - rewrite Nat2Z.id in Hlt. lia.
  - rewrite Nat2Z.id in Hlt. lia.
Qed.

(** ** Comparison *)

Lemma equal_loop_spec n : forall p q s ls rs,
  objs_at (cells (mem s)) p n = Some ls ->
  objs_at (cells (mem s)) q n = Some rs ->
  exists b,
    equal_loop n p q s = Ret b s /\
    (b = true <->
     forall i x y, ls !! i = Some x -> rs !! i = Some y -> elem_eq x y = true).
Proof.
  induction n as [|n IH]; intros p q s ls rs; simpl.
  - intros [= <-] [= <-]. exists true. split; [reflexivity|].
    split; [|reflexivity]. intros _ i x y Hx. discriminate.
  - unfold bind, read.
    destruct (cells (mem s) !! p) as [[| |x|]|]; try discriminate.
    destruct (objs_at (cells (mem s)) (S p) n) as [ls'|] eqn:El;
      try discriminate.
    destruct (cells (mem s) !! q) as [[| |y|]|]; try discriminate.
    destruct (objs_at (cells (mem s)) (S q) n) as [rs'|] eqn:Er;
      try discriminate.
    intros [= <-] [= <-].
    destruct (elem_eq x y) eqn:Exy.
    + destruct (IH _ _ _ _ _ El Er) as (b & Hrun & Hb).
      exists b. split; [exact Hrun|]. rewrite Hb. split.
      * intros Hall [|i] x' y'; simpl.
        -- intros [= <-] [= <-]. exact Exy.
        -- apply Hall.
      * intros Hall i x' y'. apply (Hall (S i)).
    + exists false. split; [reflexivity|]. split; [discriminate|].
      intros Hall. rewrite (Hall 0 x y eq_refl eq_refl) in Exy. discriminate.
Qed.

(** C10: for two vectors whose elements are constructed, [a == b] returns
    (without touching the state) [true] exactly when [a.size() == b.size()]
    and the elements at every index compare equal with [T]'s [operator==];
    [a != b] returns the negation of that. *)
Theorem operator_eq_spec s (lhs rhs : vec) (ls rs : list T) :
  start_ lhs <= finish_ lhs ->
  objs_at (cells (mem s)) (start_ lhs) (nsize lhs) = Some ls ->
  objs_at (cells (mem s)) (start_ rhs) (nsize rhs) = Some rs ->
  exists b,
    operator_eq lhs rhs s = Ret b s /\
    (b = true <->
     size lhs = size rhs /\
     forall i x y, ls !! i = Some x -> rs !! i = Some y -> elem_eq x y = true) /\
    operator_ne lhs rhs s = Ret (negb b) s.
Proof.
  intros Hle Hl Hr. unfold operator_ne, operator_eq, bind, size.
  destruct (Z.of_nat (nsize lhs) =? Z.of_nat (nsize rhs))%Z eqn:Esz.
  - apply Z.eqb_eq in Esz. apply Nat2Z.inj in Esz.
    unfold std_equal, distance, bind.
    apply Nat.leb_le in Hle as Hle'. rewrite Hle'. unfold ret.
    rewrite <- Esz in Hr. fold (nsize lhs).
    destruct (equal_loop_spec _ _ _ _ _ _ Hl Hr) as (b & Hrun & Hb).
    exists b. rewrite Hrun. split; [reflexivity|]. split; [|reflexivity].
    rewrite Hb. rewrite Esz. tauto.
  - exists false. split; [reflexivity|]. split; [|reflexivity].
    apply Z.eqb_neq in Esz. split; [discriminate|]. tauto.
Qed.

(** ** Assigning a vector its own range *)

Lemma logged_nil s : logged s [] = s.
Proof.
  destruct s as [v [c av lg]]. unfold logged. simpl.
  rewrite app_nil_r. reflexivity.
Qed.

Lemma logged_logged s l l' : logged (logged s l) l' = logged s (l ++ l').
Proof. unfold logged. simpl. rewrite app_assoc. reflexivity. Qed.

(** Copy-assigning an object to itself leaves the slot as it is. *)
Lemma assign_at_self p x s :
  cells (mem s) !! p = Some (Obj x) ->
  assign_at p (ACopy (Loc p)) s =
    if copy_throws x then Throw elem_failure s
    else Ret tt (logged s [EAssign p]).
Proof.
  intros Hp. unfold assign_at, eval_arg, deref, bind, read. rewrite Hp.
  destruct (copy_throws x); [reflexivity|].
  unfold ret, store. rewrite Hp. unfold bind, put_cells, emit, logged. simpl.
  rewrite list_insert_id by exact Hp. reflexivity.
Qed.

Lemma self_copy_loop st n : forall i s,
  (forall j, i <= j < i + n ->
             exists x, cells (mem s) !! (st + j) = Some (Obj x)) ->
  exists l,
    (assign_loop (fun j => st + j) (fun j => ACopy (Loc (st + j))) n i s
       = Ret tt (logged s l) \/
     assign_loop (fun j => st + j) (fun j => ACopy (Loc (st + j))) n i s
       = Throw elem_failure (logged s l)) /\
    ((forall j x, i <= j < i + n ->
                  cells (mem s) !! (st + j) = Some (Obj x) ->
                  copy_throws x = false) ->
     assign_loop (fun j => st + j) (fun j => ACopy (Loc (st + j))) n i s
       = Ret tt (logged s l)).
Proof.
  induction n as [|n IH]; intros i s Hobj; simpl.
  - exists []. rewrite logged_nil. split; [left|]; reflexivity.
  - destruct (Hobj i ltac:(lia)) as [x Hx].
    unfold bind. rewrite (assign_at_self _ _ _ Hx).
    destruct (copy_throws x) eqn:Ex.
    + exists []. rewrite logged_nil. split; [right; reflexivity|].
      intros Hno. rewrite (Hno i x ltac:(lia) Hx) in Ex. discriminate.
    + destruct (IH (S i) (logged s [EAssign (st + i)])) as (l & Hrun & Hok).
      { intros j Hj. simpl. apply Hobj. lia. }
      exists ([EAssign (st + i)] ++ l). rewrite <- logged_logged.
      split; [exact Hrun|].
      intros Hno. apply Hok. intros j y Hj. simpl. apply Hno. lia.
Qed.

(** C8: on a well-formed vector, [v.assign(v.begin(), v.end())] assigns
    every element to itself and erases nothing.  Whether it returns or an
    element's copy assignment throws, [size()], [capacity()] and the
    element sequence are what they were; it returns when no element's copy
    assignment throws. *)
Theorem assign_own_range_unchanged s (l : list T) :
  wf s ->
  contents s = Some l ->
  exists s',
    (assign (start_ (this s)) (finish_ (this s)) s = Ret tt s' \/
     assign (start_ (this s)) (finish_ (this s)) s = Throw elem_failure s') /\
    size (this s') = size (this s) /\
    capacity (this s') = capacity (this s) /\
    contents s' = Some l /\
    ((forall x, x ∈ l -> copy_throws x = false) ->
     assign (start_ (this s)) (finish_ (this s)) s = Ret tt s').
Proof.
  intros (Hsf & Hfe & _ & _ & _ & _) Hl.
  destruct s as [[st fi eo] hp]. simpl in *.
  unfold contents in Hl. simpl in Hl. unfold nsize in Hl. simpl in Hl.
  pose proof (objs_at_length _ _ _ _ Hl) as Hlen.
  set (s0 := State (Vec st fi eo) hp).
  destruct (self_copy_loop st (fi - st) 0 s0) as (lg & Hrun & Hok).
  { intros j Hj. destruct (lookup_lt_is_Some_2 l j) as [x Hx]; [lia|].
    exists x. apply (objs_at_lookup _ _ _ _ _ _ Hl Hx). }
  assert (Hprog : forall r,
    assign_loop (fun j => st + j) (fun j => ACopy (Loc (st + j)))
                (fi - st) 0 s0 = r ->
    assign st fi s0 =
      match r with
      | Ret _ s1 => erase_at_end (st + (fi - st)) s1
      | Throw e s1 => Throw e s1
      | Undef => Undef
      end).
  { intros r Hr. unfold assign, range_assign, distance, bind.
    apply Nat.leb_le in Hsf as Hsf'. rewrite Hsf'. unfold ret, get_this.
    simpl. unfold capacity, size, ncapacity, nsize. simpl.
    replace (Z.of_nat (eo - st) <? Z.of_nat (fi - st))%Z with false
      by (symmetry; apply Z.ltb_ge; lia).
    rewrite Z.leb_refl. unfold std_copy, distance, bind. rewrite Hsf'.
    unfold ret. fold s0. rewrite Hr. destruct r; reflexivity. }
  assert (Herase : erase_at_end (st + (fi - st)) (logged s0 lg)
                   = Ret tt (logged s0 lg)).
  { unfold erase_at_end, bind, get_this. simpl.
    replace (fi - (st + (fi - st))) with 0 by lia. reflexivity. }
  exists (logged s0 lg). split; [|split; [|split; [|split]]].
  - destruct Hrun as [Hr|Hr]; rewrite (Hprog _ Hr); [left|right];
      [exact Herase|reflexivity].
  - reflexivity.
  - reflexivity.
  - exact Hl.
  - intros Hno. rewrite (Hprog (Ret tt (logged s0 lg))); [exact Herase|].
    apply Hok. intros j x Hj Hx. apply Hno.
    assert (l !! j = Some x) as Hjl.
    { destruct (lookup_lt_is_Some_2 l j) as [y Hy]; [lia|].
      pose proof (objs_at_lookup _ _ _ _ _ _ Hl Hy) as Hc.
      simpl in Hx. rewrite Hc in Hx. congruence. }
    eapply list_elem_of_lookup_2. exact Hjl.
Qed.

(** ** Building and destroying ranges *)

Lemma construct_copy_ok p a x s :
  cells (mem s) !! a = Some (Obj x) ->
  copy_throws x = false ->
  cells (mem s) !! p = Some Raw ->
  construct p (ACopy (Loc a)) s =
    Ret tt (State (this s)
              (Heap (<[p := Obj x]> (cells (mem s))) (avail (mem s))
                    (log (mem s) ++ [EConstruct p]))).
Proof.
  intros Ha Hx Hp. unfold construct, eval_arg, deref, bind, read.
  rewrite Ha, Hx. unfold ret, place. rewrite Hp. reflexivity.
Qed.

(** [uninitialized_copy] into raw storage disjoint from the source, when no
    copy constructor throws: the destination holds the source's values and
    nothing else has changed. *)
Lemma uninit_copy_ok first d n : forall i s,
  (forall j, i <= j < i + n ->
     exists x, cells (mem s) !! (first + j) = Some (Obj x) /\
               copy_throws x = false) ->
  (forall j, i <= j < i + n -> cells (mem s) !! (d + j) = Some Raw) ->
  (forall j k, i <= j < i + n -> i <= k < i + n -> first + j <> d + k) ->
  exists s',
    uninit_loop (fun j => ACopy (Loc (first + j))) d n i s
      = Ret (d + (i + n)) s' /\
    this s' = this s /\
    (forall a, a < d + i \/ d + (i + n) <= a ->
               cells (mem s') !! a = cells (mem s) !! a) /\
    (forall j x, i <= j < i + n ->
                 cells (mem s) !! (first + j) = Some (Obj x) ->
                 cells (mem s') !! (d + j) = Some (Obj x)).
Proof.
  induction n as [|n IH]; intros i s Hsrc Hdst Hdisj; simpl.
  - exists s. rewrite Nat.add_0_r. repeat split; auto. intros; lia.
  - destruct (Hsrc i ltac:(lia)) as (x & Hx & Hnt).
    unfold bind at 1, try_catch.
    rewrite (construct_copy_ok _ _ _ _ Hx Hnt (Hdst i ltac:(lia))).
    set (s1 := State _ _).
    assert (Hkeep : forall a, a <> d + i ->
                      cells (mem s1) !! a = cells (mem s) !! a).
    { intros a Ha. simpl. apply list_lookup_insert_ne. lia. }
    destruct (IH (S i) s1) as (s' & Hrun & Hthis & Hout & Hin).
    { intros j Hj. rewrite Hkeep; [apply Hsrc; lia|].
      apply Hdisj; lia. }
    { intros j Hj. rewrite Hkeep; [apply Hdst; lia|lia]. }
    { intros j k Hj Hk. apply Hdisj; lia. }
    exists s'. replace (d + (i + S n)) with (d + (S i + n)) by lia.
    split; [exact Hrun|]. split; [exact Hthis|]. split.
    + intros a Ha. rewrite Hout by lia. apply Hkeep. lia.
    + intros j y Hj Hy. destruct (decide (j = i)) as [->|Hne].
      * rewrite Hout by lia. simpl. rewrite Hx in Hy. injection Hy as <-.
        apply list_lookup_insert_eq. eapply lookup_lt_Some. apply Hdst. lia.
      * apply Hin; [lia|]. rewrite Hkeep; [exact Hy|]. apply Hdisj; lia.
Qed.

Lemma construct_move_ok p a x s :
  cells (mem s) !! a = Some (Obj x) ->
  move_throws x = false ->
  cells (mem s) !! p = Some Raw ->
  construct p (AMove (Loc a)) s =
    Ret tt (State (this s)
              (Heap (<[p := Obj x]>
                       (<[a := Obj (moved_from x)]> (cells (mem s))))
                    (avail (mem s))
                    (log (mem s) ++ [EConstruct p]))).
Proof.
  intros Ha Hx Hp. unfold construct, eval_arg, deref, bind, read.
  rewrite Ha, Hx. unfold leave_moved, poke. rewrite Ha.
  unfold put_cells, ret, place. simpl.
  assert (p <> a) as Hne by (intros ->; congruence).
  rewrite list_lookup_insert_ne by congruence. rewrite Hp. reflexivity.
Qed.

(** [uninitialized_move] into raw storage disjoint from the source, when no
    move constructor throws: the destination holds the source's values, the
    source holds what the moves left, nothing else has changed. *)
Lemma uninit_move_ok first d n : forall i s,
  (forall j, i <= j < i + n ->
     exists x, cells (mem s) !! (first + j) = Some (Obj x) /\
               move_throws x = false) ->
  (forall j, i <= j < i + n -> cells (mem s) !! (d + j) = Some Raw) ->
  (forall j k, i <= j < i + n -> i <= k < i + n -> first + j <> d + k) ->
  exists s',
    uninit_loop (fun j => AMove (Loc (first + j))) d n i s
      = Ret (d + (i + n)) s' /\
    this s' = this s /\
    (forall a, (a < d + i \/ d + (i + n) <= a) ->
               (a < first + i \/ first + (i + n) <= a) ->
               cells (mem s') !! a = cells (mem s) !! a) /\
    (forall j x, i <= j < i + n ->
                 cells (mem s) !! (first + j) = Some (Obj x) ->
                 cells (mem s') !! (d + j) = Some (Obj x) /\
                 cells (mem s') !! (first + j) = Some (Obj (moved_from x))).
Proof.
  induction n as [|n IH]; intros i s Hsrc Hdst Hdisj; simpl.
  - exists s. rewrite Nat.add_0_r. repeat split; auto; intros; lia.
  - destruct (Hsrc i ltac:(lia)) as (x & Hx & Hnt).
    unfold bind at 1, try_catch.
    rewrite (construct_move_ok _ _ _ _ Hx Hnt (Hdst i ltac:(lia))).
    set (s1 := State _ _).
    assert (Hkeep : forall a, a <> d + i -> a <> first + i ->
                      cells (mem s1) !! a = cells (mem s) !! a).
    { intros a Ha Ha'. simpl.
      rewrite !list_lookup_insert_ne by lia. reflexivity. }
    assert (Hlen : forall a, a < length (cells (mem s)) ->
                             a < length (cells (mem s1))).
    { intros a Ha. simpl. rewrite !length_insert. exact Ha. }
    destruct (IH (S i) s1) as (s' & Hrun & Hthis & Hout & Hin).
    { intros j Hj. rewrite Hkeep; [apply Hsrc; lia| |lia].
      apply Hdisj; lia. }
    { intros j Hj. rewrite Hkeep; [apply Hdst; lia|lia|].
      intros Heq. apply (Hdisj i j); lia. }
    { intros j k Hj Hk. apply Hdisj; lia. }
    exists s'. replace (d + (i + S n)) with (d + (S i + n)) by lia.
    split; [exact Hrun|]. split; [exact Hthis|]. split.
    + intros a Ha Ha'. rewrite Hout by lia. apply Hkeep; lia.
    + intros j y Hj Hy. destruct (decide (j = i)) as [->|Hne].
      * rewrite Hx in Hy. injection Hy as <-.
        assert (first + i <> d + i) as Hfd by (apply Hdisj; lia).
        split.
        -- rewrite Hout; [| lia |].
           ++ simpl. apply list_lookup_insert_eq. rewrite length_insert.
              eapply lookup_lt_Some. apply Hdst. lia.
           ++ destruct (decide (d + i < first + S i)); [left; lia|].
              destruct (decide (first + (S i + n) <= d + i)); [right; lia|].
              exfalso. apply (Hdisj (d + i - first) i); lia.
        -- rewrite Hout; [| |lia].
           ++ simpl. rewrite list_lookup_insert_ne by lia.
              apply list_lookup_insert_eq. eapply lookup_lt_Some. exact Hx.
           ++ destruct (decide (first + i < d + S i)); [left; lia|].
              destruct (decide (d + (S i + n) <= first + i)); [right; lia|].
              exfalso. apply (Hdisj i (first + i - d)); lia.
      * apply Hin; [lia|]. rewrite Hkeep; [exact Hy| |lia].
        apply Hdisj; lia.
Qed.

Lemma destroy_n_ok n : forall p s,
  (forall j, j < n -> exists x, cells (mem s) !! (p + j) = Some (Obj x)) ->
  exists s',
    destroy_n n p s = Ret tt s' /\
    this s' = this s /\
    (forall a, a < p \/ p + n <= a ->
               cells (mem s') !! a = cells (mem s) !! a).
Proof.
  induction n as [|n IH]; intros p s Hobj; simpl.
  - exists s. repeat split; auto.
  - destruct (Hobj 0 ltac:(lia)) as [x Hx]. rewrite Nat.add_0_r in Hx.
    unfold bind, destroy_at. rewrite Hx.
    unfold put_cells, emit. simpl. set (s1 := State _ _).
    destruct (IH (S p) s1) as (s' & Hrun & Hthis & Hout).
    { intros j Hj. replace (S p + j) with (p + S j) by lia.
      simpl. rewrite list_lookup_insert_ne by lia. apply Hobj. lia. }
    exists s'. split; [exact Hrun|]. split; [exact Hthis|].
    intros a Ha. rewrite Hout by lia. simpl.
    apply list_lookup_insert_ne. lia.
Qed.

Lemma objs_at_in_heap c p n l j :
  objs_at c p n = Some l -> j < n -> p + j < length c.
Proof.
  intros Hl Hj. pose proof (objs_at_length _ _ _ _ Hl) as Hlen.
  destruct (lookup_lt_is_Some_2 l j) as [x Hx]; [lia|].
  eapply lookup_lt_Some. apply (objs_at_lookup _ _ _ _ _ _ Hl Hx).
Qed.

(** [allocate_and_copy] when the allocation succeeds and no copy throws:
    the block starts at the old end of the heap, holds the copies, and the
    old slots are untouched. *)
Lemma allocate_and_copy_ok s (n : Z) (first k : nat) (l : list T) :
  (0 < n)%Z -> (n <= alloc_max_size)%Z -> (n <= avail (mem s))%Z ->
  (Z.of_nat k <= n)%Z ->
  objs_at (cells (mem s)) first k = Some l ->
  (forall x, x ∈ l -> copy_throws x = false) ->
  exists s',
    allocate_and_copy n first (first + k) s
      = Ret (length (cells (mem s))) s' /\
    this s' = this s /\
    (forall a, a < length (cells (mem s)) ->
               cells (mem s') !! a = cells (mem s) !! a) /\
    objs_at (cells (mem s')) (length (cells (mem s))) k = Some l /\
    (forall a, length (cells (mem s)) + k <= a
                 < length (cells (mem s)) + Z.to_nat n ->
               cells (mem s') !! a = Some Raw) /\
    blocks s' = (length (cells (mem s)), n) :: blocks s.
Proof.
  intros Hpos Hmax Hav Hk Hl Hnt.
  pose proof (objs_at_length _ _ _ _ Hl) as Hlen.
  unfold allocate_and_copy, allocate, bind.
  replace (n =? 0)%Z with false by (symmetry; apply Z.eqb_neq; lia).
  unfold Tr_allocate.
  replace (alloc_max_size <? n)%Z with false by (symmetry; apply Z.ltb_ge; lia).
  replace (avail (mem s) <? n)%Z with false by (symmetry; apply Z.ltb_ge; lia).
  simpl. set (base := length (cells (mem s))). set (s1 := State _ _).
  unfold uninitialized_copy, distance, bind.
  replace (first <=? first + k) with true by (symmetry; apply Nat.leb_le; lia).
  unfold ret. replace (first + k - first) with k by lia.
  destruct (uninit_copy_ok first base k 0 s1) as (s' & Hrun & Hthis & Hout & Hin).
  - intros j Hj. destruct (lookup_lt_is_Some_2 l j) as [x Hx]; [lia|].
    exists x. split; [|apply Hnt; eapply list_elem_of_lookup_2; exact Hx].
    simpl. rewrite lookup_app_l.
    + apply (objs_at_lookup _ _ _ _ _ _ Hl Hx).
    + apply (objs_at_in_heap _ _ _ _ j Hl). lia.
  - intros j Hj. simpl. rewrite lookup_app_r by (unfold base; lia).
    apply lookup_replicate_2. unfold base. lia.
  - intros j k' Hj Hk'.
    pose proof (objs_at_in_heap _ _ _ _ j Hl ltac:(lia)). unfold base. lia.
  - exists s'. rewrite Hrun. split; [reflexivity|]. split; [exact Hthis|].
    split.
    + intros a Ha. rewrite Hout by (unfold base; lia). simpl.
      apply lookup_app_l. exact Ha.
    + split; [|split].
      * rewrite <- Hlen. apply objs_at_intro. intros i x Hx.
        apply Hin; [apply lookup_lt_Some in Hx; lia|].
        simpl. rewrite lookup_app_l.
        -- apply (objs_at_lookup _ _ _ _ _ _ Hl Hx).
        -- apply (objs_at_in_heap _ _ _ _ i Hl).
           apply lookup_lt_Some in Hx. lia.
      * intros a Ha. rewrite Hout by (unfold base; lia). simpl.
        rewrite lookup_app_r by (unfold base; lia).
        apply lookup_replicate_2. unfold base. lia.
      * rewrite (quiet_run _ _ _ _ (quiet_uninit_loop _ _ _ _) Hrun).
        unfold blocks, s1. simpl. apply held_blocks_snoc.
Qed.

Lemma std_destroy_ok s (first k : nat) (l : list T) :
  objs_at (cells (mem s)) first k = Some l ->
  exists s',
    std_destroy first (first + k) s = Ret tt s' /\
    this s' = this s /\
    (forall a, a < first \/ first + k <= a ->
               cells (mem s') !! a = cells (mem s) !! a).
Proof.
  intros Hl. pose proof (objs_at_length _ _ _ _ Hl) as Hlen.
  unfold std_destroy, distance, bind.
  replace (first <=? first + k) with true by (symmetry; apply Nat.leb_le; lia).
  unfold ret. replace (first + k - first) with k by lia.
  apply destroy_n_ok. intros j Hj.
  destruct (lookup_lt_is_Some_2 l j) as [x Hx]; [lia|].
  exists x. apply (objs_at_lookup _ _ _ _ _ _ Hl Hx).
Qed.

(** [deallocate(p, n)] of the vector, for the null pointer or a block that
    the allocator holds for the caller, leaves every slot outside
    [p, p+n) alone. *)
Lemma deallocate_frame s (p n : nat) :
  p = 0 \/ In (p, Z.of_nat n) (blocks s) ->
  exists s',
    deallocate p (Z.of_nat n) s = Ret tt s' /\
    this s' = this s /\
    (forall a, a < p \/ p + n <= a ->
               cells (mem s') !! a = cells (mem s) !! a).
Proof.
  intros Hheld. unfold deallocate. destruct (p =? 0) eqn:Ep.
  - exists s. repeat split; auto.
  - apply Nat.eqb_neq in Ep. destruct Hheld as [->|Hheld]; [lia|].
    apply holds_block_In in Hheld. unfold blocks in Hheld.
    unfold Tr_deallocate. apply Nat.eqb_neq in Ep. rewrite Ep, Hheld.
    eexists. split; [reflexivity|]. simpl.
    split; [reflexivity|]. intros a Ha. rewrite Nat2Z.id.
    apply release_lookup_out. exact Ha.
Qed.

Lemma deallocate_ok s (p n : nat) :
  p = 0 \/ In (p, Z.of_nat n) (blocks s) ->
  exists s',
    deallocate p (Z.of_nat n) s = Ret tt s' /\
    this s' = this s /\
    (forall a, a < p \/ p + n <= a ->
               cells (mem s') !! a = cells (mem s) !! a) /\
    (p <> 0 -> forall a, p <= a < p + n -> a < length (cells (mem s)) ->
               cells (mem s') !! a = Some Free).
Proof.
  intros Hheld. unfold deallocate. destruct (p =? 0) eqn:E.
  - exists s. apply Nat.eqb_eq in E. repeat split; auto. intros; lia.
  - apply Nat.eqb_neq in E. destruct Hheld as [->|Hheld]; [lia|].
    apply holds_block_In in Hheld. unfold blocks in Hheld.
    unfold Tr_deallocate. apply Nat.eqb_neq in E. rewrite E, Hheld.
    eexists. split; [reflexivity|]. simpl.
    split; [reflexivity|]. rewrite Nat2Z.id. split.
    + intros a Ha. apply release_lookup_out. exact Ha.
    + intros _ a Ha Hlt. apply release_lookup_in; assumption.
Qed.

(** What a returning [deallocate(p, n)] does to the allocator's account. *)
Lemma deallocate_blocks s s' (p : nat) (n : Z) :
  deallocate p n s = Ret tt s' ->
  blocks s' = (if p =? 0 then blocks s else drop_block p (blocks s)) /\
  avail (mem s') = avail (mem s) /\
  length (cells (mem s')) = length (cells (mem s)).
Proof.
  unfold deallocate. destruct (p =? 0) eqn:Ep.
  - unfold ret. intros Heq. inversion Heq. subst. auto.
  - unfold Tr_deallocate. rewrite Ep.
    destruct (holds_block p n (held_blocks (log (mem s)))); [|discriminate].
    intros Heq. inversion Heq. unfold blocks. simpl.
    rewrite held_blocks_snoc, length_release. auto.
Qed.

(** A returning [deallocate(p, n)] takes no other block from the
    account. *)
Lemma deallocate_keeps_block s s' (p : nat) (n : Z) (b : nat * Z) :
  deallocate p n s = Ret tt s' ->
  In b (blocks s) -> fst b <> p -> In b (blocks s').
Proof.
  intros Hrun Hb Hne. destruct (deallocate_blocks _ _ _ _ Hrun) as (-> & _).
  destruct (p =? 0); [exact Hb|]. apply In_drop_block. auto.
Qed.

(** The block of a well-formed vector lies in the heap. *)
Lemma wf_block_in_heap s :
  wf s -> end_of_storage_ (this s) <= length (cells (mem s)) /\
          (start_ (this s) <> 0 -> start_ (this s) < length (cells (mem s))).
Proof.
  intros Hwf. pose proof Hwf as (_ & _ & _ & _ & _ & Hnull & Hown).
  destruct Hown as [Hst|[Hlt _]].
  - rewrite (Hnull Hst). split; lia.
  - pose proof (wf_storage_in_heap s (end_of_storage_ (this s) - 1) Hwf).
    lia.
Qed.

(** ** What a failing reallocation leaves behind *)

Lemma residue_trans u v w : residue u v -> residue v w -> residue u w.
Proof.
  intros Huv Hvw. induction Hvw as [|v w _ IH]; [exact Huv|].
  apply residue_moved, IH, Huv.
Qed.

Lemma no_dealloc_app l l' :
  no_dealloc l = true -> no_dealloc l' = true -> no_dealloc (l ++ l') = true.
Proof.
  unfold no_dealloc. intros Hl Hl'.
  rewrite forallb_app, Hl, Hl'. reflexivity.
Qed.

Section Kept.
(** [R] relates the value of an old element before the call with its value
    afterwards: equality for operations that only copy, [residue] for
    operations that move. *)
Variable R : T -> T -> Prop.
Abbreviation cell_rel := (cell_rel R).
Abbreviation kept := (kept R).
Abbreviation keeps := (keeps R).
Abbreviation throws_kept := (throws_kept R).
Abbreviation safe_arg := (safe_arg R).
Abbreviation nothrow := (nothrow (T := T)).
Hypothesis R_refl : forall v, R v v.
Hypothesis R_trans : forall u v w, R u v -> R v w -> R u w.

Lemma cell_rel_refl k0 : cell_rel k0 k0.
Proof. destruct k0; simpl; auto. Qed.

Lemma kept_refl s0 : kept s0 s0.
Proof.
  split; [reflexivity|]. split.
  - intros a k0 Hc. exists k0. split; [exact Hc|apply cell_rel_refl].
  - exists []. rewrite app_nil_r. split; reflexivity.
Qed.

Lemma kept_length s0 s :
  kept s0 s -> length (cells (mem s0)) <= length (cells (mem s)).
Proof.
  intros (_ & Hc & _).
  destruct (Nat.le_gt_cases (length (cells (mem s0))) (length (cells (mem s))))
    as [Hle|Hgt]; [exact Hle|].
  destruct (lookup_lt_is_Some_2 (cells (mem s0)) (length (cells (mem s))))
    as [k0 Hc0]; [lia|].
  destruct (Hc _ _ Hc0) as (k1 & Hc1 & _).
  apply lookup_lt_Some in Hc1. lia.
Qed.

(** A step that rewrites only slots beyond the old heap, and logs no
    deallocation, keeps the relation. *)
Lemma kept_update s0 s (c' : list (cell T)) av' lg' :
  kept s0 s ->
  (forall a, a < length (cells (mem s0)) -> c' !! a = cells (mem s) !! a) ->
  no_dealloc lg' = true ->
  kept s0 (State (this s) (Heap c' av' (log (mem s) ++ lg'))).
Proof.
  intros (Hthis & Hc & l & Hl & Hnd) Hsame Hlg.
  split; [exact Hthis|]. split; simpl.
  - intros a k0 Hc0. rewrite Hsame by (eapply lookup_lt_Some; exact Hc0).
    apply Hc. exact Hc0.
  - exists (l ++ lg'). rewrite Hl, app_assoc. split; [reflexivity|].
    apply no_dealloc_app; assumption.
Qed.

Lemma keeps_weaken {A} s0 (m : M T A) (Q Q' : A -> Prop) :
  keeps s0 m Q -> (forall a, Q a -> Q' a) -> keeps s0 m Q'.
Proof.
  intros Hm HQ s Hs. specialize (Hm s Hs).
  destruct (m s); auto. destruct Hm. auto.
Qed.

Lemma keeps_ret {A} s0 (a : A) (Q : A -> Prop) : Q a -> keeps s0 (ret a) Q.
Proof. intros Ha s Hs. simpl. auto. Qed.

Lemma keeps_throw {A} s0 e (Q : A -> Prop) : keeps s0 (throw e) Q.
Proof. intros s Hs. exact Hs. Qed.

Lemma keeps_undef {A} s0 (Q : A -> Prop) : keeps s0 undef Q.
Proof. intros s Hs. exact I. Qed.

Lemma keeps_bind {A B} s0 (m : M T A) (f : A -> M T B) Q Q' :
  keeps s0 m Q -> (forall a, Q a -> keeps s0 (f a) Q') ->
  keeps s0 (bind m f) Q'.
Proof.
  intros Hm Hf s Hs. unfold bind. specialize (Hm s Hs).
  destruct (m s) as [a s1|e s1|]; auto.
  destruct Hm as [Hs1 Ha]. apply (Hf a Ha s1 Hs1).
Qed.

Lemma keeps_try_catch {A} s0 (m : M T A) (h : exn -> M T A) Q :
  keeps s0 m Q -> (forall e, keeps s0 (h e) Q) ->
  keeps s0 (try_catch m h) Q.
Proof.
  intros Hm Hh s Hs. unfold try_catch. specialize (Hm s Hs).
  destruct (m s) as [a s1|e s1|]; auto. apply (Hh e s1 Hm).
Qed.

Lemma keeps_throws_kept {A} s0 (m : M T A) Q :
  keeps s0 m Q -> throws_kept s0 m.
Proof.
  intros Hm s e s' Hs Hrun. specialize (Hm s Hs). rewrite Hrun in Hm.
  exact Hm.
Qed.

Lemma nothrow_throws_kept {A} s0 (m : M T A) : nothrow m -> throws_kept s0 m.
Proof.
  intros Hm s e s' _ Hrun. specialize (Hm s). rewrite Hrun in Hm.
  destruct Hm.
Qed.

Lemma throws_kept_bind {A B} s0 (m : M T A) (f : A -> M T B) Q :
  keeps s0 m Q -> (forall a, Q a -> throws_kept s0 (f a)) ->
  throws_kept s0 (bind m f).
Proof.
  intros Hm Hf s e s' Hs. unfold bind. specialize (Hm s Hs).
  destruct (m s) as [a s1|e1 s1|]; try discriminate.
  - destruct Hm as [Hs1 Ha]. apply (Hf a Ha s1 e s' Hs1).
  - intros [= <- <-]. exact Hm.
Qed.

Lemma nothrow_bind {A B} (m : M T A) (f : A -> M T B) :
  nothrow m -> (forall a, nothrow (f a)) -> nothrow (bind m f).
Proof.
  intros Hm Hf s. unfold bind. specialize (Hm s).
  destruct (m s) as [a s1|e1 s1|]; auto. apply Hf.
Qed.

Lemma keeps_get_this s0 : keeps s0 get_this (fun v => v = this s0).
Proof. intros s Hs. simpl. split; [exact Hs|apply Hs]. Qed.

Lemma keeps_distance s0 a b : keeps s0 (distance a b) (fun n => n = b - a).
Proof.
  unfold distance. destruct (a <=? b).
  - apply keeps_ret. reflexivity.
  - apply keeps_undef.
Qed.

Lemma keeps_read s0 a : keeps s0 (read a) (fun _ => True).
Proof.
  intros s Hs. unfold read.
  destruct (cells (mem s) !! a) as [[| |x|]|]; auto.
Qed.

Lemma keeps_poke_moved s0 a x s :
  (forall y, R y (moved_from y)) ->
  kept s0 s ->
  cells (mem s) !! a = Some (Obj x) ->
  kept s0 (State (this s)
             (Heap (<[a := Obj (moved_from x)]> (cells (mem s)))
                   (avail (mem s)) (log (mem s)))).
Proof.
  intros Hmv (Hthis & Hc & Hlog) Ha.
  split; [exact Hthis|]. split; [|exact Hlog]. simpl.
  intros b k0 Hk0. destruct (Hc _ _ Hk0) as (k1 & Hk1 & Hrel).
  destruct (decide (b = a)) as [->|Hne].
  - exists (Obj (moved_from x)). split.
    + apply list_lookup_insert_eq. eapply lookup_lt_Some. exact Ha.
    + rewrite Ha in Hk1. injection Hk1 as <-.
      destruct k0; simpl in *; try contradiction.
      eapply R_trans; [exact Hrel|apply Hmv].
  - exists k1. split; [|exact Hrel].
    rewrite list_lookup_insert_ne by congruence. exact Hk1.
Qed.

Lemma keeps_eval_arg s0 a :
  safe_arg a -> keeps s0 (eval_arg a) (fun _ => True).
Proof.
  intros Hsafe s Hs. destruct a as [r|r|o]; simpl.
  - unfold bind. destruct r as [x|p]; simpl.
    + destruct (copy_throws x); simpl; auto.
    + unfold read. destruct (cells (mem s) !! p) as [[| |x|]|]; auto.
      destruct (copy_throws x); simpl; auto.
  - unfold bind. destruct r as [x|p]; simpl.
    + destruct (move_throws x); simpl; auto.
    + unfold read. destruct (cells (mem s) !! p) as [[| |x|]|] eqn:Hp; auto.
      destruct (move_throws x); simpl; auto.
      unfold poke. rewrite Hp. simpl. split; [|exact I].
      apply keeps_poke_moved; assumption.
  - destruct o; simpl; auto.
Qed.

Lemma keeps_place s0 p x :
  length (cells (mem s0)) <= p -> keeps s0 (place p x) (fun _ => True).
Proof.
  intros Hp s Hs. unfold place.
  destruct (cells (mem s) !! p) as [[| |y|]|]; auto; simpl;
    (split; [|exact I]); apply (kept_update s0 s); auto;
    intros a Ha; apply list_lookup_insert_ne; lia.
Qed.

Lemma keeps_destroy_at s0 p :
  length (cells (mem s0)) <= p -> keeps s0 (destroy_at p) (fun _ => True).
Proof.
  intros Hp s Hs. unfold destroy_at.
  destruct (cells (mem s) !! p) as [[| |y|]|]; auto; simpl;
    (split; [|exact I]); apply (kept_update s0 s); auto;
    intros a Ha; apply list_lookup_insert_ne; lia.
Qed.

Lemma keeps_construct s0 p a :
  safe_arg a -> length (cells (mem s0)) <= p ->
  keeps s0 (construct p a) (fun _ => True).
Proof.
  intros Ha Hp. unfold construct.
  eapply keeps_bind; [apply keeps_eval_arg, Ha|].
  intros x _. apply keeps_place, Hp.
Qed.

Lemma keeps_place_indet s0 p :
  length (cells (mem s0)) <= p -> keeps s0 (place_indet p) (fun _ => True).
Proof.
  intros Hp s Hs. unfold place_indet.
  destruct (cells (mem s) !! p) as [[| |y|]|]; auto; simpl;
    (split; [|exact I]); apply (kept_update s0 s); auto;
    intros a Ha; apply list_lookup_insert_ne; lia.
Qed.

Lemma keeps_default_construct s0 p :
  length (cells (mem s0)) <= p ->
  keeps s0 (default_construct p) (fun _ => True).
Proof.
  intros Hp. unfold default_construct. destruct default_init as [o|].
  - apply keeps_construct; [exact I|exact Hp].
  - apply keeps_place_indet, Hp.
Qed.

Lemma keeps_destroy_n s0 n : forall p,
  length (cells (mem s0)) <= p -> keeps s0 (destroy_n n p) (fun _ => True).
Proof.
  induction n as [|n IH]; intros p Hp; simpl.
  - apply keeps_ret. exact I.
  - eapply keeps_bind; [apply keeps_destroy_at, Hp|].
    intros _ _. apply IH. lia.
Qed.

Lemma keeps_uninit_loop s0 src d n : forall i,
  (forall j, safe_arg (src j)) ->
  length (cells (mem s0)) <= d ->
  keeps s0 (uninit_loop src d n i) (fun r => length (cells (mem s0)) <= r).
Proof.
  induction n as [|n IH]; intros i Hsrc Hd; simpl.
  - apply keeps_ret. lia.
  - eapply keeps_bind.
    + apply keeps_try_catch.
      * apply keeps_construct; [apply Hsrc|lia].
      * intros e. eapply keeps_bind; [apply keeps_destroy_n, Hd|].
        intros _ _. apply keeps_throw.
    + intros _ _. apply IH; assumption.
Qed.

Lemma keeps_default_loop s0 d n : forall i,
  length (cells (mem s0)) <= d ->
  keeps s0 (default_loop d n i) (fun r => length (cells (mem s0)) <= r).
Proof.
  induction n as [|n IH]; intros i Hd; simpl.
  - apply keeps_ret. lia.
  - eapply keeps_bind.
    + apply keeps_try_catch.
      * apply keeps_default_construct. lia.
      * intros e. eapply keeps_bind; [apply keeps_destroy_n, Hd|].
        intros _ _. apply keeps_throw.
    + intros _ _. apply IH; assumption.
Qed.

Lemma keeps_uninitialized_move s0 first last d :
  (forall x, R x (moved_from x)) ->
  length (cells (mem s0)) <= d ->
  keeps s0 (uninitialized_move first last d)
        (fun r => length (cells (mem s0)) <= r).
Proof.
  intros Hmv Hd. unfold uninitialized_move.
  eapply keeps_bind; [apply keeps_distance|].
  intros n _. apply keeps_uninit_loop; [|exact Hd]. intros j. exact Hmv.
Qed.

Lemma keeps_uninitialized_copy s0 first last d :
  length (cells (mem s0)) <= d ->
  keeps s0 (uninitialized_copy first last d)
        (fun r => length (cells (mem s0)) <= r).
Proof.
  intros Hd. unfold uninitialized_copy.
  eapply keeps_bind; [apply keeps_distance|].
  intros n _. apply keeps_uninit_loop; [|exact Hd]. intros j. exact I.
Qed.

Lemma keeps_allocate s0 (n : Z) :
  (0 < n)%Z ->
  keeps s0 (allocate n) (fun p => length (cells (mem s0)) <= p).
Proof.
  intros Hn s Hs. unfold allocate.
  replace (n =? 0)%Z with false by (symmetry; apply Z.eqb_neq; lia).
  unfold Tr_allocate.
  destruct ((alloc_max_size <? n)%Z || (avail (mem s) <? n)%Z); [exact Hs|].
  split; [|apply kept_length, Hs].
  apply (kept_update s0 s); auto.
  intros a Ha. apply lookup_app_l.
  pose proof (kept_length _ _ Hs). lia.
Qed.

Lemma nothrow_ret {A} (a : A) : nothrow (ret a).
Proof. intros s. exact I. Qed.

Lemma nothrow_distance a b : nothrow (distance a b).
Proof. intros s. unfold distance. destruct (a <=? b); exact I. Qed.

Lemma nothrow_destroy_n n : forall p, nothrow (destroy_n n p).
Proof.
  induction n as [|n IH]; intros p; simpl; [apply nothrow_ret|].
  apply nothrow_bind; [|intros _; apply IH].
  intros s. unfold destroy_at.
  destruct (cells (mem s) !! p) as [[| |y|]|]; exact I.
Qed.

Lemma nothrow_std_destroy a b : nothrow (std_destroy a b).
Proof.
  unfold std_destroy. apply nothrow_bind; [apply nothrow_distance|].
  intros n. apply nothrow_destroy_n.
Qed.

Lemma nothrow_deallocate p n : nothrow (deallocate p n).
Proof.
  intros s. unfold deallocate, Tr_deallocate.
  destruct (p =? 0); [exact I|].
  destruct (holds_block p n (held_blocks (log (mem s)))); exact I.
Qed.

Lemma nothrow_put_this v : nothrow (put_this v).
Proof. intros s. exact I. Qed.

(** The last phase of every reallocating path (destroy the old elements,
    release the old block, install the new bounds) cannot throw. *)
Lemma nothrow_install old_start old_finish (n : Z) v :
  nothrow (std_destroy old_start old_finish;;
           deallocate old_start n;;
           put_this v).
Proof.
  apply nothrow_bind; [apply nothrow_std_destroy|]. intros _.
  apply nothrow_bind; [apply nothrow_deallocate|]. intros _.
  apply nothrow_put_this.
Qed.

Lemma wrap_small z : (0 <= z < SIZE_MOD)%Z -> wrap z = z.
Proof. intros Hz. unfold wrap. apply Z.mod_small. exact Hz. Qed.

Lemma wrap_nonneg z : (0 <= wrap z)%Z.
Proof. unfold wrap, SIZE_MOD. apply Z.mod_pos_bound. lia. Qed.

(** A growth request for a positive [size_type] count on a vector within
    [max_size()] never yields capacity zero. *)
Lemma keeps_check_len s0 (count : Z) :
  (size (this s0) <= max_size)%Z ->
  (0 < count < SIZE_MOD)%Z ->
  keeps s0 (check_len count) (fun r => (0 < r)%Z).
Proof.
  intros Hsz Hcount s Hs. unfold check_len, bind, get_this.
  destruct Hs as [Hthis Hrest]. rewrite Hthis.
  assert (Hs : kept s0 s) by (split; assumption).
  set (sz := size (this s0)) in *.
  assert (0 <= sz)%Z as Hsz0 by (unfold sz, size; lia).
  destruct (max_size <? wrap (count + sz))%Z eqn:Ethrow; [exact Hs|].
  apply Z.ltb_ge in Ethrow. split; [exact Hs|].
  pose proof (wrap_nonneg (count + sz)) as Hw.
  destruct (decide (sz = 0%Z)) as [Hz|Hnz].
  - rewrite Hz in *. rewrite Z.add_0_r in Ethrow.
    rewrite wrap_small in Ethrow by lia.
    replace (0 + Z.max count 0)%Z with count by lia.
    rewrite wrap_small by lia.
    destruct ((count <? 0)%Z || (max_size <? count)%Z); lia.
  - destruct ((wrap (sz + Z.max count sz) <? sz)%Z
              || (max_size <? wrap (sz + Z.max count sz))%Z) eqn:E; [lia|].
    apply orb_false_iff in E as [E1 E2]. apply Z.ltb_ge in E1. lia.
Qed.

Lemma throws_kept_tail {A B} s0 (m : M T A) (f : A -> M T B) :
  throws_kept s0 m -> (forall a, nothrow (f a)) ->
  throws_kept s0 (bind m f).
Proof.
  intros Hm Hf s e s' Hs. unfold bind.
  destruct (m s) as [a s1|e1 s1|] eqn:Em; try discriminate.
  - intros Hrun. specialize (Hf a s1). rewrite Hrun in Hf. destruct Hf.
  - intros [= <- <-]. eapply Hm; eassumption.
Qed.

Lemma nothrow_get_this_ret {A} (f : vec -> A) :
  nothrow (v <- get_this;; ret (f v)).
Proof. intros s. exact I. Qed.

(** *** The reallocating paths *)

Hypothesis R_moved : forall x, R x (moved_from x).

Lemma safe_arg_any a : safe_arg a.
Proof. destruct a; simpl; auto. Qed.

Lemma realloc_insert_throws_kept s0 position a :
  (size (this s0) <= max_size)%Z ->
  throws_kept s0 (realloc_insert position a).
Proof.
  intros Hsz. unfold realloc_insert.
  eapply throws_kept_bind; [apply keeps_check_len; [exact Hsz|]|].
  { split; reflexivity. }
  intros r Hr; cbv beta in Hr.
  eapply throws_kept_bind; [apply keeps_get_this|]. intros v ->.
  eapply throws_kept_bind; [apply keeps_allocate, Hr|]. intros p Hp; cbv beta in Hp.
  eapply throws_kept_bind;
    [apply keeps_construct; [apply safe_arg_any|lia]|]. intros _ _.
  eapply throws_kept_bind;
    [apply keeps_uninitialized_move; [exact R_moved|exact Hp]|].
  intros nf Hnf; cbv beta in Hnf.
  eapply throws_kept_bind;
    [apply keeps_uninitialized_move; [exact R_moved|lia]|].
  intros nf' _. apply nothrow_throws_kept, nothrow_install.
Qed.

Lemma fill_insert_throws_kept s0 position count value :
  (size (this s0) <= max_size)%Z ->
  (0 < count < SIZE_MOD)%Z ->
  (Z.of_nat (end_of_storage_ (this s0) - finish_ (this s0)) <= count)%Z ->
  throws_kept s0 (fill_insert position count value).
Proof.
  intros Hsz Hcount Hfull. unfold fill_insert.
  replace (count =? 0)%Z with false by (symmetry; apply Z.eqb_neq; lia).
  eapply throws_kept_bind; [apply keeps_get_this|]. intros v ->.
  replace (count <? _)%Z with false by (symmetry; apply Z.ltb_ge; lia).
  eapply throws_kept_bind; [apply keeps_check_len; assumption|].
  intros r Hr; cbv beta in Hr.
  eapply throws_kept_bind; [apply keeps_allocate, Hr|]. intros p Hp; cbv beta in Hp.
  eapply throws_kept_bind.
  { unfold uninitialized_fill_n. apply keeps_uninit_loop; [|lia].
    intros j. exact I. }
  intros _ _.
  eapply throws_kept_bind;
    [apply keeps_uninitialized_move; [exact R_moved|exact Hp]|].
  intros nf Hnf; cbv beta in Hnf.
  eapply throws_kept_bind;
    [apply keeps_uninitialized_move; [exact R_moved|lia]|].
  intros nf' _. apply nothrow_throws_kept, nothrow_install.
Qed.

Lemma range_insert_throws_kept s0 pos first last :
  (size (this s0) <= max_size)%Z ->
  first < last -> (Z.of_nat (last - first) < SIZE_MOD)%Z ->
  end_of_storage_ (this s0) - finish_ (this s0) <= last - first ->
  throws_kept s0 (range_insert pos first last).
Proof.
  intros Hsz Hne Hn Hfull. unfold range_insert.
  replace (first =? last) with false by (symmetry; apply Nat.eqb_neq; lia).
  eapply throws_kept_bind; [apply keeps_distance|]. intros n ->.
  eapply throws_kept_bind; [apply keeps_get_this|]. intros v ->.
  replace (last - first <? _) with false by (symmetry; apply Nat.ltb_ge; lia).
  eapply throws_kept_bind; [apply keeps_check_len; [exact Hsz|lia]|].
  intros r Hr; cbv beta in Hr.
  eapply throws_kept_bind; [apply keeps_allocate, Hr|]. intros p Hp; cbv beta in Hp.
  eapply throws_kept_bind; [apply keeps_uninitialized_copy; lia|].
  intros _ _.
  eapply throws_kept_bind;
    [apply keeps_uninitialized_move; [exact R_moved|exact Hp]|].
  intros nf Hnf; cbv beta in Hnf.
  eapply throws_kept_bind;
    [apply keeps_uninitialized_move; [exact R_moved|lia]|].
  intros nf' _. apply nothrow_throws_kept, nothrow_install.
Qed.

Lemma default_append_throws_kept s0 (n : Z) :
  (size (this s0) <= max_size)%Z ->
  (0 < n < SIZE_MOD)%Z ->
  (Z.of_nat (end_of_storage_ (this s0) - finish_ (this s0)) < n)%Z ->
  throws_kept s0 (default_append n).
Proof.
  intros Hsz Hn Hfull. unfold default_append.
  replace (n =? 0)%Z with false by (symmetry; apply Z.eqb_neq; lia).
  eapply throws_kept_bind; [apply keeps_get_this|]. intros v ->.
  replace (n <=? _)%Z with false by (symmetry; apply Z.leb_gt; lia).
  eapply throws_kept_bind; [apply keeps_check_len; assumption|].
  intros r Hr; cbv beta in Hr.
  eapply throws_kept_bind; [apply keeps_allocate, Hr|]. intros p Hp; cbv beta in Hp.
  eapply throws_kept_bind;
    [apply keeps_uninitialized_move; [exact R_moved|exact Hp]|].
  intros nf Hnf; cbv beta in Hnf.
  eapply throws_kept_bind.
  { unfold uninitialized_default_construct_n.
    apply keeps_default_loop. exact Hnf. }
  intros _ _. apply nothrow_throws_kept, nothrow_install.
Qed.

Lemma wf_size_le_max s0 : wf s0 -> (size (this s0) <= max_size)%Z.
Proof.
  intros (Hsf & Hfe & _ & _ & Hcap & _).
  unfold size, nsize. unfold capacity, ncapacity in Hcap. lia.
Qed.

Lemma growth_throws_kept s0 (g : growth T) :
  copies_only g = false ->
  wf s0 -> reallocates g (this s0) ->
  throws_kept s0 (run_growth g).
Proof.
  intros Hg Hwf Hre. pose proof (wf_size_le_max _ Hwf) as Hsz.
  destruct g as [value|value|a|pos a|pos a|pos count value|pos first last
                |new_size|new_size value|new_cap];
    simpl in Hre; simpl; try discriminate.
  - unfold push_back.
    eapply throws_kept_bind; [apply keeps_get_this|]. intros v ->.
    rewrite Hre, Nat.eqb_refl. simpl.
    apply realloc_insert_throws_kept, Hsz.
  - unfold push_back_move, emplace_back.
    eapply throws_kept_bind; [apply keeps_get_this|]. intros v ->.
    rewrite Hre, Nat.eqb_refl. simpl.
    apply realloc_insert_throws_kept, Hsz.
  - unfold emplace_back.
    eapply throws_kept_bind; [apply keeps_get_this|]. intros v ->.
    rewrite Hre, Nat.eqb_refl. simpl.
    apply realloc_insert_throws_kept, Hsz.
  - apply throws_kept_tail; [|intros r; apply nothrow_ret].
    unfold insert.
    eapply throws_kept_bind; [apply keeps_get_this|]. intros v ->.
    rewrite Hre, Nat.eqb_refl. simpl.
    apply throws_kept_tail; [apply realloc_insert_throws_kept, Hsz|].
    intros _. apply nothrow_get_this_ret.
  - unfold emplace.
    eapply throws_kept_bind; [apply keeps_get_this|]. intros v ->.
    rewrite Hre, Nat.eqb_refl. simpl.
    apply realloc_insert_throws_kept, Hsz.
  - destruct Hre as [Hcount Hfull].
    apply throws_kept_tail; [|intros r; apply nothrow_ret].
    unfold insert_fill.
    eapply throws_kept_bind; [apply keeps_get_this|]. intros v ->.
    apply throws_kept_tail;
      [apply fill_insert_throws_kept; assumption|].
    intros _. apply nothrow_get_this_ret.
  - destruct Hre as (Hne & Hn & Hfull).
    apply throws_kept_tail; [|intros r; apply nothrow_ret].
    unfold insert_range.
    eapply throws_kept_bind; [apply keeps_get_this|]. intros v ->.
    apply throws_kept_tail;
      [apply range_insert_throws_kept; assumption|].
    intros _. apply nothrow_get_this_ret.
  - destruct Hre as [Hnew Hfull]. unfold resize.
    eapply throws_kept_bind; [apply keeps_get_this|]. intros v ->.
    replace (size (this s0) <? new_size)%Z with true
      by (symmetry; apply Z.ltb_lt; lia).
    assert (0 <= size (this s0))%Z by (unfold size; lia).
    apply default_append_throws_kept; [exact Hsz|lia|exact Hfull].
  - destruct Hre as [Hnew Hfull]. unfold resize_fill.
    eapply throws_kept_bind; [apply keeps_get_this|]. intros v ->.
    replace (size (this s0) <? new_size)%Z with true
      by (symmetry; apply Z.ltb_lt; lia).
    assert (0 <= size (this s0))%Z by (unfold size; lia).
    apply throws_kept_tail; [|intros r; apply nothrow_ret].
    unfold insert_fill.
    eapply throws_kept_bind; [apply keeps_get_this|]. intros v ->.
    apply throws_kept_tail;
      [apply fill_insert_throws_kept; [exact Hsz|lia|exact Hfull]|].
    intros _. apply nothrow_get_this_ret.
Qed.

(** [reserve] only copies: it needs no assumption on what a move leaves
    behind. *)
Lemma reserve_throws_kept s0 (new_cap : Z) :
  (capacity (this s0) < new_cap)%Z ->
  throws_kept s0 (reserve new_cap).
Proof.
  intros Hcap. unfold reserve.
  destruct (max_size <? new_cap)%Z.
  { eapply keeps_throws_kept.
    apply (keeps_throw s0 length_error (fun _ : unit => True)). }
  eapply throws_kept_bind; [apply keeps_get_this|]. intros v ->.
  replace (capacity (this s0) <? new_cap)%Z with true
    by (symmetry; apply Z.ltb_lt; lia).
  assert (0 <= capacity (this s0))%Z by (unfold capacity; lia).
  eapply throws_kept_bind.
  - unfold allocate_and_copy.
    eapply keeps_bind; [apply keeps_allocate; lia|].
    intros p Hp; cbv beta in Hp.
    eapply keeps_bind; [apply keeps_uninitialized_copy; assumption|].
    intros _ _. apply (keeps_ret s0 p (fun _ => True)). exact I.
  - intros p _. apply nothrow_throws_kept, nothrow_install.
Qed.

(** Related slots give related element sequences. *)
Lemma objs_at_rel (c0 c1 : list (cell T)) n : forall p l,
  (forall a k0, c0 !! a = Some k0 ->
     exists k1, c1 !! a = Some k1 /\ cell_rel k0 k1) ->
  objs_at c0 p n = Some l ->
  exists l', objs_at c1 p n = Some l' /\ Forall2 R l l'.
Proof.
  induction n as [|n IH]; intros p l Hrel; simpl.
  - intros [= <-]. exists []. split; [reflexivity|constructor].
  - destruct (c0 !! p) as [[| |x|]|] eqn:Ep; try discriminate.
    destruct (objs_at c0 (S p) n) as [t|] eqn:Et; try discriminate.
    intros [= <-].
    destruct (Hrel _ _ Ep) as (k1 & Hk1 & Hxy).
    destruct k1 as [| |y|]; simpl in Hxy; try contradiction.
    destruct (IH _ _ Hrel Et) as (t' & Ht' & Hall).
    exists (y :: t'). rewrite Hk1, Ht'. split; [reflexivity|].
    constructor; assumption.
Qed.

Lemma kept_contents s0 s l :
  kept s0 s -> contents s0 = Some l ->
  exists l', contents s = Some l' /\ Forall2 R l l'.
Proof.
  intros (Hthis & Hc & _) Hl. unfold contents in *. rewrite Hthis.
  eapply objs_at_rel; eassumption.
Qed.

End Kept.

(** ** reserve *)

Lemma max_size_le_alloc : (max_size <= alloc_max_size)%Z.
Proof. unfold max_size. lia. Qed.

(** C7: on a well-formed vector, [reserve(n)] with [n <= capacity()] is the
    identity; with [capacity() < n <= max_size()] (when the allocator can
    provide [n] slots and no element's copy constructor throws) it
    reallocates: it returns with [capacity() == n], hence
    [capacity() >= n], and with [size()] and the element sequence
    unchanged; the elements now live in a block of [n] slots that the
    allocator has handed out in this call (it starts where the heap ended),
    the allocator's account holds that block and no longer holds the old
    one, every slot of the old block has been given back, every slot
    outside the old block is what it was, and the vector is well formed
    again (in a heap whose address 0, the null pointer, is not storage).
    With [n > max_size()] it throws [length_error] and the state is what it
    was.  Whenever it throws, the vector's bounds and its element sequence
    are what they were. *)
Theorem reserve_spec s (n : Z) (l : list T) :
  wf s ->
  contents s = Some l ->
  ((n <= capacity (this s))%Z -> reserve n s = Ret tt s) /\
  ((capacity (this s) < n <= max_size)%Z ->
   (n <= avail (mem s))%Z ->
   (forall x, x ∈ l -> copy_throws x = false) ->
   exists s',
     reserve n s = Ret tt s' /\
     (n <= capacity (this s'))%Z /\
     capacity (this s') = n /\
     size (this s') = size (this s) /\
     contents s' = Some l /\
     start_ (this s') = length (cells (mem s)) /\
     blocks s' = (length (cells (mem s)), n) ::
                 (if start_ (this s) =? 0 then blocks s
                  else drop_block (start_ (this s)) (blocks s)) /\
     (forall a, start_ (this s) <= a < end_of_storage_ (this s) ->
                cells (mem s') !! a = Some Free) /\
     (forall a, a < start_ (this s) \/ end_of_storage_ (this s) <= a ->
                a < length (cells (mem s)) ->
                cells (mem s') !! a = cells (mem s) !! a) /\
     (0 < length (cells (mem s)) -> wf s')) /\
  ((max_size < n)%Z -> reserve n s = Throw length_error s) /\
  (forall e s', reserve n s = Throw e s' ->
                this s' = this s /\ contents s' = Some l).
Proof.
  intros Hwf Hl. pose proof Hwf as (Hsf & Hfe & _ & _ & Hcap & Hnull & Hown).
  split; [|split; [|split]].
  - intros Hn. unfold reserve.
    replace (max_size <? n)%Z with false by (symmetry; apply Z.ltb_ge; lia).
    unfold bind, get_this.
    replace (capacity (this s) <? n)%Z with false
      by (symmetry; apply Z.ltb_ge; lia).
    reflexivity.
  - intros [Hlo Hhi] Hav Hnt.
    destruct s as [[st fi eo] hp]. simpl in *.
    unfold contents, nsize in Hl. simpl in Hl.
    unfold capacity, ncapacity in Hlo, Hcap. simpl in Hlo, Hcap.
    set (s0 := State (Vec st fi eo) hp) in *.
    set (k := fi - st) in *. set (base := length (cells hp)).
    assert (Hfi : fi = st + k) by (unfold k; lia).
    assert (Hin : eo <= base).
    { destruct Hown as [Hst|[Hlt _]]; simpl in *.
      - rewrite (Hnull Hst). lia.
      - pose proof (wf_storage_in_heap s0 (eo - 1) Hwf) as Hb. simpl in Hb.
        unfold base. lia. }
    destruct (allocate_and_copy_ok s0 n st k l)
      as (s1 & H1 & Hthis1 & Hold1 & Hnew1 & Hraw1 & Hblocks1);
      try assumption; try lia.
    { pose proof max_size_le_alloc. lia. }
    change (length (cells (mem s0))) with base in Hraw1, Hblocks1.
    assert (Hl1 : objs_at (cells (mem s1)) st k = Some l).
    { rewrite <- Hl. apply objs_at_ext. intros i Hi. apply Hold1.
      apply (objs_at_in_heap _ _ _ _ i Hl Hi). }
    destruct (std_destroy_ok s1 st k l Hl1) as (s2 & H2 & Hthis2 & Hout2).
    pose proof (quiet_run _ _ _ _ (quiet_std_destroy _ _) H2) as Hblocks2.
    rewrite Hblocks1 in Hblocks2.
    destruct (deallocate_ok s2 st (eo - st))
      as (s3 & H3 & Hthis3 & Hout3 & Hfree3).
    { destruct Hown as [Hst|[_ Hheld]]; [left; exact Hst|right].
      rewrite Hblocks2. right. exact Hheld. }
    destruct (deallocate_blocks _ _ _ _ H3) as (Hblocks3 & _ & _).
    rewrite Hblocks2 in Hblocks3.
    assert (Hbase2 : base < length (cells (mem s2))).
    { apply lookup_lt_is_Some. rewrite Hout2 by lia.
      destruct (decide (k = 0)) as [Hk0|Hk0].
      - rewrite Hraw1 by lia. eexists. reflexivity.
      - pose proof (objs_at_length _ _ _ _ Hl) as Hlen.
        destruct (lookup_lt_is_Some_2 l 0) as [x Hx]; [lia|].
        pose proof (objs_at_lookup _ _ _ _ _ _ Hnew1 Hx) as Hc.
        change (length (cells (mem s0))) with base in Hc.
        rewrite Nat.add_0_r in Hc. rewrite Hc. eexists. reflexivity. }
    assert (Hc3 : objs_at (cells (mem s3)) base k = Some l).
    { rewrite <- Hnew1. fold base. apply objs_at_ext. intros i Hi.
      pose proof (objs_at_in_heap _ _ _ _ i Hl Hi) as Hb. fold base in Hb.
      change (length (cells (mem s0))) with base.
      rewrite Hout3 by lia. apply Hout2. lia. }
    assert (Hb3 : held_blocks (log (mem s3)) =
                  (base, n) :: (if st =? 0 then blocks s0
                                else drop_block st (blocks s0))).
    { unfold blocks in Hblocks3. rewrite Hblocks3.
      destruct (st =? 0) eqn:Est; [reflexivity|]. simpl.
      apply Nat.eqb_neq in Est.
      destruct Hown as [Hst|[Hlt _]]; simpl in *; [lia|].
      replace (base =? st) with false
        by (symmetry; apply Nat.eqb_neq; lia).
      reflexivity. }
    exists (State (Vec base (base + k) (base + Z.to_nat n)) (mem s3)).
    split; [|split; [|split; [|split; [|split; [|split; [|split;
      [|split; [|split]]]]]]]].
    + unfold reserve.
      replace (max_size <? n)%Z with false by (symmetry; apply Z.ltb_ge; lia).
      unfold bind at 1, get_this. fold s0. simpl this.
      unfold capacity, ncapacity. simpl.
      replace (Z.of_nat (eo - st) <? n)%Z with true
        by (symmetry; apply Z.ltb_lt; lia).
      unfold bind. rewrite Hfi, H1, H2, H3. unfold put_this, nsize. simpl.
      fold base. replace (st + k - st) with k by (clear; lia). reflexivity.
    + unfold capacity, ncapacity. simpl. lia.
    + unfold capacity, ncapacity. simpl. lia.
    + unfold size, nsize. simpl. lia.
    + unfold contents, nsize. simpl.
      replace (base + k - base) with k by lia. exact Hc3.
    + reflexivity.
    + exact Hb3.
    + simpl. intros a Ha. apply Hfree3; lia.
    + simpl. intros a Ha Hlt. fold base in Hlt.
      rewrite Hout3 by lia. rewrite Hout2 by lia. apply Hold1. exact Hlt.
    + simpl. fold base. intros Hpos.
      apply (wf_intro _ _ _ _ l); try lia.
      * replace (base + k - base) with k by lia. exact Hc3.
      * intros i Hi. rewrite Hout3 by lia. rewrite Hout2 by lia.
        apply Hraw1. lia.
      * right. simpl. split; [lia|].
        unfold blocks, capacity, ncapacity. simpl. rewrite Hb3.
        left. f_equal. lia.
  - intros Hn. unfold reserve.
    replace (max_size <? n)%Z with true by (symmetry; apply Z.ltb_lt; lia).
    reflexivity.
  - intros e s' Hrun.
    destruct (Z.le_gt_cases n (capacity (this s))) as [Hle|Hgt].
    + exfalso. revert Hrun. unfold reserve.
      replace (max_size <? n)%Z with false by (symmetry; apply Z.ltb_ge; lia).
      unfold bind, get_this.
      replace (capacity (this s) <? n)%Z with false
        by (symmetry; apply Z.ltb_ge; lia).
      discriminate.
    + assert (Hk : kept eq s s').
      { eapply (reserve_throws_kept eq); [congruence|exact Hgt| |exact Hrun].
        apply kept_refl. reflexivity. }
      split; [apply Hk|].
      destruct (kept_contents eq s s' l Hk Hl) as (l' & Hl' & Hall).
      apply list_eq_Forall2 in Hall. congruence.
Qed.

(** ** The growth rule *)

Lemma max_size_le_ptrdiff : (1 <= sizeof_T)%Z -> (max_size <= PTRDIFF_MAX)%Z.
Proof.
  intros Hsz. unfold max_size.
  assert (PTRDIFF_MAX / sizeof_T <= PTRDIFF_MAX)%Z; [|lia].
  apply Z.div_le_upper_bound; [lia|].
  assert (0 <= PTRDIFF_MAX)%Z by (unfold PTRDIFF_MAX; lia). nia.
Qed.

(** Where the sums of the growth rule do not wrap around, that is for
    every request with [count + size() < 2^64], [check_len] follows the
    rule of section 4.1: it returns [max(count + size, 2 * size)] clamped
    to [max_size()] when [count + size <= max_size()], and throws
    [length_error], leaving the state as it is, when
    [count + size > max_size()]. *)
Lemma check_len_without_wrap s (count : Z) :
  (1 <= sizeof_T)%Z ->
  (0 <= count)%Z ->
  (size (this s) <= max_size)%Z ->
  ((count + size (this s) <= max_size)%Z ->
   check_len count s =
     Ret (Z.min (Z.max (count + size (this s)) (2 * size (this s))) max_size)
         s) /\
  ((max_size < count + size (this s) < SIZE_MOD)%Z ->
   check_len count s = Throw length_error s).
Proof.
  intros Hsizeof Hcount Hsz.
  pose proof (max_size_le_ptrdiff Hsizeof) as Hmax.
  assert (0 <= size (this s))%Z as Hsz0 by (unfold size; lia).
  assert (2 * PTRDIFF_MAX < SIZE_MOD)%Z as Hbig by reflexivity.
  unfold check_len, bind, get_this. set (sz := size (this s)) in *.
  split.
  - intros Hfit. rewrite wrap_small by lia.
    replace (max_size <? count + sz)%Z with false
      by (symmetry; apply Z.ltb_ge; lia).
    rewrite wrap_small by lia.
    replace (sz + Z.max count sz <? sz)%Z with false
      by (symmetry; apply Z.ltb_ge; lia).
    simpl. unfold ret. f_equal.
    destruct (max_size <? sz + Z.max count sz)%Z eqn:E;
      [apply Z.ltb_lt in E|apply Z.ltb_ge in E]; lia.
  - intros Hover. rewrite wrap_small by lia.
    replace (max_size <? count + sz)%Z with true
      by (symmetry; apply Z.ltb_lt; lia).
    reflexivity.
Qed.

Lemma residue_of_move (x : T) : residue x (moved_from x).
Proof. apply residue_moved, residue_same. Qed.

(** C1 (as the code has it): let a growth operation (push_back, insert,
    emplace, fill insert, range insert, resize, reserve) take its
    reallocating path on a well-formed vector and fail with an exception.
    Then [start_], [finish_] and [end_of_storage_] are what they were (same
    [size()] and [capacity()], the old block still owned), no block at all
    has been handed back to the allocator (in particular not the new one),
    and every old element holds its value from before the call or what
    moves out of it have left of that value; for [reserve], which copies,
    the element sequence is exactly the one from before the call. *)
Theorem failed_growth_keeps_vector (g : growth T) s e s' :
  wf s ->
  reallocates g (this s) ->
  run_growth g s = Throw e s' ->
  this s' = this s /\
  size (this s') = size (this s) /\
  capacity (this s') = capacity (this s) /\
  (exists lg, log (mem s') = log (mem s) ++ lg /\ no_dealloc lg = true) /\
  (forall l, contents s = Some l ->
     exists l', contents s' = Some l' /\ Forall2 residue l l' /\
                (copies_only g = true -> l' = l)).
Proof.
  intros Hwf Hre Hrun.
  assert (Hk : kept residue s s' /\
               (copies_only g = true -> kept eq s s')).
  { destruct (copies_only g) eqn:Hg.
    - destruct g; try discriminate. simpl in Hre, Hrun.
      assert (Heq : kept eq s s').
      { eapply (reserve_throws_kept eq); [congruence|exact Hre| |exact Hrun].
        apply kept_refl. reflexivity. }
      split; [|intros _; exact Heq].
      eapply (reserve_throws_kept residue);
        [apply residue_trans|exact Hre| |exact Hrun].
      apply kept_refl, residue_same.
    - split; [|discriminate].
      eapply (growth_throws_kept residue);
        [apply residue_trans|apply residue_of_move|exact Hg|exact Hwf
        |exact Hre| |exact Hrun].
      apply kept_refl, residue_same. }
  destruct Hk as [Hres Heq]. pose proof Hres as (Hthis & _ & Hlog).
  split; [exact Hthis|]. rewrite Hthis.
  split; [reflexivity|]. split; [reflexivity|]. split; [exact Hlog|].
  intros l Hl.
  destruct (kept_contents residue s s' l Hres Hl) as (l' & Hl' & Hall).
  exists l'. split; [exact Hl'|]. split; [exact Hall|].
  intros Hg. destruct (kept_contents eq s s' l (Heq Hg) Hl) as (l2 & Hl2 & Hall2).
  apply list_eq_Forall2 in Hall2. congruence.
Qed.

(** ** Inserting one of the vector's own elements, with reallocation *)

Lemma allocate_ok s (n : Z) :
  (0 < n)%Z -> (n <= alloc_max_size)%Z -> (n <= avail (mem s))%Z ->
  allocate n s =
    Ret (length (cells (mem s)))
        (State (this s)
           (Heap (cells (mem s) ++ replicate (Z.to_nat n) Raw)
                 (avail (mem s) - n)
                 (log (mem s) ++ [EAlloc n (length (cells (mem s)))]))).
Proof.
  intros Hpos Hmax Hav. unfold allocate, Tr_allocate.
  replace (n =? 0)%Z with false by (symmetry; apply Z.eqb_neq; lia).
  replace (alloc_max_size <? n)%Z with false by (symmetry; apply Z.ltb_ge; lia).
  replace (avail (mem s) <? n)%Z with false by (symmetry; apply Z.ltb_ge; lia).
  reflexivity.
Qed.

(** [realloc_insert] with a reference to the vector's own element at index
    [j] as argument, at position index [i], when the allocation succeeds
    and no constructor throws: the new element is built from the argument
    before any old element is moved, so the value inserted is the one the
    element had before the call. *)
Lemma realloc_insert_own_element s (l : list T) (i j : nat) (x : T) :
  wf s ->
  contents s = Some l ->
  i <= length l ->
  l !! j = Some x ->
  copy_throws x = false ->
  (forall y, y ∈ l -> move_throws y = false) ->
  (1 <= sizeof_T)%Z ->
  (size (this s) + 1 <= max_size)%Z ->
  (2 * size (this s) + 1 <= avail (mem s))%Z ->
  exists s',
    realloc_insert (start_ (this s) + i)
                   (ACopy (Loc (start_ (this s) + j))) s = Ret tt s' /\
    start_ (this s') = length (cells (mem s)) /\
    contents s' = Some (take i l ++ x :: drop i l).
Proof.
  intros Hwf Hl Hi Hj Hcopy Hmove Hsizeof Hroom Hav.
  pose proof Hwf as (Hsf & Hfe & _ & _ & Hcap & _).
  destruct s as [[st fi eo] hp]. simpl in *.
  unfold contents, nsize in Hl. simpl in Hl.
  pose proof (objs_at_length _ _ _ _ Hl) as Hlen.
  set (s0 := State (Vec st fi eo) hp) in *.
  set (k := length l) in *. set (base := length (cells hp)).
  assert (Hfi : fi = st + k) by lia.
  assert (Hsize : size (this s0) = Z.of_nat k)
    by (unfold size, nsize; simpl; lia).
  unfold size, nsize in Hroom, Hav. simpl in Hroom, Hav.
  replace (fi - st) with k in Hroom, Hav by lia.
  assert (Hold : forall t y, l !! t = Some y ->
                   cells hp !! (st + t) = Some (Obj y) /\ st + t < base).
  { intros t y Ht. pose proof (objs_at_lookup _ _ _ _ _ _ Hl Ht) as Hc.
    split; [exact Hc|]. eapply lookup_lt_Some. exact Hc. }
  assert (Hbase : st < eo -> eo <= base).
  { intros Hk. pose proof (wf_storage_in_heap s0 (eo - 1) Hwf) as Hb.
    simpl in Hb. unfold base. lia. }
  (* the new capacity *)
  set (r := Z.min (Z.max (1 + Z.of_nat k) (2 * Z.of_nat k)) max_size).
  assert (Hr : (Z.of_nat k + 1 <= r <= max_size)%Z /\
               (r <= 2 * Z.of_nat k + 1)%Z) by (unfold r; lia).
  assert (Hcl : check_len 1 s0 = Ret r s0).
  { destruct (check_len_without_wrap s0 1 Hsizeof ltac:(lia)) as [Hfit _].
    - rewrite Hsize. lia.
    - rewrite Hsize in Hfit. apply Hfit. lia. }
  pose proof max_size_le_alloc as Hma.
  assert (Hnr : k + 1 <= Z.to_nat r) by lia.
  (* allocation, then the new element *)
  pose proof (allocate_ok s0 r ltac:(lia) ltac:(lia) ltac:(simpl; lia))
    as Hal.
  set (s1 := State _ _) in Hal.
  assert (Hc1old : forall a, a < base ->
                     cells (mem s1) !! a = cells hp !! a).
  { intros a Ha. simpl. apply lookup_app_l. exact Ha. }
  assert (Hc1new : forall t, t < Z.to_nat r ->
                     cells (mem s1) !! (base + t) = Some Raw).
  { intros t Ht. simpl. rewrite lookup_app_r by (unfold base; lia).
    apply lookup_replicate_2. unfold base. lia. }
  destruct (Hold _ _ Hj) as [Hjc Hjb].
  pose proof (construct_copy_ok (base + i) (st + j) x s1
                ltac:(rewrite Hc1old; assumption) Hcopy
                ltac:(apply Hc1new; lia)) as Hco.
  set (s2 := State _ _) in Hco.
  assert (Hc2 : forall a, a <> base + i ->
                  cells (mem s2) !! a = cells (mem s1) !! a).
  { intros a Ha. simpl. apply list_lookup_insert_ne. lia. }
  assert (Hc2i : cells (mem s2) !! (base + i) = Some (Obj x)).
  { simpl. apply list_lookup_insert_eq. eapply lookup_lt_Some.
    apply Hc1new. lia. }
  (* the elements before the position *)
  destruct (uninit_move_ok st base i 0 s2)
    as (s3 & Hm1 & Hthis3 & Hout3 & Hin3).
  { intros t Ht. destruct (lookup_lt_is_Some_2 l t) as [y Hy]; [lia|].
    destruct (Hold _ _ Hy) as [Hyc Hyb].
    exists y. split; [|apply Hmove; eapply list_elem_of_lookup_2; exact Hy].
    rewrite Hc2 by lia. rewrite Hc1old by lia. exact Hyc. }
  { intros t Ht. rewrite Hc2 by lia. apply Hc1new. lia. }
  { intros t t' Ht Ht'.
    destruct (lookup_lt_is_Some_2 l t) as [y Hy]; [lia|].
    destruct (Hold _ _ Hy) as [_ Hyb]. lia. }
  (* the elements from the position on *)
  destruct (uninit_move_ok (st + i) (S (base + i)) (k - i) 0 s3)
    as (s4 & Hm2 & Hthis4 & Hout4 & Hin4).
  { intros t Ht. destruct (lookup_lt_is_Some_2 l (i + t)) as [y Hy]; [lia|].
    destruct (Hold _ _ Hy) as [Hyc Hyb].
    exists y. split; [|apply Hmove; eapply list_elem_of_lookup_2; exact Hy].
    rewrite Hout3 by lia. rewrite Hc2 by lia. rewrite Hc1old by lia.
    replace (st + i + t) with (st + (i + t)) by lia. exact Hyc. }
  { intros t Ht. rewrite Hout3.
    - rewrite Hc2 by lia.
      replace (S (base + i) + t) with (base + (i + 1 + t)) by lia.
      apply Hc1new. lia.
    - lia.
    - destruct (lookup_lt_is_Some_2 l (k - 1)) as [y Hy]; [lia|].
      destruct (Hold _ _ Hy) as [_ Hyb]. lia. }
  { intros t t' Ht Ht'.
    destruct (lookup_lt_is_Some_2 l (i + t)) as [y Hy]; [lia|].
    destruct (Hold _ _ Hy) as [_ Hyb]. lia. }
  (* the old elements are destroyed and the old block released *)
  destruct (destroy_n_ok k st s4) as (s5 & Hd & Hthis5 & Hout5).
  { intros t Ht. destruct (lookup_lt_is_Some_2 l t) as [y Hy]; [lia|].
    destruct (Hold _ _ Hy) as [Hyc Hyb].
    exists (moved_from y). destruct (decide (t < i)) as [Hlt|Hge].
    - rewrite Hout4 by lia. apply (Hin3 t y); [lia|].
      rewrite Hc2 by lia. rewrite Hc1old by lia. exact Hyc.
    - replace (st + t) with (st + i + (t - i)) by lia.
      apply (Hin4 (t - i) y); [lia|].
      rewrite Hout3 by lia. rewrite Hc2 by lia. rewrite Hc1old by lia.
      replace (st + i + (t - i)) with (st + t) by lia. exact Hyc. }
  assert (Hb5 : blocks s5 = (base, r) :: blocks s0).
  { rewrite (quiet_run _ _ _ _ (quiet_destroy_n _ _) Hd).
    rewrite (quiet_run _ _ _ _ (quiet_uninit_loop _ _ _ _) Hm2).
    rewrite (quiet_run _ _ _ _ (quiet_uninit_loop _ _ _ _) Hm1).
    unfold blocks, s2, s1. simpl. rewrite !held_blocks_snoc. reflexivity. }
  destruct (deallocate_frame s5 st (eo - st)) as (s6 & Hde & Hthis6 & Hout6).
  { destruct (wf_owns _ Hwf) as [Hst|[_ Hheld]]; [left; exact Hst|right].
    rewrite Hb5. right. exact Hheld. }
  exists (State (Vec base (S (base + i) + (0 + (k - i))) (base + Z.to_nat r))
                (mem s6)).
  split; [|split].
  - unfold realloc_insert. unfold bind at 1. rewrite Hcl.
    unfold bind at 1, get_this. simpl this. cbv zeta.
    unfold bind at 1. simpl start_. simpl finish_. simpl end_of_storage_.
    rewrite Hal. change (length (cells (mem s0))) with base.
    replace (st + i - st) with i by lia.
    unfold bind at 1. rewrite Hco.
    unfold bind at 1, uninitialized_move at 1, distance, bind at 1.
    replace (st <=? st + i) with true by (symmetry; apply Nat.leb_le; lia).
    unfold ret at 1. replace (st + i - st) with i by lia. rewrite Hm1.
    unfold uninitialized_move, distance, bind at 1, bind at 1.
    replace (st + i <=? fi) with true by (symmetry; apply Nat.leb_le; lia).
    unfold ret at 1. replace (fi - (st + i)) with (k - i) by lia.
    replace (base + (0 + i)) with (base + i) by lia. rewrite Hm2.
    unfold bind at 1, std_destroy, distance, bind at 1.
    replace (st <=? fi) with true by (symmetry; apply Nat.leb_le; lia).
    unfold ret at 1. replace (fi - st) with k by lia. rewrite Hd.
    unfold bind. rewrite Hde. reflexivity.
  - reflexivity.
  - unfold contents, nsize. simpl.
    replace (S (base + i + (k - i)) - base) with
      (length (take i l ++ x :: drop i l)).
    2:{ rewrite length_app, length_take_le by lia. simpl.
        rewrite length_drop. fold k. lia. }
    apply objs_at_intro. intros t y Ht.
    assert (Hfinal : forall a, base <= a ->
                       cells (mem s6) !! a = cells (mem s4) !! a).
    { intros a Ha. destruct (decide (k = 0)) as [Hk0|Hk0].
      - destruct (decide (st < eo)) as [Hse|Hse].
        + specialize (Hbase Hse). rewrite Hout6 by lia. apply Hout5. lia.
        + rewrite Hout6 by lia. apply Hout5. lia.
      - specialize (Hbase ltac:(lia)).
        destruct (lookup_lt_is_Some_2 l (k - 1)) as [z Hz]; [lia|].
        destruct (Hold _ _ Hz) as [_ Hzb].
        rewrite Hout6 by lia. apply Hout5. lia. }
    rewrite Hfinal by lia.
    assert (Hlast : 0 < k -> st + k <= base).
    { intros Hk. destruct (lookup_lt_is_Some_2 l (k - 1)) as [z Hz]; [lia|].
      destruct (Hold _ _ Hz) as [_ Hzb]. lia. }
    destruct (Nat.lt_trichotomy t i) as [Hlt|[->|Hgt]].
    + rewrite lookup_app_l in Ht by (rewrite length_take_le; lia).
      rewrite lookup_take_lt in Ht by lia.
      destruct (Hold _ _ Ht) as [Hyc Hyb].
      rewrite Hout4; [| lia |].
      * apply (Hin3 t y); [lia|].
        rewrite Hc2 by lia. rewrite Hc1old by lia. exact Hyc.
      * specialize (Hlast ltac:(lia)). lia.
    + rewrite list_lookup_middle in Ht by (rewrite length_take_le; lia).
      injection Ht as <-.
      rewrite Hout4; [| lia |].
      * rewrite Hout3; [exact Hc2i|lia|].
        destruct (decide (k = 0)) as [Hk0|Hk0]; [lia|].
        specialize (Hlast ltac:(lia)). lia.
      * destruct (decide (k = 0)) as [Hk0|Hk0]; [lia|].
        specialize (Hlast ltac:(lia)). lia.
    + rewrite lookup_app_r in Ht by (rewrite length_take_le; lia).
      rewrite length_take_le in Ht by lia.
      replace (t - i) with (S (t - i - 1)) in Ht by lia.
      simpl in Ht. rewrite lookup_drop in Ht.
      destruct (Hold _ _ Ht) as [Hyc Hyb].
      replace (base + t) with (S (base + i) + (t - i - 1)) by lia.
      apply (Hin4 (t - i - 1) y).
      * apply lookup_lt_Some in Ht. fold k in Ht. lia.
      * rewrite Hout3 by lia. rewrite Hc2 by lia. rewrite Hc1old by lia.
        replace (st + i + (t - i - 1)) with (st + (i + (t - i - 1))) by lia.
        exact Hyc.
Qed.

(** [insert] on a full vector is [realloc_insert]: with a reference to the
    element at index [j] it inserts that element's value at index [i]. *)
Lemma insert_own_element_reallocating s (l : list T) (i j : nat) (x : T) :
  wf s ->
  contents s = Some l ->
  finish_ (this s) = end_of_storage_ (this s) ->
  i <= length l ->
  l !! j = Some x ->
  copy_throws x = false ->
  (forall y, y ∈ l -> move_throws y = false) ->
  (1 <= sizeof_T)%Z ->
  (size (this s) + 1 <= max_size)%Z ->
  (2 * size (this s) + 1 <= avail (mem s))%Z ->
  exists s',
    insert (start_ (this s) + i) (ACopy (Loc (start_ (this s) + j))) s
      = Ret (start_ (this s') + i) s' /\
    contents s' = Some (take i l ++ x :: drop i l).
Proof.
  intros Hwf Hl Hfull Hi Hj Hcopy Hmove Hsizeof Hroom Hav.
  destruct (realloc_insert_own_element s l i j x)
    as (s' & Hrun & Hstart & Hc); try assumption.
  exists s'. split; [|exact Hc].
  unfold insert, bind at 1, get_this. rewrite Hfull, Nat.eqb_refl. simpl negb.
  cbv iota. replace (start_ (this s) + i - start_ (this s)) with i by lia.
  unfold bind. rewrite Hrun. reflexivity.
Qed.

(** ** Inserting one of the vector's own elements, in place *)

Lemma assign_copy_ok p a x y s :
  cells (mem s) !! a = Some (Obj x) ->
  copy_throws x = false ->
  cells (mem s) !! p = Some (Obj y) ->
  assign_at p (ACopy (Loc a)) s =
    Ret tt (State (this s)
              (Heap (<[p := Obj x]> (cells (mem s))) (avail (mem s))
                    (log (mem s) ++ [EAssign p]))).
Proof.
  intros Ha Hx Hp. unfold assign_at, eval_arg, deref, bind, read.
  rewrite Ha, Hx. unfold ret, store. rewrite Hp. reflexivity.
Qed.

(** The shifting loop of [unrealloc_insert]: every slot of [(it - n, it]]
    receives the value of its left neighbour. *)
Lemma shift_up_ok n : forall it s,
  n <= it ->
  (forall a, it - n <= a <= it ->
     exists y, cells (mem s) !! a = Some (Obj y) /\ copy_throws y = false) ->
  exists s',
    shift_up n it s = Ret tt s' /\
    this s' = this s /\
    (forall a, a <= it - n \/ it < a ->
               cells (mem s') !! a = cells (mem s) !! a) /\
    (forall a, it - n < a <= it ->
               cells (mem s') !! a = cells (mem s) !! (a - 1)).
Proof.
  induction n as [|n IH]; intros it s Hn Hobj; simpl.
  - exists s. repeat split; auto. intros a Ha. lia.
  - destruct (Hobj (it - 1) ltac:(lia)) as (x & Hx & Hnt).
    destruct (Hobj it ltac:(lia)) as (y & Hy & _).
    unfold bind. rewrite (assign_copy_ok _ _ _ _ _ Hx Hnt Hy).
    set (s1 := State _ _).
    assert (Hkeep : forall a, a <> it ->
                      cells (mem s1) !! a = cells (mem s) !! a).
    { intros a Ha. simpl. apply list_lookup_insert_ne. lia. }
    destruct (IH (it - 1) s1) as (s' & Hrun & Hthis & Hout & Hin); [lia| |].
    { intros a Ha. rewrite Hkeep by lia. apply Hobj. lia. }
    exists s'. split; [exact Hrun|]. split; [exact Hthis|]. split.
    + intros a Ha. rewrite Hout by lia. apply Hkeep. lia.
    + intros a Ha. destruct (decide (a = it)) as [->|Hne].
      * rewrite Hout by lia. simpl. rewrite Hx.
        apply list_lookup_insert_eq. eapply lookup_lt_Some. exact Hy.
      * rewrite Hin by lia. apply Hkeep. lia.
Qed.

(** [insert] with spare capacity is [unrealloc_insert]: the elements from
    the position on are shifted first and the argument is read afterwards.
    With a reference to the element at an index [j] behind the position
    [i], what is inserted is the value of the element at index [j - 1]. *)
Lemma insert_own_element_in_place s (l : list T) (i j : nat) (x' : T) :
  wf s ->
  contents s = Some l ->
  finish_ (this s) < end_of_storage_ (this s) ->
  i < j < length l ->
  l !! (j - 1) = Some x' ->
  (forall y, y ∈ l -> copy_throws y = false) ->
  exists s',
    insert (start_ (this s) + i) (ACopy (Loc (start_ (this s) + j))) s
      = Ret (start_ (this s) + i) s' /\
    contents s' = Some (take i l ++ x' :: drop i l).
Proof.
  intros Hwf Hl Hspare Hij Hx' Hcopy.
  pose proof Hwf as (Hsf & Hfe & _ & Hraw & _ & _).
  destruct s as [[st fi eo] hp]. simpl in *.
  unfold contents, nsize in Hl. simpl in Hl.
  pose proof (objs_at_length _ _ _ _ Hl) as Hlen.
  set (s0 := State (Vec st fi eo) hp) in *.
  set (k := length l) in *.
  assert (Hfi : fi = st + k) by lia.
  assert (Hold : forall t y, l !! t = Some y ->
                   cells hp !! (st + t) = Some (Obj y) /\
                   copy_throws y = false).
  { intros t y Ht. split; [apply (objs_at_lookup _ _ _ _ _ _ Hl Ht)|].
    apply Hcopy. eapply list_elem_of_lookup_2. exact Ht. }
  destruct (lookup_lt_is_Some_2 l (k - 1)) as [z Hz]; [lia|].
  destruct (Hold _ _ Hz) as [Hzc Hzt].
  replace (st + (k - 1)) with (fi - 1) in Hzc by lia.
  pose proof (raw_at_lookup _ _ _ 0 Hraw ltac:(lia)) as Hfree.
  rewrite Nat.add_0_r in Hfree.
  (* the last element is copied into the free slot *)
  pose proof (construct_copy_ok fi (fi - 1) z s0 Hzc Hzt Hfree) as Hco.
  set (s1 := State _ _) in Hco.
  assert (Hc1 : forall a, a <> fi -> cells (mem s1) !! a = cells hp !! a).
  { intros a Ha. simpl. apply list_lookup_insert_ne. lia. }
  assert (Hc1f : cells (mem s1) !! fi = Some (Obj z)).
  { simpl. apply list_lookup_insert_eq. eapply lookup_lt_Some. exact Hfree. }
  (* the shift *)
  destruct (shift_up_ok (k - 1 - i) (fi - 1) s1)
    as (s2 & Hsh & Hthis2 & Hout2 & Hin2); [lia| |].
  { intros a Ha. destruct (lookup_lt_is_Some_2 l (a - st)) as [y Hy]; [lia|].
    destruct (Hold _ _ Hy) as [Hyc Hyt]. exists y. split; [|exact Hyt].
    rewrite Hc1 by lia. replace (st + (a - st)) with a in Hyc by lia.
    exact Hyc. }
  replace (fi - 1 - (k - 1 - i)) with (st + i) in Hout2, Hin2 by lia.
  (* the slot at the position is destroyed and rebuilt from the argument *)
  destruct (lookup_lt_is_Some_2 l i) as [yi Hyi]; [lia|].
  destruct (Hold _ _ Hyi) as [Hyic _].
  assert (Hpos2 : cells (mem s2) !! (st + i) = Some (Obj yi)).
  { rewrite Hout2 by lia. rewrite Hc1 by lia. exact Hyic. }
  set (s3 := State (this s2)
               (Heap (<[st + i := Raw]> (cells (mem s2))) (avail (mem s2))
                     (log (mem s2) ++ [EDestroy (st + i)]))).
  assert (Hde : destroy_at (st + i) s2 = Ret tt s3).
  { unfold destroy_at. rewrite Hpos2. reflexivity. }
  destruct (Hold _ _ Hx') as [Hx'c Hx't].
  assert (Hsrc3 : cells (mem s3) !! (st + j) = Some (Obj x')).
  { simpl. rewrite list_lookup_insert_ne by lia. rewrite Hin2 by lia.
    rewrite Hc1 by lia. replace (st + j - 1) with (st + (j - 1)) by lia.
    exact Hx'c. }
  assert (Hdst3 : cells (mem s3) !! (st + i) = Some Raw).
  { simpl. apply list_lookup_insert_eq. eapply lookup_lt_Some. exact Hpos2. }
  pose proof (construct_copy_ok (st + i) (st + j) x' s3 Hsrc3 Hx't Hdst3)
    as Hco2.
  set (s4 := State _ _) in Hco2.
  exists (State (Vec st (S fi) eo) (mem s4)).
  split.
  - unfold insert, bind at 1, get_this. simpl this. cbv zeta.
    simpl start_. simpl finish_. simpl end_of_storage_.
    replace (fi =? eo) with false by (symmetry; apply Nat.eqb_neq; lia).
    simpl negb. cbv iota. replace (st + i - st) with i by lia.
    unfold bind at 1, unrealloc_insert, bind at 1, get_this.
    change (finish_ (this s0)) with fi.
    replace (st + i =? fi) with false by (symmetry; apply Nat.eqb_neq; lia).
    unfold bind at 1. rewrite Hco.
    unfold bind at 1, distance.
    replace (st + i <=? fi - 1) with true by (symmetry; apply Nat.leb_le; lia).
    unfold ret at 1. replace (fi - 1 - (st + i)) with (k - 1 - i) by lia.
    unfold bind at 1. rewrite Hsh.
    unfold bind at 1. rewrite Hde.
    unfold bind at 1. rewrite Hco2.
    unfold set_finish, bind, get_this, put_this, ret. simpl.
    rewrite Hthis2. reflexivity.
  - unfold contents, nsize. simpl.
    replace (S fi - st) with (length (take i l ++ x' :: drop i l)).
    2:{ rewrite length_app, length_take_le by lia. simpl.
        rewrite length_drop. fold k. lia. }
    apply objs_at_intro. intros t y Ht.
    destruct (Nat.lt_trichotomy t i) as [Hlt|[->|Hgt]].
    + rewrite lookup_app_l in Ht by (rewrite length_take_le; lia).
      rewrite lookup_take_lt in Ht by lia.
      destruct (Hold _ _ Ht) as [Hyc _].
      rewrite !list_lookup_insert_ne by lia.
      rewrite Hout2 by lia. rewrite Hc1 by lia. exact Hyc.
    + rewrite list_lookup_middle in Ht by (rewrite length_take_le; lia).
      injection Ht as <-.
      apply list_lookup_insert_eq. rewrite length_insert.
      eapply lookup_lt_Some. exact Hpos2.
    + rewrite lookup_app_r in Ht by (rewrite length_take_le; lia).
      rewrite length_take_le in Ht by lia.
      replace (t - i) with (S (t - i - 1)) in Ht by lia.
      simpl in Ht. rewrite lookup_drop in Ht.
      pose proof (lookup_lt_Some _ _ _ Ht) as Hlt. fold k in Hlt.
      destruct (Hold _ _ Ht) as [Hyc _].
      rewrite !list_lookup_insert_ne by lia.
      destruct (decide (t = k)) as [->|Hne].
      * rewrite Hout2 by lia. replace (st + k) with fi by lia.
        rewrite Hc1f.
        replace (i + (k - i - 1)) with (k - 1) in Ht by lia.
        congruence.
      * rewrite Hin2 by lia. rewrite Hc1 by lia.
        replace (st + t - 1) with (st + (i + (t - i - 1))) by lia.
        exact Hyc.
Qed.

End Properties.

(** * Further properties of the member functions *)

Section MoreProperties.
Context {T : Type} `{Element T}.

Implicit Types (s : state T) (hp : heap T).

(** The block is the one the vector owned before, when the bounds of the
    storage and the allocator's account have not changed. *)
Ltac owns_from Hwf :=
  apply (owns_same _ _ _ _ _ _ (wf_owns _ Hwf)); simpl;
  rewrite ?held_blocks_snoc; try reflexivity.

Lemma refers_frame s s' (r : ref T) x :
  refers s r x ->
  (forall a y, cells (mem s) !! a = Some (Obj y) ->
               cells (mem s') !! a = Some (Obj y)) ->
  refers s' r x.
Proof. destruct r as [v|a]; simpl; auto. Qed.

(** Copy construction from a reference to a value whose copy constructor
    does not throw. *)
Lemma construct_ref_ok p (r : ref T) x s :
  refers s r x ->
  copy_throws x = false ->
  cells (mem s) !! p = Some Raw ->
  construct p (ACopy r) s =
    Ret tt (State (this s)
              (Heap (<[p := Obj x]> (cells (mem s))) (avail (mem s))
                    (log (mem s) ++ [EConstruct p]))).
Proof.
  intros Hr Hx Hp. destruct r as [v|a]; simpl in Hr.
  - subst v. unfold construct, eval_arg, deref, bind, ret.
    rewrite Hx. unfold place. rewrite Hp. reflexivity.
  - apply construct_copy_ok; assumption.
Qed.

Lemma construct_ref_throws p (r : ref T) x s :
  refers s r x ->
  copy_throws x = true ->
  construct p (ACopy r) s = Throw elem_failure s.
Proof.
  intros Hr Hx. destruct r as [v|a]; simpl in Hr.
  - subst v. unfold construct, eval_arg, deref, bind, ret.
    rewrite Hx. reflexivity.
  - unfold construct, eval_arg, deref, bind, read. rewrite Hr, Hx.
    reflexivity.
Qed.

(** ** Appending and removing at the end *)

Lemma push_back_spare_run st fi eo hp (r : ref T) x :
  fi <> eo ->
  cells hp !! fi = Some Raw ->
  refers (State (Vec st fi eo) hp) r x ->
  copy_throws x = false ->
  push_back r (State (Vec st fi eo) hp) =
    Ret tt (State (Vec st (S fi) eo)
              (Heap (<[fi := Obj x]> (cells hp)) (avail hp)
                    (log hp ++ [EConstruct fi]))).
Proof.
  intros Hne Hraw Hr Hx. unfold push_back, bind at 1, get_this. simpl.
  replace (fi =? eo) with false by (symmetry; apply Nat.eqb_neq; lia).
  simpl. unfold bind.
  rewrite (construct_ref_ok fi r x _ Hr Hx Hraw). reflexivity.
Qed.

Lemma pop_back_run st fi eo hp y :
  fi <> 0 ->
  cells hp !! (fi - 1) = Some (Obj y) ->
  pop_back (State (Vec st fi eo) hp) =
    Ret tt (State (Vec st (fi - 1) eo)
              (Heap (<[fi - 1 := Raw]> (cells hp)) (avail hp)
                    (log hp ++ [EDestroy (fi - 1)]))).
Proof.
  intros Hne Hy. unfold pop_back, bind at 1, get_this. simpl.
  replace (fi =? 0) with false by (symmetry; apply Nat.eqb_neq; lia).
  unfold bind, set_finish, bind, get_this, put_this, destroy_at. simpl.
  rewrite Hy. reflexivity.
Qed.

Lemma objs_at_snoc (c : list (cell T)) p (l : list T) x :
  objs_at c p (length l) = Some l ->
  c !! (p + length l) = Some (Obj x) ->
  objs_at c p (S (length l)) = Some (l ++ [x]).
Proof.
  intros Hl Hx.
  replace (S (length l)) with (length (l ++ [x]))
    by (rewrite length_app; simpl; lia).
  apply objs_at_intro. intros i y Hi.
  apply lookup_snoc_Some in Hi as [[Hlt Hi]|[-> <-]].
  - apply (objs_at_lookup _ _ _ _ _ _ Hl Hi).
  - exact Hx.
Qed.

(** X1: [push_back(value)] on a well-formed vector with spare capacity,
    for a value whose copy constructor does not throw: the value becomes
    the new last element, the elements before it and [capacity()] are
    unchanged, the storage is the same ([begin()] does not move), the only
    event is the construction in the slot at the old [end()] (no call to
    the allocator), and the result is well-formed.  If the copy
    constructor throws, the exception leaves the state as it was. *)
Theorem push_back_with_spare_capacity s (l : list T) (r : ref T) x :
  wf s ->
  contents s = Some l ->
  finish_ (this s) < end_of_storage_ (this s) ->
  refers s r x ->
  (copy_throws x = false ->
   exists s',
     push_back r s = Ret tt s' /\
     contents s' = Some (l ++ [x]) /\
     start_ (this s') = start_ (this s) /\
     capacity (this s') = capacity (this s) /\
     size (this s') = (size (this s) + 1)%Z /\
     log (mem s') = log (mem s) ++ [EConstruct (finish_ (this s))] /\
     wf s') /\
  (copy_throws x = true -> push_back r s = Throw elem_failure s).
Proof.
  intros Hwf Hl Hspare Hr.
  destruct s as [[st fi eo] hp]. simpl in *.
  destruct (wf_slots _ _ _ _ _ Hwf Hl)
    as (Hlen & Hobj & Hraw & Hin & Hcap & Hord & Hz).
  pose proof (Hraw 0 ltac:(lia)) as Hfree. rewrite Nat.add_0_r in Hfree.
  split.
  - intros Hx. eexists. split.
    { apply push_back_spare_run; [lia|exact Hfree|exact Hr|exact Hx]. }
    assert (Hl' : objs_at (<[fi := Obj x]> (cells hp)) st (S (length l))
                  = Some (l ++ [x])).
    { apply objs_at_snoc.
      - apply objs_at_intro. intros t y Ht.
        rewrite list_lookup_insert_ne
          by (apply lookup_lt_Some in Ht; lia).
        apply Hobj, Ht.
      - replace (st + length l) with fi by lia.
        apply list_lookup_insert_eq. eapply lookup_lt_Some. exact Hfree. }
    unfold contents, size, capacity, nsize, ncapacity. simpl.
    replace (S fi - st) with (S (length l)) by lia.
    split; [exact Hl'|]. split; [reflexivity|]. split; [reflexivity|].
    split; [lia|]. split; [reflexivity|].
    apply (wf_intro _ _ _ _ (l ++ [x])); simpl; try lia.
    + replace (S fi - st) with (S (length l)) by lia. exact Hl'.
    + intros i Hi. rewrite list_lookup_insert_ne by lia.
      specialize (Hraw (S i) ltac:(lia)).
      replace (fi + S i) with (S fi + i) in Hraw by lia. exact Hraw.
    + owns_from Hwf.
  - intros Hx. unfold push_back, bind at 1, get_this. simpl.
    replace (fi =? eo) with false by (symmetry; apply Nat.eqb_neq; lia).
    simpl. unfold bind. rewrite (construct_ref_throws fi r x _ Hr Hx).
    reflexivity.
Qed.

(** X2: [pop_back()] on a well-formed, non-empty vector destroys the last
    element and nothing else: the element sequence loses its last element,
    [capacity()] and the storage are unchanged, and the result is
    well-formed. *)
Theorem pop_back_removes_last s (l : list T) x :
  wf s ->
  contents s = Some (l ++ [x]) ->
  exists s',
    pop_back s = Ret tt s' /\
    contents s' = Some l /\
    start_ (this s') = start_ (this s) /\
    capacity (this s') = capacity (this s) /\
    log (mem s') = log (mem s) ++ [EDestroy (finish_ (this s) - 1)] /\
    wf s'.
Proof.
  intros Hwf Hl.
  destruct s as [[st fi eo] hp]. simpl in *.
  destruct (wf_slots _ _ _ _ _ Hwf Hl)
    as (Hlen & Hobj & Hraw & Hin & Hcap & Hord & Hz).
  rewrite length_app in Hlen. simpl in Hlen.
  assert (Hlast : cells hp !! (fi - 1) = Some (Obj x)).
  { replace (fi - 1) with (st + length l) by lia.
    apply Hobj. apply list_lookup_middle. reflexivity. }
  eexists. split; [apply (pop_back_run _ _ _ _ x); [lia|exact Hlast]|].
  assert (Hl' : objs_at (<[fi - 1 := Raw]> (cells hp)) st (length l)
                = Some l).
  { apply objs_at_intro. intros t y Ht.
    rewrite list_lookup_insert_ne by (apply lookup_lt_Some in Ht; lia).
    apply Hobj. apply lookup_app_l_Some. exact Ht. }
  unfold contents, capacity, nsize, ncapacity. simpl.
  replace (fi - 1 - st) with (length l) by lia.
  split; [exact Hl'|]. split; [reflexivity|]. split; [reflexivity|].
  split; [reflexivity|].
  apply (wf_intro _ _ _ _ l); simpl; try lia.
  - replace (fi - 1 - st) with (length l) by lia. exact Hl'.
  - intros i Hi. destruct i as [|i].
    + rewrite Nat.add_0_r. apply list_lookup_insert_eq.
      eapply lookup_lt_Some. exact Hlast.
    + rewrite list_lookup_insert_ne by lia.
      replace (fi - 1 + S i) with (fi + i) by lia. apply Hraw. lia.
  - owns_from Hwf.
Qed.

(** X3: with spare capacity, [push_back(value)] followed by [pop_back()]
    restores the vector exactly: the object, every slot of the heap and the
    allocator's account are what they were; only the log has grown, by one
    construction and one destruction of the slot at [end()]. *)
Theorem push_back_then_pop_back s (r : ref T) x :
  wf s ->
  finish_ (this s) < end_of_storage_ (this s) ->
  refers s r x ->
  copy_throws x = false ->
  (push_back r;; pop_back) s =
    Ret tt (logged s [EConstruct (finish_ (this s));
                      EDestroy (finish_ (this s))]).
Proof.
  intros Hwf Hspare Hr Hx. pose proof Hwf as (_ & _ & [l Hl] & _).
  destruct s as [[st fi eo] hp]. simpl in *.
  destruct (wf_slots _ _ _ _ _ Hwf Hl)
    as (Hlen & Hobj & Hraw & Hin & Hcap & Hord & Hz).
  pose proof (Hraw 0 ltac:(lia)) as Hfree. rewrite Nat.add_0_r in Hfree.
  unfold bind.
  rewrite (push_back_spare_run st fi eo hp r x) by (try lia; assumption).
  rewrite (pop_back_run st (S fi) eo _ x).
  - unfold logged. simpl. replace (fi - 0) with fi by lia.
    rewrite list_insert_insert_eq, (list_insert_id _ _ _ Hfree).
    rewrite <- app_assoc. destruct hp. reflexivity.
  - lia.
  - simpl. replace (fi - 0) with fi by lia.
    apply list_lookup_insert_eq. eapply lookup_lt_Some. exact Hfree.
Qed.

(** ** Checked access *)

(** X4: [at(index)] on a well-formed vector returns the element at
    [index], leaving the state as it is, when [index < size()], and throws
    [out_of_range], leaving the state as it is, when [index >= size()]. *)
Theorem at_checks_bounds s (l : list T) (index : Z) :
  wf s ->
  contents s = Some l ->
  (0 <= index)%Z ->
  (forall y, l !! Z.to_nat index = Some y -> at_ index s = Ret y s) /\
  ((size (this s) <= index)%Z -> at_ index s = Throw out_of_range s).
Proof.
  intros Hwf Hl Hidx. destruct s as [[st fi eo] hp].
  destruct (wf_slots _ _ _ _ _ Hwf Hl) as (Hlen & Hobj & _).
  unfold at_, bind, get_this, size, nsize. simpl. split.
  - intros y Hy. pose proof (lookup_lt_Some _ _ _ Hy) as Hlt.
    replace (Z.of_nat (fi - st) <=? index)%Z with false
      by (symmetry; apply Z.leb_gt; lia).
    unfold read. simpl. rewrite (Hobj _ _ Hy). reflexivity.
  - intros Hge.
    replace (Z.of_nat (fi - st) <=? index)%Z with true
      by (symmetry; apply Z.leb_le; exact Hge).
    reflexivity.
Qed.

(** ** Erasing *)

Lemma assign_move_ok p a x y s :
  cells (mem s) !! a = Some (Obj x) ->
  move_throws x = false ->
  cells (mem s) !! p = Some (Obj y) ->
  p <> a ->
  assign_at p (AMove (Loc a)) s =
    Ret tt (State (this s)
              (Heap (<[p := Obj x]>
                       (<[a := Obj (moved_from x)]> (cells (mem s))))
                    (avail (mem s))
                    (log (mem s) ++ [EAssign p]))).
Proof.
  intros Ha Hx Hp Hne. unfold assign_at, eval_arg, deref, bind, read.
  rewrite Ha, Hx. unfold leave_moved, poke. rewrite Ha.
  unfold put_cells, ret, store. simpl.
  rewrite list_lookup_insert_ne by congruence. rewrite Hp. reflexivity.
Qed.

(** [std::move(src, src + n, d)] towards the front ([d < src]) over
    constructed objects whose move assignment does not throw: the [n] slots
    from [d] receive the values of the [n] slots from [src]; the slots
    between the two ends stay constructed (they hold what the moves left);
    nothing outside [d, src + n) changes. *)
Lemma move_down_ok d src n : d < src -> forall i s,
  (forall a, d + i <= a < src + i + n ->
     exists z, cells (mem s) !! a = Some (Obj z)) ->
  (forall t, i <= t < i + n ->
     exists y, cells (mem s) !! (src + t) = Some (Obj y) /\
               move_throws y = false) ->
  exists s',
    assign_loop (fun t => d + t) (fun t => AMove (Loc (src + t))) n i s
      = Ret tt s' /\
    this s' = this s /\
    (forall a, a < d + i \/ src + i + n <= a ->
               cells (mem s') !! a = cells (mem s) !! a) /\
    (forall t y, i <= t < i + n ->
                 cells (mem s) !! (src + t) = Some (Obj y) ->
                 cells (mem s') !! (d + t) = Some (Obj y)) /\
    (forall a, d + i + n <= a < src + i + n ->
               exists z, cells (mem s') !! a = Some (Obj z)).
Proof.
  intros Hgap. induction n as [|n IH]; intros i s Hobj Hsrc; simpl.
  - exists s. split; [reflexivity|]. split; [reflexivity|].
    split; [auto|]. split; [intros; lia|].
    intros a Ha. apply Hobj. lia.
  - destruct (Hsrc i ltac:(lia)) as (x & Hx & Hnt).
    destruct (Hobj (d + i) ltac:(lia)) as (y & Hy).
    unfold bind.
    rewrite (assign_move_ok _ _ _ _ _ Hx Hnt Hy) by lia.
    set (s1 := State _ _).
    assert (Hkeep : forall a, a <> d + i -> a <> src + i ->
                      cells (mem s1) !! a = cells (mem s) !! a).
    { intros a Ha Ha'. simpl.
      rewrite !list_lookup_insert_ne by lia. reflexivity. }
    assert (Hstill : forall a z, cells (mem s) !! a = Some (Obj z) ->
                       exists z', cells (mem s1) !! a = Some (Obj z')).
    { intros a z Ha. pose proof (lookup_lt_Some _ _ _ Ha) as Hlt. simpl.
      destruct (decide (a = d + i)) as [->|Hn1].
      - eexists. apply list_lookup_insert_eq. rewrite length_insert. exact Hlt.
      - rewrite list_lookup_insert_ne by lia.
        destruct (decide (a = src + i)) as [->|Hn2].
        + eexists. apply list_lookup_insert_eq. exact Hlt.
        + rewrite list_lookup_insert_ne by lia. eauto. }
    destruct (IH (S i) s1) as (s' & Hrun & Hthis & Hout & Hin & Htail).
    { intros a Ha. destruct (Hobj a ltac:(lia)) as [z Hz].
      apply (Hstill _ _ Hz). }
    { intros t Ht. rewrite Hkeep by lia. apply Hsrc. lia. }
    exists s'. split; [exact Hrun|]. split; [exact Hthis|]. split.
    { intros a Ha. rewrite Hout by lia. apply Hkeep; lia. }
    split.
    { intros t z Ht Hz. destruct (decide (t = i)) as [->|Hne].
      - rewrite Hout by lia. rewrite Hx in Hz. injection Hz as <-. simpl.
        apply list_lookup_insert_eq. rewrite length_insert.
        eapply lookup_lt_Some. exact Hy.
      - apply Hin; [lia|]. rewrite Hkeep by lia. exact Hz. }
    intros a Ha. apply Htail. lia.
Qed.

Lemma std_move_down_ok (d src k : nat) s :
  d < src ->
  (forall a, d <= a < src + k ->
     exists z, cells (mem s) !! a = Some (Obj z)) ->
  (forall t, t < k ->
     exists y, cells (mem s) !! (src + t) = Some (Obj y) /\
               move_throws y = false) ->
  exists s',
    std_move src (src + k) d s = Ret (d + k) s' /\
    this s' = this s /\
    (forall a, a < d \/ src + k <= a ->
               cells (mem s') !! a = cells (mem s) !! a) /\
    (forall t y, t < k ->
                 cells (mem s) !! (src + t) = Some (Obj y) ->
                 cells (mem s') !! (d + t) = Some (Obj y)) /\
    (forall a, d + k <= a < src + k ->
               exists z, cells (mem s') !! a = Some (Obj z)).
Proof.
  intros Hgap Hobj Hsrc.
  destruct (move_down_ok d src k Hgap 0 s) as (s' & Hrun & Hthis & Hout & Hin & Htail).
  { intros a Ha. apply Hobj. lia. }
  { intros t Ht. apply Hsrc. lia. }
  exists s'. split.
  { unfold std_move, distance, bind.
    replace (src <=? src + k) with true by (symmetry; apply Nat.leb_le; lia).
    unfold ret at 1. replace (src + k - src) with k by lia.
    rewrite Hrun. reflexivity. }
  split; [exact Hthis|]. split.
  { intros a Ha. apply Hout. lia. }
  split.
  { intros t y Ht. apply Hin. lia. }
  intros a Ha. apply Htail. lia.
Qed.

Lemma destroy_n_avail n : forall p s s',
  destroy_n n p s = Ret tt s' ->
  avail (mem s') = avail (mem s) /\
  length (cells (mem s')) = length (cells (mem s)).
Proof.
  induction n as [|n IH]; intros p s s'; simpl.
  - intros [= <-]. split; reflexivity.
  - unfold bind, destroy_at.
    destruct (cells (mem s) !! p) as [[| |v|]|]; try discriminate;
      unfold put_cells, emit; simpl; intros Hrun;
      destruct (IH _ _ _ Hrun) as [Hav Hlen]; simpl in Hav, Hlen;
      rewrite length_insert in Hlen; split; assumption.
Qed.

(** Destroying the constructed slots [p, p + n): they become raw. *)
Lemma destroy_n_raw n : forall p s,
  (forall j, j < n -> exists x, cells (mem s) !! (p + j) = Some (Obj x)) ->
  exists s',
    destroy_n n p s = Ret tt s' /\
    this s' = this s /\
    (forall a, a < p \/ p + n <= a ->
               cells (mem s') !! a = cells (mem s) !! a) /\
    (forall j, j < n -> cells (mem s') !! (p + j) = Some Raw).
Proof.
  induction n as [|n IH]; intros p s Hobj; simpl.
  - exists s. repeat split; auto. intros; lia.
  - destruct (Hobj 0 ltac:(lia)) as [x Hx]. rewrite Nat.add_0_r in Hx.
    unfold bind, destroy_at. rewrite Hx.
    unfold put_cells, emit. simpl. set (s1 := State _ _).
    destruct (IH (S p) s1) as (s' & Hrun & Hthis & Hout & Hraw).
    { intros j Hj. replace (S p + j) with (p + S j) by lia.
      simpl. rewrite list_lookup_insert_ne by lia. apply Hobj. lia. }
    exists s'. split; [exact Hrun|]. split; [exact Hthis|]. split.
    + intros a Ha. rewrite Hout by lia. simpl.
      apply list_lookup_insert_ne. lia.
    + intros j Hj. destruct j as [|j].
      * rewrite Nat.add_0_r. rewrite Hout by lia. simpl.
        apply list_lookup_insert_eq. eapply lookup_lt_Some. exact Hx.
      * replace (p + S j) with (S p + j) by lia. apply Hraw. lia.
Qed.

Lemma erase_at_end_avail pos s s' :
  erase_at_end pos s = Ret tt s' ->
  avail (mem s') = avail (mem s) /\
  length (cells (mem s')) = length (cells (mem s)).
Proof.
  unfold erase_at_end, bind at 1, get_this.
  destruct (finish_ (this s) - pos =? 0).
  - unfold ret. intros Heq. inversion Heq. subst. split; reflexivity.
  - unfold bind at 1.
    destruct (std_destroy pos (finish_ (this s)) s)
      as [[] s3|e s3|] eqn:Hd; try discriminate.
    unfold set_finish, bind, get_this, put_this. intros Heq.
    inversion Heq. simpl. revert Hd.
    unfold std_destroy, distance, bind.
    destruct (pos <=? finish_ (this s)); [|discriminate].
    unfold ret at 1. intros Hd. apply (destroy_n_avail _ _ _ _ Hd).
Qed.

(** [erase_at_end(position)] for a position inside [begin(), end()]. *)
Lemma erase_at_end_ok st fi eo hp (pos : nat) :
  pos <= fi ->
  (forall a, pos <= a < fi -> exists x, cells hp !! a = Some (Obj x)) ->
  exists s',
    erase_at_end pos (State (Vec st fi eo) hp) = Ret tt s' /\
    this s' = Vec st pos eo /\
    (forall a, a < pos \/ fi <= a ->
               cells (mem s') !! a = cells hp !! a) /\
    (forall a, pos <= a < fi -> cells (mem s') !! a = Some Raw).
Proof.
  intros Hle Hobj. unfold erase_at_end, bind at 1, get_this. simpl.
  destruct (fi - pos =? 0) eqn:E.
  - apply Nat.eqb_eq in E. assert (pos = fi) as -> by lia.
    eexists. split; [reflexivity|]. simpl. repeat split; auto.
    intros a Ha. lia.
  - apply Nat.eqb_neq in E.
    destruct (destroy_n_raw (fi - pos) pos (State (Vec st fi eo) hp))
      as (s1 & Hrun & Hthis & Hout & Hraw).
    { intros j Hj. apply Hobj. lia. }
    exists (State (Vec st pos eo) (mem s1)). split.
    { unfold bind, std_destroy, distance, bind.
      replace (pos <=? fi) with true by (symmetry; apply Nat.leb_le; lia).
      unfold ret. rewrite Hrun.
      unfold set_finish, bind, get_this, put_this. rewrite Hthis.
      reflexivity. }
    split; [reflexivity|]. split.
    + intros a Ha. apply Hout. lia.
    + intros a Ha. replace a with (pos + (a - pos)) by lia.
      apply Hraw. lia.
Qed.

(** X5: [erase(pos)] for an iterator to the element at index [i] of a
    well-formed vector, when the move assignments of the elements behind
    it do not throw: the element is removed and the order of the others is
    kept, [size()] drops by one, [capacity()] and the storage are
    unchanged, no call goes to the allocator's account, the iterator
    returned is [begin() + i], and the result is well-formed. *)
Theorem erase_removes_element s (l : list T) (i : nat) x :
  wf s ->
  contents s = Some l ->
  l !! i = Some x ->
  (forall t y, i < t -> l !! t = Some y -> move_throws y = false) ->
  exists s',
    erase (start_ (this s) + i) s = Ret (start_ (this s) + i) s' /\
    contents s' = Some (take i l ++ drop (S i) l) /\
    size (this s') = (size (this s) - 1)%Z /\
    start_ (this s') = start_ (this s) /\
    capacity (this s') = capacity (this s) /\
    wf s'.
Proof.
  intros Hwf Hl Hx Hmv.
  destruct s as [[st fi eo] hp]. simpl in *.
  destruct (wf_slots _ _ _ _ _ Hwf Hl)
    as (Hlen & Hobj & Hraw & Hin & Hcap & Hord & Hnull).
  pose proof (lookup_lt_Some _ _ _ Hx) as Hi.
  set (s0 := State (Vec st fi eo) hp).
  assert (Hmove : exists s1,
    ((if negb (S (st + i) =? fi)
      then (std_move (S (st + i)) fi (st + i);; ret tt) else ret tt) s0
       = Ret tt s1) /\
    this s1 = Vec st fi eo /\
    (forall a, a < st + i \/ fi <= a ->
               cells (mem s1) !! a = cells hp !! a) /\
    (forall t y, t < fi - S (st + i) ->
                 cells hp !! (S (st + i) + t) = Some (Obj y) ->
                 cells (mem s1) !! (st + i + t) = Some (Obj y)) /\
    (exists z, cells (mem s1) !! (fi - 1) = Some (Obj z))).
  { destruct (S (st + i) =? fi) eqn:E.
    - apply Nat.eqb_eq in E. exists s0. simpl.
      split; [reflexivity|]. split; [reflexivity|]. split; [auto|].
      split; [intros; lia|].
      exists x. replace (fi - 1) with (st + i) by lia. apply Hobj, Hx.
    - apply Nat.eqb_neq in E. simpl.
      assert (Hfi : fi = S (st + i) + (fi - S (st + i))) by lia.
      destruct (std_move_down_ok (st + i) (S (st + i)) (fi - S (st + i)) s0)
        as (s1 & Hrun & Hthis & Hout & Hin' & Htail).
      { lia. }
      { intros a Ha.
        destruct (lookup_lt_is_Some_2 l (a - st) ltac:(lia)) as [z Hz].
        exists z. replace a with (st + (a - st)) by lia. apply Hobj, Hz. }
      { intros t Ht.
        destruct (lookup_lt_is_Some_2 l (S (i + t)) ltac:(lia)) as [z Hz].
        exists z. split.
        - replace (S (st + i) + t) with (st + S (i + t)) by lia.
          apply Hobj, Hz.
        - apply (Hmv (S (i + t)) z); [lia|exact Hz]. }
      rewrite <- Hfi in Hrun.
      exists s1. split.
      { unfold bind. rewrite Hrun. reflexivity. }
      split; [exact Hthis|]. split.
      { intros a Ha. apply Hout. simpl. lia. }
      split; [exact Hin'|].
      apply Htail. lia. }
  destruct Hmove as (s1 & Hrun & Hthis & Hout & Hmoved & [z Hlast]).
  destruct s1 as [v1 hp1]. cbn [this mem] in Hthis, Hout, Hmoved, Hlast.
  subst v1.
  eexists. split.
  { unfold erase, bind at 1, get_this. fold s0.
    cbn -[Nat.eqb Nat.add Nat.sub].
    replace (st + (st + i - st)) with (st + i) by lia.
    unfold bind at 1. rewrite Hrun.
    replace (fi =? 0) with false by (symmetry; apply Nat.eqb_neq; lia).
    unfold bind, set_finish, bind, get_this, put_this, destroy_at. simpl.
    rewrite Hlast. reflexivity. }
  assert (Hlen' : length (take i l ++ drop (S i) l) = fi - 1 - st).
  { rewrite length_app, length_take_le, length_drop by lia. lia. }
  assert (Hl' : objs_at (<[fi - 1 := Raw]> (cells hp1)) st (fi - 1 - st)
                = Some (take i l ++ drop (S i) l)).
  { rewrite <- Hlen'. apply objs_at_intro. intros t y Ht.
    pose proof (lookup_lt_Some _ _ _ Ht) as Hlt. rewrite Hlen' in Hlt.
    rewrite list_lookup_insert_ne by lia.
    destruct (decide (t < i)) as [Hti|Hti].
    - rewrite lookup_app_l in Ht by (rewrite length_take_le; lia).
      rewrite lookup_take_lt in Ht by lia.
      rewrite Hout by lia. apply Hobj, Ht.
    - rewrite lookup_app_r in Ht by (rewrite length_take_le; lia).
      rewrite length_take_le in Ht by lia. rewrite lookup_drop in Ht.
      replace (st + t) with (st + i + (t - i)) by lia.
      apply Hmoved; [lia|].
      replace (S (st + i) + (t - i)) with (st + (S i + (t - i))) by lia.
      apply Hobj, Ht. }
  unfold contents, size, capacity, nsize, ncapacity. simpl.
  split; [exact Hl'|]. split; [lia|]. split; [reflexivity|].
  split; [reflexivity|].
  apply (wf_intro _ _ _ _ (take i l ++ drop (S i) l)); simpl; try lia.
  - exact Hl'.
  - intros j Hj. destruct j as [|j].
    + rewrite Nat.add_0_r. apply list_lookup_insert_eq.
      eapply lookup_lt_Some. exact Hlast.
    + rewrite list_lookup_insert_ne by lia. rewrite Hout by lia.
      replace (fi - 1 + S j) with (fi + j) by lia. apply Hraw. lia.
  - assert (Hb : blocks (State (Vec st fi eo) hp1) = blocks s0).
    { eapply quiet_run; [|exact Hrun].
      destruct (negb _); [|apply quiet_ret].
      apply quiet_bind; [apply quiet_std_move|intros _; apply quiet_ret]. }
    owns_from Hwf. exact Hb.
Qed.

(** X6: [erase(first, last)] for the iterators to the indices [i <= j <=
    size()] of a well-formed vector, when the move assignments of the
    elements from [j] on do not throw: the elements of [i, j) are removed
    and the order of the others is kept, [capacity()] and the storage are
    unchanged, the iterator returned is [begin() + i], and the result is
    well-formed.  With [i = j] nothing is removed. *)
Theorem erase_range_removes_elements s (l : list T) (i j : nat) :
  wf s ->
  contents s = Some l ->
  i <= j <= length l ->
  (forall t y, j <= t -> l !! t = Some y -> move_throws y = false) ->
  exists s',
    erase_range (start_ (this s) + i) (start_ (this s) + j) s
      = Ret (start_ (this s) + i) s' /\
    contents s' = Some (take i l ++ drop j l) /\
    start_ (this s') = start_ (this s) /\
    capacity (this s') = capacity (this s) /\
    wf s' /\
    (i = j -> s' = s).
Proof.
  intros Hwf Hl Hij Hmv.
  destruct s as [[st fi eo] hp]. simpl in *.
  destruct (wf_slots _ _ _ _ _ Hwf Hl)
    as (Hlen & Hobj & Hraw & Hin & Hcap & Hord & Hnull).
  set (s0 := State (Vec st fi eo) hp).
  unfold erase_range, bind at 1, get_this. fold s0. simpl.
  replace (st + (st + i - st)) with (st + i) by lia.
  replace (st + (st + j - st)) with (st + j) by lia.
  destruct (st + i =? st + j) eqn:Eij.
  { apply Nat.eqb_eq in Eij. assert (i = j) as <- by lia.
    exists s0. simpl. split; [reflexivity|].
    rewrite take_drop. split; [exact Hl|]. split; [reflexivity|].
    split; [reflexivity|]. split; [exact Hwf|reflexivity]. }
  apply Nat.eqb_neq in Eij. simpl.
  assert (Hmove : exists s1,
    ((if negb (st + j =? fi)
      then (std_move (st + j) fi (st + i);; ret tt) else ret tt) s0
       = Ret tt s1) /\
    this s1 = Vec st fi eo /\
    (forall a, a < st + i \/ fi <= a ->
               cells (mem s1) !! a = cells hp !! a) /\
    (forall t y, t < fi - (st + j) ->
                 cells hp !! (st + j + t) = Some (Obj y) ->
                 cells (mem s1) !! (st + i + t) = Some (Obj y)) /\
    (forall a, st + i + (fi - (st + j)) <= a < fi ->
               exists z, cells (mem s1) !! a = Some (Obj z))).
  { assert (Hall : forall a, st <= a < fi ->
                     exists z, cells hp !! a = Some (Obj z)).
    { intros a Ha.
      destruct (lookup_lt_is_Some_2 l (a - st) ltac:(lia)) as [z Hz].
      exists z. replace a with (st + (a - st)) by lia. apply Hobj, Hz. }
    destruct (st + j =? fi) eqn:E.
    - apply Nat.eqb_eq in E. exists s0. simpl.
      split; [reflexivity|]. split; [reflexivity|]. split; [auto|].
      split; [intros; lia|].
      intros a Ha. apply Hall. lia.
    - apply Nat.eqb_neq in E. simpl.
      assert (Hfi : fi = st + j + (fi - (st + j))) by lia.
      destruct (std_move_down_ok (st + i) (st + j) (fi - (st + j)) s0)
        as (s1 & Hrun & Hthis & Hout & Hin' & Htail).
      { lia. }
      { intros a Ha. apply Hall. lia. }
      { intros t Ht.
        destruct (lookup_lt_is_Some_2 l (j + t) ltac:(lia)) as [z Hz].
        exists z. split.
        - replace (st + j + t) with (st + (j + t)) by lia.
          apply Hobj, Hz.
        - apply (Hmv (j + t) z); [lia|exact Hz]. }
      rewrite <- Hfi in Hrun.
      exists s1. split.
      { unfold bind. rewrite Hrun. reflexivity. }
      split; [exact Hthis|]. split.
      { intros a Ha. apply Hout. simpl. lia. }
      split; [exact Hin'|].
      intros a Ha. apply Htail. lia. }
  destruct Hmove as (s1 & Hrun & Hthis & Hout & Hmoved & Htail).
  destruct s1 as [v1 hp1]. simpl in Hthis, Hout, Hmoved, Htail. subst v1.
  destruct (erase_at_end_ok st fi eo hp1 (st + i + (fi - (st + j))))
    as (s2 & Hrun2 & Hthis2 & Hout2 & Hraw2).
  { lia. }
  { exact Htail. }
  exists s2. split.
  { unfold bind at 1. unfold bind at 1. rewrite Hrun.
    unfold bind. rewrite Hrun2. reflexivity. }
  destruct s2 as [v2 hp2]. simpl in Hthis2, Hout2, Hraw2. subst v2.
  assert (Hlen' : length (take i l ++ drop j l)
                  = st + i + (fi - (st + j)) - st).
  { rewrite length_app, length_take_le, length_drop by lia. lia. }
  assert (Hl' : objs_at (cells hp2) st (st + i + (fi - (st + j)) - st)
                = Some (take i l ++ drop j l)).
  { rewrite <- Hlen'. apply objs_at_intro. intros t y Ht.
    pose proof (lookup_lt_Some _ _ _ Ht) as Hlt. rewrite Hlen' in Hlt.
    rewrite Hout2 by lia.
    destruct (decide (t < i)) as [Hti|Hti].
    - rewrite lookup_app_l in Ht by (rewrite length_take_le; lia).
      rewrite lookup_take_lt in Ht by lia.
      rewrite Hout by lia. apply Hobj, Ht.
    - rewrite lookup_app_r in Ht by (rewrite length_take_le; lia).
      rewrite length_take_le in Ht by lia. rewrite lookup_drop in Ht.
      replace (st + t) with (st + i + (t - i)) by lia.
      apply Hmoved; [lia|].
      replace (st + j + (t - i)) with (st + (j + (t - i))) by lia.
      apply Hobj, Ht. }
  unfold contents, capacity, nsize, ncapacity. simpl.
  split; [exact Hl'|]. split; [reflexivity|].
  split; [reflexivity|]. split; [|intros; lia].
  apply (wf_intro _ _ _ _ (take i l ++ drop j l)); simpl; try lia.
  - exact Hl'.
  - intros t Ht.
    destruct (decide (st + i + (fi - (st + j)) + t < fi)) as [Hlt|Hge].
    + apply Hraw2. lia.
    + rewrite Hout2 by lia. rewrite Hout by lia.
      replace (st + i + (fi - (st + j)) + t)
        with (fi + (st + i + (fi - (st + j)) + t - fi)) by lia.
      apply Hraw. lia.
  - assert (Hb : blocks (State (Vec st fi eo) hp1) = blocks s0).
    { eapply quiet_run; [|exact Hrun].
      destruct (negb _); [|apply quiet_ret].
      apply quiet_bind; [apply quiet_std_move|intros _; apply quiet_ret]. }
    pose proof (quiet_run _ _ _ _ (quiet_erase_at_end _) Hrun2) as Hb2.
    rewrite Hb in Hb2. owns_from Hwf. exact Hb2.
Qed.

(** ** Shrinking *)

(** [erase_at_end(begin() + n)] on a well-formed vector with [n <=
    size()]: the first [n] elements stay, the others are destroyed. *)
Lemma truncate_ok st fi eo hp (l : list T) (n : nat) :
  wf (State (Vec st fi eo) hp) ->
  contents (State (Vec st fi eo) hp) = Some l ->
  n <= length l ->
  exists s',
    erase_at_end (st + n) (State (Vec st fi eo) hp) = Ret tt s' /\
    this s' = Vec st (st + n) eo /\
    contents s' = Some (take n l) /\
    wf s'.
Proof.
  intros Hwf Hl Hn.
  destruct (wf_slots _ _ _ _ _ Hwf Hl)
    as (Hlen & Hobj & Hraw & Hin & Hcap & Hord & Hnull).
  destruct (erase_at_end_ok st fi eo hp (st + n))
    as (s' & Hrun & Hthis & Hout & Hraw').
  { lia. }
  { intros a Ha.
    destruct (lookup_lt_is_Some_2 l (a - st) ltac:(lia)) as [z Hz].
    exists z. replace a with (st + (a - st)) by lia. apply Hobj, Hz. }
  exists s'. split; [exact Hrun|]. split; [exact Hthis|].
  destruct s' as [v' hp']. simpl in Hthis, Hout, Hraw'. subst v'.
  assert (Hl' : objs_at (cells hp') st (st + n - st) = Some (take n l)).
  { replace (st + n - st) with (length (take n l))
      by (rewrite length_take_le; lia).
    apply objs_at_intro. intros t y Ht.
    pose proof (lookup_lt_Some _ _ _ Ht) as Hlt.
    rewrite length_take_le in Hlt by lia.
    rewrite lookup_take_lt in Ht by lia.
    rewrite Hout by lia. apply Hobj, Ht. }
  split; [exact Hl'|].
  apply (wf_intro _ _ _ _ (take n l)); simpl; try lia.
  - exact Hl'.
  - intros t Ht.
    destruct (decide (st + n + t < fi)) as [Hlt|Hge].
    + apply Hraw'. lia.
    + rewrite Hout by lia.
      replace (st + n + t) with (fi + (st + n + t - fi)) by lia.
      apply Hraw. lia.
  - pose proof (quiet_run _ _ _ _ (quiet_erase_at_end _) Hrun) as Hb.
    owns_from Hwf. exact Hb.
Qed.

(** ** Growth by reallocation *)

(** [realloc_insert(begin() + i, value)] when it succeeds: a reference to
    any object (of this vector or not), a copy constructor and move
    constructors that do not throw, room below [max_size()] and an
    allocator that can provide the new block. *)
Lemma realloc_insert_ok s (l : list T) (i : nat) (r : ref T) (x : T) :
  wf s ->
  contents s = Some l ->
  i <= length l ->
  refers s r x ->
  copy_throws x = false ->
  (forall y, y ∈ l -> move_throws y = false) ->
  (1 <= sizeof_T)%Z ->
  (size (this s) + 1 <= max_size)%Z ->
  (2 * size (this s) + 1 <= avail (mem s))%Z ->
  0 < length (cells (mem s)) ->
  exists s',
    realloc_insert (start_ (this s) + i) (ACopy r) s = Ret tt s' /\
    start_ (this s') = length (cells (mem s)) /\
    contents s' = Some (take i l ++ x :: drop i l) /\
    capacity (this s') =
      Z.min (Z.max (1 + size (this s)) (2 * size (this s))) max_size /\
    wf s' /\
    (forall a, start_ (this s) <= a < end_of_storage_ (this s) ->
               cells (mem s') !! a = Some Free) /\
    (forall a, a < length (cells (mem s)) ->
               ~ start_ (this s) <= a < end_of_storage_ (this s) ->
               cells (mem s') !! a = cells (mem s) !! a).
Proof.
  intros Hwf Hl Hi Hr Hcopy Hmove Hsizeof Hroom Hav Hnull.
  destruct s as [[st fi eo] hp]. simpl in *.
  destruct (wf_slots _ _ _ _ _ Hwf Hl)
    as (Hlen & Hobj & Hraw & Hin & Hcap & Hord & Hz).
  set (s0 := State (Vec st fi eo) hp) in *.
  set (k := length l) in *. set (base := length (cells hp)) in *.
  assert (Hfi : fi = st + k) by lia.
  assert (Hsize : size (this s0) = Z.of_nat k)
    by (unfold size, nsize; simpl; lia).
  unfold size, nsize in Hroom, Hav. simpl in Hroom, Hav.
  replace (fi - st) with k in Hroom, Hav by lia.
  assert (Hold : forall t y, l !! t = Some y ->
                   cells hp !! (st + t) = Some (Obj y) /\ st + t < base).
  { intros t y Ht. pose proof (Hobj _ _ Ht) as Hc.
    split; [exact Hc|]. eapply lookup_lt_Some. exact Hc. }
  assert (Hbase : st < eo -> eo <= base).
  { intros Hk. pose proof (Hin (eo - 1) ltac:(lia)). lia. }
  (* the new capacity *)
  set (n := Z.min (Z.max (1 + Z.of_nat k) (2 * Z.of_nat k)) max_size).
  assert (Hn : (Z.of_nat k + 1 <= n <= max_size)%Z /\
               (n <= 2 * Z.of_nat k + 1)%Z) by (unfold n; lia).
  assert (Hcl : check_len 1 s0 = Ret n s0).
  { destruct (check_len_without_wrap s0 1 Hsizeof ltac:(lia)) as [Hfit _].
    - rewrite Hsize. lia.
    - rewrite Hsize in Hfit. apply Hfit. lia. }
  pose proof max_size_le_alloc as Hma.
  assert (Hnr : k + 1 <= Z.to_nat n) by lia.
  (* allocation, then the new element *)
  assert (Hcapn : Z.of_nat (Z.to_nat n) =
            Z.min (Z.max (1 + Z.of_nat k) (2 * Z.of_nat k)) max_size) by lia.
  set (Pcap := Z.of_nat (Z.to_nat n) = _) in Hcapn. clearbody n.
  assert (Hn0 : (0 < n)%Z) by lia.
  assert (Hnmax : (n <= alloc_max_size)%Z) by lia.
  assert (Hnav : (n <= avail (mem s0))%Z) by (simpl; lia).
  pose proof (allocate_ok s0 n Hn0 Hnmax Hnav) as Hal.
  set (s1 := State _ _) in Hal.
  assert (Hc1old : forall a, a < base ->
                     cells (mem s1) !! a = cells hp !! a).
  { intros a Ha. simpl. apply lookup_app_l. exact Ha. }
  assert (Hc1new : forall t, t < Z.to_nat n ->
                     cells (mem s1) !! (base + t) = Some Raw).
  { intros t Ht. simpl. rewrite lookup_app_r by (unfold base; lia).
    apply lookup_replicate_2. unfold base. lia. }
  assert (Hr1 : refers s1 r x).
  { apply (refers_frame s0); [exact Hr|]. intros a y Ha.
    rewrite Hc1old; [exact Ha|]. eapply lookup_lt_Some. exact Ha. }
  pose proof (construct_ref_ok (base + i) r x s1 Hr1 Hcopy
                ltac:(apply Hc1new; lia)) as Hco.
  set (s2 := State _ _) in Hco.
  assert (Hc2 : forall a, a <> base + i ->
                  cells (mem s2) !! a = cells (mem s1) !! a).
  { intros a Ha. simpl. apply list_lookup_insert_ne. lia. }
  assert (Hc2i : cells (mem s2) !! (base + i) = Some (Obj x)).
  { simpl. apply list_lookup_insert_eq. eapply lookup_lt_Some.
    apply Hc1new. lia. }
  (* the elements before the position *)
  destruct (uninit_move_ok st base i 0 s2)
    as (s3 & Hm1 & Hthis3 & Hout3 & Hin3).
  { intros t Ht. destruct (lookup_lt_is_Some_2 l t) as [y Hy]; [lia|].
    destruct (Hold _ _ Hy) as [Hyc Hyb].
    exists y. split; [|apply Hmove; eapply list_elem_of_lookup_2; exact Hy].
    rewrite Hc2 by lia. rewrite Hc1old by lia. exact Hyc. }
  { intros t Ht. rewrite Hc2 by lia. apply Hc1new. lia. }
  { intros t t' Ht Ht'.
    destruct (lookup_lt_is_Some_2 l t) as [y Hy]; [lia|].
    destruct (Hold _ _ Hy) as [_ Hyb]. lia. }
  (* the elements from the position on *)
  destruct (uninit_move_ok (st + i) (S (base + i)) (k - i) 0 s3)
    as (s4 & Hm2 & Hthis4 & Hout4 & Hin4).
  { intros t Ht. destruct (lookup_lt_is_Some_2 l (i + t)) as [y Hy]; [lia|].
    destruct (Hold _ _ Hy) as [Hyc Hyb].
    exists y. split; [|apply Hmove; eapply list_elem_of_lookup_2; exact Hy].
    rewrite Hout3 by lia. rewrite Hc2 by lia. rewrite Hc1old by lia.
    replace (st + i + t) with (st + (i + t)) by lia. exact Hyc. }
  { intros t Ht. rewrite Hout3.
    - rewrite Hc2 by lia.
      replace (S (base + i) + t) with (base + (i + 1 + t)) by lia.
      apply Hc1new. lia.
    - lia.
    - destruct (lookup_lt_is_Some_2 l (k - 1)) as [y Hy]; [lia|].
      destruct (Hold _ _ Hy) as [_ Hyb]. lia. }
  { intros t t' Ht Ht'.
    destruct (lookup_lt_is_Some_2 l (i + t)) as [y Hy]; [lia|].
    destruct (Hold _ _ Hy) as [_ Hyb]. lia. }
  (* the old elements are destroyed and the old block released *)
  destruct (destroy_n_raw k st s4) as (s5 & Hd & Hthis5 & Hout5 & Hraw5).
  { intros t Ht. destruct (lookup_lt_is_Some_2 l t) as [y Hy]; [lia|].
    destruct (Hold _ _ Hy) as [Hyc Hyb].
    exists (moved_from y). destruct (decide (t < i)) as [Hlt|Hge].
    - rewrite Hout4 by lia. apply (Hin3 t y); [lia|].
      rewrite Hc2 by lia. rewrite Hc1old by lia. exact Hyc.
    - replace (st + t) with (st + i + (t - i)) by lia.
      apply (Hin4 (t - i) y); [lia|].
      rewrite Hout3 by lia. rewrite Hc2 by lia. rewrite Hc1old by lia.
      replace (st + i + (t - i)) with (st + t) by lia. exact Hyc. }
  assert (Hb5 : blocks s5 = (base, n) :: blocks s0).
  { rewrite (quiet_run _ _ _ _ (quiet_destroy_n _ _) Hd).
    rewrite (quiet_run _ _ _ _ (quiet_uninit_loop _ _ _ _) Hm2).
    rewrite (quiet_run _ _ _ _ (quiet_uninit_loop _ _ _ _) Hm1).
    unfold blocks, s2, s1. simpl. rewrite !held_blocks_snoc. reflexivity. }
  destruct (deallocate_ok s5 st (eo - st))
    as (s6 & Hde & Hthis6 & Hout6 & Hfree6).
  { destruct (wf_owns _ Hwf) as [Hst|[_ Hheld]]; [left; exact Hst|right].
    rewrite Hb5. right. exact Hheld. }
  assert (Hb6 : In (base, n) (blocks s6)).
  { apply (deallocate_keeps_block _ _ _ _ _ Hde).
    - rewrite Hb5. left. reflexivity.
    - simpl. destruct (wf_block_in_heap _ Hwf) as [_ Hlt]. simpl in Hlt.
      fold base in Hlt. lia. }
  assert (Hlast : 0 < k -> st + k <= base).
  { intros Hk. destruct (lookup_lt_is_Some_2 l (k - 1)) as [z Hz']; [lia|].
    destruct (Hold _ _ Hz') as [_ Hzb]. lia. }
  assert (Hfinal : forall a, base <= a ->
                     cells (mem s6) !! a = cells (mem s4) !! a).
  { intros a Ha. destruct (decide (st < eo)) as [Hse|Hse].
    - specialize (Hbase Hse). rewrite Hout6 by lia. apply Hout5. lia.
    - rewrite Hout6 by lia. apply Hout5. lia. }
  assert (Hspare4 : forall a, a < base -> fi <= a \/ a < st ->
                      cells (mem s4) !! a = cells hp !! a).
  { intros a Ha Hout. rewrite Hout4 by lia. rewrite Hout3 by lia.
    rewrite Hc2 by lia. apply Hc1old, Ha. }
  exists (State (Vec base (S (base + i) + (0 + (k - i))) (base + Z.to_nat n))
                (mem s6)).
  assert (Hl' : objs_at (cells (mem s6)) base
                  (S (base + i) + (0 + (k - i)) - base)
                = Some (take i l ++ x :: drop i l)).
  { replace (S (base + i) + (0 + (k - i)) - base) with
      (length (take i l ++ x :: drop i l)).
    2:{ rewrite length_app, length_take_le by lia. simpl.
        rewrite length_drop. fold k. lia. }
    apply objs_at_intro. intros t y Ht.
    rewrite Hfinal by lia.
    destruct (Nat.lt_trichotomy t i) as [Hlt|[->|Hgt]].
    + rewrite lookup_app_l in Ht by (rewrite length_take_le; lia).
      rewrite lookup_take_lt in Ht by lia.
      destruct (Hold _ _ Ht) as [Hyc Hyb].
      rewrite Hout4; [| lia |].
      * apply (Hin3 t y); [lia|].
        rewrite Hc2 by lia. rewrite Hc1old by lia. exact Hyc.
      * specialize (Hlast ltac:(lia)). lia.
    + rewrite list_lookup_middle in Ht by (rewrite length_take_le; lia).
      injection Ht as <-.
      rewrite Hout4; [| lia |].
      * rewrite Hout3; [exact Hc2i|lia|].
        destruct (decide (k = 0)) as [Hk0|Hk0]; [lia|].
        specialize (Hlast ltac:(lia)). lia.
      * destruct (decide (k = 0)) as [Hk0|Hk0]; [lia|].
        specialize (Hlast ltac:(lia)). lia.
    + rewrite lookup_app_r in Ht by (rewrite length_take_le; lia).
      rewrite length_take_le in Ht by lia.
      replace (t - i) with (S (t - i - 1)) in Ht by lia.
      simpl in Ht. rewrite lookup_drop in Ht.
      destruct (Hold _ _ Ht) as [Hyc Hyb].
      replace (base + t) with (S (base + i) + (t - i - 1)) by lia.
      apply (Hin4 (t - i - 1) y).
      * apply lookup_lt_Some in Ht. fold k in Ht. lia.
      * rewrite Hout3 by lia. rewrite Hc2 by lia. rewrite Hc1old by lia.
        replace (st + i + (t - i - 1)) with (st + (i + (t - i - 1))) by lia.
        exact Hyc. }
  split; [|split; [|split; [|split; [|split; [|split]]]]].
  - unfold realloc_insert. unfold bind at 1. rewrite Hcl.
    unfold bind at 1, get_this. simpl this. cbv zeta.
    unfold bind at 1. simpl start_. simpl finish_. simpl end_of_storage_.
    rewrite Hal. change (length (cells (mem s0))) with base.
    replace (st + i - st) with i by lia.
    unfold bind at 1. rewrite Hco.
    unfold bind at 1, uninitialized_move at 1, distance, bind at 1.
    replace (st <=? st + i) with true by (symmetry; apply Nat.leb_le; lia).
    unfold ret at 1. replace (st + i - st) with i by lia. rewrite Hm1.
    unfold uninitialized_move, distance, bind at 1, bind at 1.
    replace (st + i <=? fi) with true by (symmetry; apply Nat.leb_le; lia).
    unfold ret at 1. replace (fi - (st + i)) with (k - i) by lia.
    replace (base + (0 + i)) with (base + i) by lia. rewrite Hm2.
    unfold bind at 1, std_destroy, distance, bind at 1.
    replace (st <=? fi) with true by (symmetry; apply Nat.leb_le; lia).
    unfold ret at 1. replace (fi - st) with k by lia. rewrite Hd.
    unfold bind. rewrite Hde. reflexivity.
  - reflexivity.
  - exact Hl'.
  - unfold capacity, ncapacity, size, nsize. simpl.
    replace (fi - st) with k by lia. unfold Pcap in Hcapn.
    rewrite <- Hcapn. lia.
  - apply (wf_intro _ _ _ _ (take i l ++ x :: drop i l)); simpl; try lia.
    + exact Hl'.
    + intros t Ht. rewrite Hfinal by lia.
      rewrite Hout4 by lia. rewrite Hout3 by lia. rewrite Hc2 by lia.
      match goal with
      | |- _ !! ?a = _ => replace a with (base + (S (i + (k - i)) + t)) by lia
      end.
      apply Hc1new. lia.
    + right. unfold capacity, ncapacity. simpl. split; [lia|].
      replace (Z.of_nat (base + Z.to_nat n - base)) with n by lia.
      exact Hb6.
  - intros a Ha. simpl.
    assert (Hst : st <> 0) by lia.
    apply (Hfree6 Hst); [lia|].
    destruct (decide (a < fi)) as [Hlt|Hge].
    + eapply lookup_lt_Some. replace a with (st + (a - st)) by lia.
      apply Hraw5. lia.
    + eapply lookup_lt_Some. rewrite Hout5 by lia.
      rewrite Hspare4 by lia.
      replace a with (fi + (a - fi)) by lia. apply Hraw. lia.
  - intros a Ha Hout. simpl. rewrite Hout6 by lia. rewrite Hout5 by lia.
    apply Hspare4; lia.
Qed.

(** X7: [push_back(value)] on a well-formed vector without spare capacity
    ([size() == capacity()]) when it succeeds (the copy constructor of the
    value and the move constructors of the elements do not throw, [size() +
    1 <= max_size()], the allocator can provide the block): the value, read
    before any element is moved (so it may be an element of the vector
    itself), becomes the new last element behind the old ones; the elements
    live in a new block, of [min(max(size() + 1, 2 * size()), max_size())]
    elements; every slot of the old block has been released; no slot
    outside the old block has changed; the result is well-formed. *)
Theorem push_back_reallocates s (l : list T) (r : ref T) (x : T) :
  wf s ->
  contents s = Some l ->
  finish_ (this s) = end_of_storage_ (this s) ->
  refers s r x ->
  copy_throws x = false ->
  (forall y, y ∈ l -> move_throws y = false) ->
  (1 <= sizeof_T)%Z ->
  (size (this s) + 1 <= max_size)%Z ->
  (2 * size (this s) + 1 <= avail (mem s))%Z ->
  0 < length (cells (mem s)) ->
  exists s',
    push_back r s = Ret tt s' /\
    contents s' = Some (l ++ [x]) /\
    start_ (this s') = length (cells (mem s)) /\
    capacity (this s') =
      Z.min (Z.max (1 + size (this s)) (2 * size (this s))) max_size /\
    wf s' /\
    (forall a, start_ (this s) <= a < end_of_storage_ (this s) ->
               cells (mem s') !! a = Some Free) /\
    (forall a, a < length (cells (mem s)) ->
               ~ start_ (this s) <= a < end_of_storage_ (this s) ->
               cells (mem s') !! a = cells (mem s) !! a).
Proof.
  intros Hwf Hl Hfull Hr Hcopy Hmove Hsizeof Hroom Hav Hnull.
  destruct (realloc_insert_ok s l (length l) r x)
    as (s' & Hrun & Hstart & Hc & Hcap & Hwf' & Hfree & Hframe);
    try assumption; [lia|].
  exists s'. split.
  { unfold push_back, bind at 1, get_this.
    rewrite Hfull, Nat.eqb_refl. simpl negb. cbv iota.
    rewrite <- Hfull, <- Hrun. f_equal.
    destruct s as [[st fi eo] hp]. simpl in *.
    destruct (wf_slots _ _ _ _ _ Hwf Hl) as (Hlen & _ & _ & _ & _ & Hord & _).
    lia. }
  rewrite firstn_all, drop_all in Hc.
  split; [exact Hc|]. split; [exact Hstart|]. split; [exact Hcap|].
  split; [exact Hwf'|]. split; [exact Hfree|exact Hframe].
Qed.

(** X8: [insert(pos, value)] at index [i <= size()] of a well-formed vector
    without spare capacity, when it succeeds (conditions as for
    [push_back]): the value, read before any element is moved (so it may be
    any element of the vector itself), is inserted before the element at
    index [i]; the iterator returned is [begin() + i] in the new block; the
    old block has been released and the result is well-formed. *)
Theorem insert_reallocates s (l : list T) (i : nat) (r : ref T) (x : T) :
  wf s ->
  contents s = Some l ->
  finish_ (this s) = end_of_storage_ (this s) ->
  i <= length l ->
  refers s r x ->
  copy_throws x = false ->
  (forall y, y ∈ l -> move_throws y = false) ->
  (1 <= sizeof_T)%Z ->
  (size (this s) + 1 <= max_size)%Z ->
  (2 * size (this s) + 1 <= avail (mem s))%Z ->
  0 < length (cells (mem s)) ->
  exists s',
    insert (start_ (this s) + i) (ACopy r) s
      = Ret (start_ (this s') + i) s' /\
    contents s' = Some (take i l ++ x :: drop i l) /\
    start_ (this s') = length (cells (mem s)) /\
    capacity (this s') =
      Z.min (Z.max (1 + size (this s)) (2 * size (this s))) max_size /\
    wf s' /\
    (forall a, start_ (this s) <= a < end_of_storage_ (this s) ->
               cells (mem s') !! a = Some Free).
Proof.
  intros Hwf Hl Hfull Hi Hr Hcopy Hmove Hsizeof Hroom Hav Hnull.
  destruct (realloc_insert_ok s l i r x)
    as (s' & Hrun & Hstart & Hc & Hcap & Hwf' & Hfree & _);
    try assumption.
  exists s'. split.
  { unfold insert, bind at 1, get_this.
    rewrite Hfull, Nat.eqb_refl. simpl negb. cbv iota.
    replace (start_ (this s) + i - start_ (this s)) with i by lia.
    unfold bind. rewrite Hrun. reflexivity. }
  split; [exact Hc|]. split; [exact Hstart|]. split; [exact Hcap|].
  split; [exact Hwf'|exact Hfree].
Qed.

(** ** Insertion in place *)

(** A reference that does not point into the slots [lo, hi]. *)
Lemma refers_outside s s' (r : ref T) x (lo hi : nat) :
  refers s r x ->
  outside r lo hi ->
  (forall a, a < lo \/ hi < a -> cells (mem s') !! a = cells (mem s) !! a) ->
  refers s' r x.
Proof.
  destruct r as [v|a]; simpl; [auto|].
  intros Hr Hout Hsame. rewrite Hsame by lia. exact Hr.
Qed.

Lemma unrealloc_insert_ok s (l : list T) (i : nat) (r : ref T) (x : T) :
  wf s ->
  contents s = Some l ->
  finish_ (this s) < end_of_storage_ (this s) ->
  i <= length l ->
  refers s r x ->
  outside r (start_ (this s) + i) (finish_ (this s)) ->
  copy_throws x = false ->
  (forall t y, i <= t -> l !! t = Some y -> copy_throws y = false) ->
  exists s',
    unrealloc_insert (start_ (this s) + i) (ACopy r) s = Ret tt s' /\
    this s' = Vec (start_ (this s)) (S (finish_ (this s)))
                  (end_of_storage_ (this s)) /\
    contents s' = Some (take i l ++ x :: drop i l) /\
    wf s' /\
    (forall a, a < start_ (this s) + i \/ finish_ (this s) < a ->
               cells (mem s') !! a = cells (mem s) !! a).
Proof.
  intros Hwf Hl Hspare Hi Hr Hout Hcopy Hcopies.
  destruct s as [[st fi eo] hp]. simpl in *.
  destruct (wf_slots _ _ _ _ _ Hwf Hl)
    as (Hlen & Hobj & Hraw & Hin & Hcap & Hord & Hnull).
  set (s0 := State (Vec st fi eo) hp) in *.
  set (k := length l) in *.
  assert (Hfi : fi = st + k) by lia.
  pose proof (Hraw 0 ltac:(lia)) as Hfree. rewrite Nat.add_0_r in Hfree.
  assert (Hlen' : length (take i l ++ x :: drop i l) = S fi - st).
  { rewrite length_app, length_take_le by lia. simpl.
    rewrite length_drop. fold k. lia. }
  assert (Hfinish : forall hp' : heap T,
            objs_at (cells hp') st (S fi - st)
              = Some (take i l ++ x :: drop i l) ->
            (forall a, fi < a -> cells hp' !! a = cells hp !! a) ->
            held_blocks (log hp') = held_blocks (log hp) ->
            wf (State (Vec st (S fi) eo) hp')).
  { intros hp' Hc Hsame Hheld.
    apply (wf_intro _ _ _ _ (take i l ++ x :: drop i l)); simpl; try lia.
    - exact Hc.
    - intros t Ht. rewrite Hsame by lia.
      replace (S (fi + t)) with (fi + S t) by lia. apply Hraw. lia.
    - apply (owns_same _ _ _ _ _ _ (wf_owns _ Hwf)). exact Hheld. }
  destruct (decide (i = k)) as [->|Hik].
  - (* at the end: one construction *)
    pose proof (construct_ref_ok fi r x s0 Hr Hcopy Hfree) as Hco.
    set (s1 := State _ _) in Hco.
    assert (Hc : objs_at (cells (mem s1)) st (S fi - st)
                 = Some (take k l ++ x :: drop k l)).
    { rewrite <- Hlen'. apply objs_at_intro. intros t y Ht.
      unfold k in Ht. rewrite firstn_all, drop_all in Ht. simpl.
      apply lookup_snoc_Some in Ht as [[Hlt Ht]|[-> <-]].
      - rewrite list_lookup_insert_ne by (fold k in Hlt; lia).
        apply Hobj, Ht.
      - fold k. rewrite <- Hfi. apply list_lookup_insert_eq.
        eapply lookup_lt_Some. exact Hfree. }
    exists (State (Vec st (S fi) eo) (mem s1)).
    split; [|split; [reflexivity|split; [exact Hc|split]]].
    + unfold unrealloc_insert, bind at 1, get_this.
      change (finish_ (this s0)) with fi.
      replace (st + k =? fi) with true by (symmetry; apply Nat.eqb_eq; lia).
      unfold bind. rewrite Hco. reflexivity.
    + apply Hfinish; [exact Hc| |].
      * intros a Ha. simpl. apply list_lookup_insert_ne. lia.
      * unfold s1. simpl. rewrite held_blocks_snoc. reflexivity.
    + intros a Ha. simpl. apply list_lookup_insert_ne. lia.
  - (* in the middle: copy the last element, shift, rebuild the slot *)
    assert (Hold : forall t y, i <= t -> l !! t = Some y ->
                     cells hp !! (st + t) = Some (Obj y) /\
                     copy_throws y = false).
    { intros t y Hit Ht. split; [apply Hobj, Ht|].
      apply (Hcopies t y Hit Ht). }
    destruct (lookup_lt_is_Some_2 l (k - 1)) as [z Hz]; [lia|].
    destruct (Hold (k - 1) z ltac:(lia) Hz) as [Hzc Hzt].
    replace (st + (k - 1)) with (fi - 1) in Hzc by lia.
    pose proof (construct_copy_ok fi (fi - 1) z s0 Hzc Hzt Hfree) as Hco.
    set (s1 := State _ _) in Hco.
    assert (Hc1 : forall a, a <> fi -> cells (mem s1) !! a = cells hp !! a).
    { intros a Ha. simpl. apply list_lookup_insert_ne. lia. }
    assert (Hc1f : cells (mem s1) !! fi = Some (Obj z)).
    { simpl. apply list_lookup_insert_eq. eapply lookup_lt_Some.
      exact Hfree. }
    destruct (shift_up_ok (k - 1 - i) (fi - 1) s1)
      as (s2 & Hsh & Hthis2 & Hout2 & Hin2); [lia| |].
    { intros a Ha.
      destruct (lookup_lt_is_Some_2 l (a - st)) as [y Hy]; [lia|].
      destruct (Hold (a - st) y ltac:(lia) Hy) as [Hyc Hyt].
      exists y. split; [|exact Hyt].
      rewrite Hc1 by lia. replace (st + (a - st)) with a in Hyc by lia.
      exact Hyc. }
    replace (fi - 1 - (k - 1 - i)) with (st + i) in Hout2, Hin2 by lia.
    destruct (lookup_lt_is_Some_2 l i) as [yi Hyi]; [lia|].
    pose proof (Hobj _ _ Hyi) as Hyic.
    assert (Hpos2 : cells (mem s2) !! (st + i) = Some (Obj yi)).
    { rewrite Hout2 by lia. rewrite Hc1 by lia. exact Hyic. }
    set (s3 := State (this s2)
                 (Heap (<[st + i := Raw]> (cells (mem s2))) (avail (mem s2))
                       (log (mem s2) ++ [EDestroy (st + i)]))).
    assert (Hde : destroy_at (st + i) s2 = Ret tt s3).
    { unfold destroy_at. rewrite Hpos2. reflexivity. }
    assert (Hr3 : refers s3 r x).
    { apply (refers_outside s0 s3 r x (st + i) fi Hr Hout).
      intros a Ha. simpl. rewrite list_lookup_insert_ne by lia.
      rewrite Hout2 by lia. apply Hc1. lia. }
    assert (Hdst3 : cells (mem s3) !! (st + i) = Some Raw).
    { simpl. apply list_lookup_insert_eq. eapply lookup_lt_Some.
      exact Hpos2. }
    pose proof (construct_ref_ok (st + i) r x s3 Hr3 Hcopy Hdst3) as Hco2.
    set (s4 := State _ _) in Hco2.
    assert (Hc : objs_at (cells (mem s4)) st (S fi - st)
                 = Some (take i l ++ x :: drop i l)).
    { rewrite <- Hlen'. apply objs_at_intro. intros t y Ht. simpl.
      destruct (Nat.lt_trichotomy t i) as [Hlt|[->|Hgt]].
      + rewrite lookup_app_l in Ht by (rewrite length_take_le; lia).
        rewrite lookup_take_lt in Ht by lia.
        rewrite !list_lookup_insert_ne by lia.
        rewrite Hout2 by lia. rewrite Hc1 by lia. apply Hobj, Ht.
      + rewrite list_lookup_middle in Ht by (rewrite length_take_le; lia).
        injection Ht as <-.
        apply list_lookup_insert_eq. rewrite length_insert.
        eapply lookup_lt_Some. exact Hpos2.
      + rewrite lookup_app_r in Ht by (rewrite length_take_le; lia).
        rewrite length_take_le in Ht by lia.
        replace (t - i) with (S (t - i - 1)) in Ht by lia.
        simpl in Ht. rewrite lookup_drop in Ht.
        pose proof (lookup_lt_Some _ _ _ Ht) as Hlt. fold k in Hlt.
        pose proof (Hobj _ _ Ht) as Hyc.
        rewrite !list_lookup_insert_ne by lia.
        destruct (decide (t = k)) as [->|Hne].
        * rewrite Hout2 by lia. replace (st + k) with fi by lia.
          rewrite Hc1f.
          replace (i + (k - i - 1)) with (k - 1) in Ht by lia.
          congruence.
        * rewrite Hin2 by lia. rewrite Hc1 by lia.
          replace (st + t - 1) with (st + (i + (t - i - 1))) by lia.
          exact Hyc. }
    exists (State (Vec st (S fi) eo) (mem s4)).
    split; [|split; [reflexivity|split; [exact Hc|split]]].
    + unfold unrealloc_insert, bind at 1, get_this.
      change (finish_ (this s0)) with fi.
      replace (st + i =? fi) with false by (symmetry; apply Nat.eqb_neq; lia).
      unfold bind at 1. rewrite Hco.
      unfold bind at 1, distance.
      replace (st + i <=? fi - 1) with true
        by (symmetry; apply Nat.leb_le; lia).
      unfold ret at 1. replace (fi - 1 - (st + i)) with (k - 1 - i) by lia.
      unfold bind at 1. rewrite Hsh.
      unfold bind at 1. rewrite Hde.
      unfold bind at 1. rewrite Hco2.
      unfold set_finish, bind, get_this, put_this, ret. simpl.
      rewrite Hthis2. reflexivity.
    + apply Hfinish; [exact Hc| |].
      * intros a Ha. simpl.
        rewrite !list_lookup_insert_ne by lia.
        rewrite Hout2 by lia. apply Hc1. lia.
      * pose proof (quiet_run _ _ _ _ (quiet_shift_up _ _) Hsh) as Hb2.
        unfold blocks in Hb2. unfold s4, s3. simpl.
        rewrite !held_blocks_snoc. simpl. rewrite Hb2.
        unfold s1. simpl. rewrite held_blocks_snoc. reflexivity.
    + intros a Ha. simpl. rewrite !list_lookup_insert_ne by lia.
      rewrite Hout2 by lia. apply Hc1. lia.
Qed.

(** X9: [insert(pos, value)] at index [i <= size()] of a well-formed vector
    with spare capacity, for a value that is not one of the vector's own
    elements from index [i] on, when the copy operations involved do not
    throw: the value is inserted before the element at index [i], the
    iterator returned is [begin() + i], [capacity()] and the storage are
    unchanged, no slot outside [pos, end()] changes, and the result is
    well-formed. *)
Theorem insert_in_place s (l : list T) (i : nat) (r : ref T) (x : T) :
  wf s ->
  contents s = Some l ->
  finish_ (this s) < end_of_storage_ (this s) ->
  i <= length l ->
  refers s r x ->
  outside r (start_ (this s) + i) (finish_ (this s)) ->
  copy_throws x = false ->
  (forall t y, i <= t -> l !! t = Some y -> copy_throws y = false) ->
  exists s',
    insert (start_ (this s) + i) (ACopy r) s
      = Ret (start_ (this s) + i) s' /\
    contents s' = Some (take i l ++ x :: drop i l) /\
    start_ (this s') = start_ (this s) /\
    capacity (this s') = capacity (this s) /\
    wf s' /\
    (forall a, a < start_ (this s) + i \/ finish_ (this s) < a ->
               cells (mem s') !! a = cells (mem s) !! a).
Proof.
  intros Hwf Hl Hspare Hi Hr Hout Hcopy Hcopies.
  destruct (unrealloc_insert_ok s l i r x)
    as (s' & Hrun & Hthis & Hc & Hwf' & Hframe); try assumption.
  exists s'. split.
  { unfold insert, bind at 1, get_this.
    replace (finish_ (this s) =? end_of_storage_ (this s)) with false
      by (symmetry; apply Nat.eqb_neq; lia).
    simpl negb. cbv iota.
    replace (start_ (this s) + i - start_ (this s)) with i by lia.
    unfold bind. rewrite Hrun. unfold get_this, ret. rewrite Hthis.
    reflexivity. }
  split; [exact Hc|]. rewrite Hthis.
  split; [reflexivity|]. split; [reflexivity|].
  split; [exact Hwf'|exact Hframe].
Qed.

(** ** [clear] and [resize] *)

(** X10: [clear()] on a well-formed vector destroys every element and
    keeps the storage: the vector is empty afterwards, [begin()] and
    [capacity()] are unchanged, and the result is well-formed. *)
Theorem clear_keeps_capacity s :
  wf s ->
  exists s',
    clear s = Ret tt s' /\
    contents s' = Some [] /\
    size (this s') = 0%Z /\
    start_ (this s') = start_ (this s) /\
    capacity (this s') = capacity (this s) /\
    wf s'.
Proof.
  intros Hwf. pose proof Hwf as (_ & _ & [l Hl] & _).
  destruct s as [[st fi eo] hp].
  destruct (truncate_ok st fi eo hp l 0 Hwf Hl ltac:(lia))
    as (s' & Hrun & Hthis & Hc & Hwf').
  rewrite Nat.add_0_r in Hrun, Hthis.
  exists s'. split.
  { unfold clear, bind, get_this. simpl. exact Hrun. }
  split; [rewrite Hc; reflexivity|].
  rewrite Hthis. unfold size, capacity, nsize, ncapacity. simpl.
  split; [lia|]. split; [reflexivity|]. split; [reflexivity|exact Hwf'].
Qed.

(** X11: [resize(n)] and [resize(n, value)] with [n <= size()] on a
    well-formed vector keep the first [n] elements and destroy the others;
    [capacity()] and the storage are unchanged and the result is
    well-formed; the value is not used. *)
Theorem resize_shrinks s (l : list T) (n : Z) :
  wf s ->
  contents s = Some l ->
  (0 <= n <= size (this s))%Z ->
  exists s',
    resize n s = Ret tt s' /\
    (forall value, resize_fill n value s = Ret tt s') /\
    contents s' = Some (take (Z.to_nat n) l) /\
    size (this s') = n /\
    start_ (this s') = start_ (this s) /\
    capacity (this s') = capacity (this s) /\
    wf s'.
Proof.
  intros Hwf Hl Hn. destruct s as [[st fi eo] hp].
  destruct (wf_slots _ _ _ _ _ Hwf Hl)
    as (Hlen & Hobj & Hraw & Hin & Hcap & Hord & Hnull).
  unfold size, nsize in Hn. simpl in Hn.
  destruct (truncate_ok st fi eo hp l (Z.to_nat n) Hwf Hl ltac:(lia))
    as (s' & Hrun & Hthis & Hc & Hwf').
  assert (Hrun' : (if (n <? Z.of_nat (fi - st))%Z
                   then erase_at_end (st + Z.to_nat n)
                   else ret tt) (State (Vec st fi eo) hp) = Ret tt s').
  { destruct (n <? Z.of_nat (fi - st))%Z eqn:E; [exact Hrun|].
    apply Z.ltb_ge in E. revert Hrun.
    unfold erase_at_end, bind, get_this. simpl.
    replace (fi - (st + Z.to_nat n) =? 0) with true
      by (symmetry; apply Nat.eqb_eq; lia).
    auto. }
  exists s'. split.
  { unfold resize, bind, get_this, size, nsize. simpl.
    replace (Z.of_nat (fi - st) <? n)%Z with false
      by (symmetry; apply Z.ltb_ge; lia).
    exact Hrun'. }
  split.
  { intros value. unfold resize_fill, bind at 1, get_this, size, nsize.
    simpl.
    replace (Z.of_nat (fi - st) <? n)%Z with false
      by (symmetry; apply Z.ltb_ge; lia).
    exact Hrun'. }
  split; [exact Hc|]. rewrite Hthis.
  unfold size, capacity, nsize, ncapacity. simpl.
  split; [lia|]. split; [reflexivity|]. split; [reflexivity|exact Hwf'].
Qed.

(** ** Unchecked access *)

(** X12: on a well-formed vector, [operator[](i)] with [i < size()]
    returns the element at index [i], [front()] the first element and
    [back()] the last one; none of them changes the state. *)
Theorem element_access s (l : list T) :
  wf s ->
  contents s = Some l ->
  (forall i y, l !! i = Some y -> subscript (Z.of_nat i) s = Ret y s) /\
  (forall y, head l = Some y -> front s = Ret y s) /\
  (forall y, last l = Some y -> back s = Ret y s).
Proof.
  intros Hwf Hl. destruct s as [[st fi eo] hp].
  destruct (wf_slots _ _ _ _ _ Hwf Hl)
    as (Hlen & Hobj & Hraw & Hin & Hcap & Hord & Hnull).
  split; [|split].
  - intros i y Hy. unfold subscript, bind, get_this, read. simpl.
    rewrite Nat2Z.id, (Hobj _ _ Hy). reflexivity.
  - intros y Hy. unfold front, bind, get_this, read. simpl.
    rewrite head_lookup in Hy. pose proof (Hobj _ _ Hy) as Hc.
    rewrite Nat.add_0_r in Hc. rewrite Hc. reflexivity.
  - intros y Hy. rewrite last_lookup in Hy.
    pose proof (lookup_lt_Some _ _ _ Hy) as Hlt.
    pose proof (Hobj _ _ Hy) as Hc.
    unfold back, bind, get_this, read. simpl.
    replace (fi =? 0) with false by (symmetry; apply Nat.eqb_neq; lia).
    replace (fi - 1) with (st + pred (length l)) by lia.
    simpl. rewrite Hc. reflexivity.
Qed.

(** ** Filling raw storage *)

Lemma construct_yields_ok p (a : arg T) x s :
  yields s a x ->
  cells (mem s) !! p = Some Raw ->
  construct p a s =
    Ret tt (State (this s)
              (Heap (<[p := Obj x]> (cells (mem s))) (avail (mem s))
                    (log (mem s) ++ [EConstruct p]))).
Proof.
  intros Hy Hp. destruct a as [r|r|o]; simpl in Hy.
  - destruct Hy as [Hr Hx]. apply construct_ref_ok; assumption.
  - contradiction.
  - subst o. unfold construct, eval_arg, bind, ret, place.
    rewrite Hp. reflexivity.
Qed.

Lemma yields_frame s s' (a : arg T) x :
  yields s a x ->
  (forall c y, cells (mem s) !! c = Some (Obj y) ->
               cells (mem s') !! c = Some (Obj y)) ->
  yields s' a x.
Proof.
  destruct a as [r|r|o]; simpl; auto.
  intros [Hr Hx] Hsame. split; [|exact Hx].
  apply (refers_frame s); assumption.
Qed.

(** Constructing [n] objects from the same argument in raw slots. *)
Lemma uninit_const_ok (a : arg T) x d n : forall i s,
  yields s a x ->
  (forall j, i <= j < i + n -> cells (mem s) !! (d + j) = Some Raw) ->
  exists s',
    uninit_loop (fun _ => a) d n i s = Ret (d + (i + n)) s' /\
    this s' = this s /\
    avail (mem s') = avail (mem s) /\
    (forall c, c < d + i \/ d + (i + n) <= c ->
               cells (mem s') !! c = cells (mem s) !! c) /\
    (forall j, i <= j < i + n -> cells (mem s') !! (d + j) = Some (Obj x)).
Proof.
  induction n as [|n IH]; intros i s Hy Hraw; simpl.
  - exists s. rewrite Nat.add_0_r. split; [reflexivity|].
    split; [reflexivity|]. split; [reflexivity|]. split; [auto|].
    intros; lia.
  - pose proof (Hraw i ltac:(lia)) as Hi.
    unfold bind, try_catch.
    rewrite (construct_yields_ok _ _ _ _ Hy Hi).
    set (s1 := State _ _).
    destruct (IH (S i) s1) as (s' & Hrun & Hthis & Hav & Hout & Hin).
    { apply (yields_frame s); [exact Hy|]. intros c y Hc. simpl.
      rewrite list_lookup_insert_ne; [exact Hc|]. congruence. }
    { intros j Hj. simpl. rewrite list_lookup_insert_ne by lia.
      apply Hraw. lia. }
    exists s'. replace (d + (i + S n)) with (d + (S i + n)) by lia.
    split; [exact Hrun|]. split; [exact Hthis|]. split; [exact Hav|].
    split.
    + intros c Hc. rewrite Hout by lia. simpl.
      apply list_lookup_insert_ne. lia.
    + intros j Hj. destruct (decide (j = i)) as [->|Hne].
      * rewrite Hout by lia. simpl. apply list_lookup_insert_eq.
        eapply lookup_lt_Some. exact Hi.
      * apply Hin. lia.
Qed.

(** Appending [n] copies of [x], built from the argument [a], in the spare
    slots of a well-formed vector. *)
Lemma append_const_ok st fi eo hp (l : list T) (a : arg T) x (n : nat) :
  wf (State (Vec st fi eo) hp) ->
  contents (State (Vec st fi eo) hp) = Some l ->
  yields (State (Vec st fi eo) hp) a x ->
  n <= eo - fi ->
  exists hp',
    uninit_loop (fun _ => a) fi n 0 (State (Vec st fi eo) hp)
      = Ret (fi + (0 + n)) (State (Vec st fi eo) hp') /\
    contents (State (Vec st (fi + n) eo) hp') = Some (l ++ replicate n x) /\
    wf (State (Vec st (fi + n) eo) hp') /\
    avail hp' = avail hp /\
    (forall c, c < fi \/ fi + n <= c -> cells hp' !! c = cells hp !! c).
Proof.
  intros Hwf Hl Hy Hn.
  destruct (wf_slots _ _ _ _ _ Hwf Hl)
    as (Hlen & Hobj & Hraw & Hin & Hcap & Hord & Hnull).
  destruct (uninit_const_ok a x fi n 0 (State (Vec st fi eo) hp) Hy)
    as (s' & Hrun & Hthis & Hav & Hout & Hfill).
  { intros j Hj. apply Hraw. lia. }
  destruct s' as [v' hp']. simpl in Hthis, Hav, Hout, Hfill. subst v'.
  exists hp'. split; [exact Hrun|].
  assert (Hc : objs_at (cells hp') st (fi + n - st)
               = Some (l ++ replicate n x)).
  { replace (fi + n - st) with (length (l ++ replicate n x))
      by (rewrite length_app, length_replicate; lia).
    apply objs_at_intro. intros t y Ht.
    destruct (decide (t < length l)) as [Hlt|Hge].
    - rewrite lookup_app_l in Ht by lia.
      rewrite Hout by lia. apply Hobj, Ht.
    - rewrite lookup_app_r in Ht by lia.
      apply lookup_replicate in Ht as [-> Hlt].
      replace (st + t) with (fi + (t - length l)) by lia.
      apply Hfill. lia. }
  split; [exact Hc|]. split.
  { apply (wf_intro _ _ _ _ (l ++ replicate n x)); simpl; try lia.
    - exact Hc.
    - intros t Ht. rewrite Hout by lia.
      replace (fi + n + t) with (fi + (n + t)) by lia. apply Hraw. lia.
    - pose proof (quiet_run _ _ _ _ (quiet_uninit_loop _ _ _ _) Hrun) as Hb.
      owns_from Hwf. exact Hb. }
  split; [exact Hav|]. intros c Hc'. apply Hout. lia.
Qed.

(** ** Default-initialisation of raw storage *)

(** For a type with a default constructor, the loop of
    [uninitialized_default_construct_n] is the loop that constructs every
    object from [T()]. *)
Lemma default_loop_made (o : option T) d n : forall i s,
  default_init = Some o ->
  default_loop d n i s = uninit_loop (fun _ => AMake o) d n i s.
Proof.
  induction n as [|n IH]; intros i s Ho; simpl; [reflexivity|].
  unfold bind, try_catch, default_construct. rewrite Ho.
  destruct (construct (d + i) (AMake o) s) as [u s1|e s1|]; auto.
  destruct (destroy_n i d s1); reflexivity.
Qed.

(** For a type whose default-initialisation performs no initialisation,
    the loop begins the lifetime of [n] objects and writes no value. *)
Lemma default_loop_indet d n : forall i s,
  default_init = None ->
  (forall j, i <= j < i + n -> cells (mem s) !! (d + j) = Some Raw) ->
  exists s',
    default_loop d n i s = Ret (d + (i + n)) s' /\
    this s' = this s /\
    avail (mem s') = avail (mem s) /\
    (forall c, c < d + i \/ d + (i + n) <= c ->
               cells (mem s') !! c = cells (mem s) !! c) /\
    (forall j, i <= j < i + n -> cells (mem s') !! (d + j) = Some Indet).
Proof.
  induction n as [|n IH]; intros i s Hnone Hraw; simpl.
  - exists s. rewrite Nat.add_0_r. split; [reflexivity|].
    split; [reflexivity|]. split; [reflexivity|]. split; [auto|].
    intros; lia.
  - pose proof (Hraw i ltac:(lia)) as Hi.
    unfold bind, try_catch, default_construct. rewrite Hnone.
    unfold place_indet. rewrite Hi. unfold put_cells, emit. simpl.
    set (s1 := State _ _).
    destruct (IH (S i) s1 Hnone) as (s' & Hrun & Hthis & Hav & Hout & Hin).
    { intros j Hj. simpl. rewrite list_lookup_insert_ne by lia.
      apply Hraw. lia. }
    exists s'. replace (d + (i + S n)) with (d + (S i + n)) by lia.
    split; [exact Hrun|]. split; [exact Hthis|]. split; [exact Hav|].
    split.
    + intros c Hc. rewrite Hout by lia. simpl.
      apply list_lookup_insert_ne. lia.
    + intros j Hj. destruct (decide (j = i)) as [->|Hne].
      * rewrite Hout by lia. simpl. apply list_lookup_insert_eq.
        eapply lookup_lt_Some. exact Hi.
      * apply Hin. lia.
Qed.

(** With a default constructor that throws, the first construction fails
    and nothing has been built. *)
Lemma default_loop_throws d n s :
  default_init = Some None ->
  default_loop d (S n) 0 s = Throw elem_failure s.
Proof.
  intros Ho. simpl. unfold bind, try_catch, default_construct.
  rewrite Ho. reflexivity.
Qed.

(** X13: [resize(n)] with [size() < n <= capacity()] on a well-formed
    vector default-initialises [n - size()] objects in the spare slots and
    does not call the allocator.  For an element type whose default
    constructor builds [d], the new elements equal [d], the elements before
    them, [begin()] and [capacity()] are unchanged, and the result is
    well-formed.  For an element type whose default-initialisation performs
    no initialisation (such as [int]), the call returns with [size() == n],
    [begin()], [capacity()] and the old elements unchanged, and every new
    element is an object of indeterminate value: no value has been written
    to it, and reading it through [operator[]] is undefined.  For an
    element type whose default constructor throws, the call throws and the
    state is what it was. *)
Theorem resize_grows_in_place s (l : list T) (n : Z) :
  wf s ->
  contents s = Some l ->
  (size (this s) < n <= capacity (this s))%Z ->
  (forall d, default_init = Some (Some d) ->
     exists s',
       resize n s = Ret tt s' /\
       contents s' = Some (l ++ replicate (Z.to_nat n - length l) d) /\
       size (this s') = n /\
       start_ (this s') = start_ (this s) /\
       capacity (this s') = capacity (this s) /\
       avail (mem s') = avail (mem s) /\
       wf s') /\
  (default_init = None ->
     exists s',
       resize n s = Ret tt s' /\
       size (this s') = n /\
       start_ (this s') = start_ (this s) /\
       capacity (this s') = capacity (this s) /\
       avail (mem s') = avail (mem s) /\
       blocks s' = blocks s /\
       (forall i y, l !! i = Some y ->
                    subscript (Z.of_nat i) s' = Ret y s') /\
       (forall a, finish_ (this s) <= a < finish_ (this s') ->
                  cells (mem s') !! a = Some Indet) /\
       (forall i, length l <= i < Z.to_nat n ->
                  subscript (Z.of_nat i) s' = Undef) /\
       (forall a, a < finish_ (this s) \/ finish_ (this s') <= a ->
                  cells (mem s') !! a = cells (mem s) !! a)) /\
  (default_init = Some None -> resize n s = Throw elem_failure s).
Proof.
  intros Hwf Hl Hn. destruct s as [[st fi eo] hp].
  destruct (wf_slots _ _ _ _ _ Hwf Hl)
    as (Hlen & Hobj & Hraw & Hin & Hcap & Hord & Hnull).
  unfold size, capacity, nsize, ncapacity in Hn. simpl in Hn.
  set (cnt := Z.to_nat (n - Z.of_nat (fi - st))).
  assert (Hstep : forall out : outcome (state T) unit,
            (p <- uninitialized_default_construct_n fi cnt;; set_finish p)
              (State (Vec st fi eo) hp) = out ->
            resize n (State (Vec st fi eo) hp) = out).
  { intros out <-.
    unfold resize, bind at 1, get_this, size, nsize. simpl.
    replace (Z.of_nat (fi - st) <? n)%Z with true
      by (symmetry; apply Z.ltb_lt; lia).
    unfold default_append.
    replace (n - Z.of_nat (fi - st) =? 0)%Z with false
      by (symmetry; apply Z.eqb_neq; lia).
    unfold bind at 1, get_this. simpl.
    replace (n - Z.of_nat (fi - st) <=? Z.of_nat (eo - fi))%Z with true
      by (symmetry; apply Z.leb_le; lia).
    reflexivity. }
  split; [|split].
  - intros d Hd.
    destruct (append_const_ok st fi eo hp l (AMake (Some d)) d cnt Hwf Hl)
      as (hp' & Hrun & Hc & Hwf' & Hav & Hout).
    { reflexivity. }
    { unfold cnt. lia. }
    exists (State (Vec st (fi + cnt) eo) hp'). split.
    { apply Hstep. unfold bind, uninitialized_default_construct_n.
      rewrite (default_loop_made (Some d)) by exact Hd.
      rewrite Hrun. unfold set_finish, bind, get_this, put_this. simpl.
      reflexivity. }
    replace (Z.to_nat n - length l) with cnt by (unfold cnt; lia).
    split; [exact Hc|].
    unfold size, capacity, nsize, ncapacity. simpl.
    split; [unfold cnt; lia|]. split; [reflexivity|]. split; [reflexivity|].
    split; [exact Hav|exact Hwf'].
  - intros Hnone.
    destruct (default_loop_indet fi cnt 0 (State (Vec st fi eo) hp) Hnone)
      as (s' & Hrun & Hthis & Hav & Hout & Hfill).
    { intros j Hj. apply Hraw. unfold cnt in Hj. lia. }
    pose proof (quiet_run _ _ _ _ (quiet_default_loop _ _ _) Hrun) as Hb.
    destruct s' as [v' hp']. simpl in Hthis, Hav, Hout, Hfill. subst v'.
    exists (State (Vec st (fi + cnt) eo) hp'). split.
    { apply Hstep. unfold bind, uninitialized_default_construct_n.
      rewrite Hrun. unfold set_finish, bind, get_this, put_this. simpl.
      reflexivity. }
    unfold size, capacity, nsize, ncapacity. simpl.
    split; [unfold cnt; lia|]. split; [reflexivity|]. split; [reflexivity|].
    split; [exact Hav|]. split; [exact Hb|]. split; [|split; [|split]].
    + intros i y Hy. pose proof (lookup_lt_Some _ _ _ Hy) as Hlt.
      unfold subscript, bind, get_this, read. simpl.
      rewrite Nat2Z.id, Hout by lia. rewrite (Hobj _ _ Hy). reflexivity.
    + intros a Ha. replace a with (fi + (a - fi)) by lia.
      apply Hfill. lia.
    + intros i Hi. unfold subscript, bind, get_this, read. simpl.
      rewrite Nat2Z.id. replace (st + i) with (fi + (st + i - fi)) by lia.
      rewrite Hfill by (unfold cnt; lia). reflexivity.
    + intros a Ha. apply Hout. lia.
  - intros Hthrows. apply Hstep.
    unfold bind, uninitialized_default_construct_n.
    assert (Hcnt : cnt = S (pred cnt)) by (unfold cnt; lia).
    rewrite Hcnt, default_loop_throws by exact Hthrows. reflexivity.
Qed.

(** X14: [resize(n, value)] with [size() < n < capacity()] on a
    well-formed vector, for a value whose copy constructor does not throw:
    [n - size()] copies of the value are appended in the spare slots; the
    elements before them, [begin()] and [capacity()] are unchanged, the
    allocator is not called, and the result is well-formed. *)
Theorem resize_fill_grows_in_place s (l : list T) (n : Z) (r : ref T) x :
  wf s ->
  contents s = Some l ->
  refers s r x ->
  copy_throws x = false ->
  (size (this s) < n < capacity (this s))%Z ->
  exists s',
    resize_fill n r s = Ret tt s' /\
    contents s' = Some (l ++ replicate (Z.to_nat n - length l) x) /\
    size (this s') = n /\
    start_ (this s') = start_ (this s) /\
    capacity (this s') = capacity (this s) /\
    avail (mem s') = avail (mem s) /\
    wf s'.
Proof.
  intros Hwf Hl Hr Hx Hn. destruct s as [[st fi eo] hp].
  destruct (wf_slots _ _ _ _ _ Hwf Hl)
    as (Hlen & Hobj & Hraw & Hin & Hcap & Hord & Hnull).
  unfold size, capacity, nsize, ncapacity in Hn. simpl in Hn.
  set (cnt := Z.to_nat (n - Z.of_nat (fi - st))).
  destruct (append_const_ok st fi eo hp l (ACopy r) x cnt Hwf Hl)
    as (hp' & Hrun & Hc & Hwf' & Hav & Hout).
  { split; assumption. }
  { unfold cnt. lia. }
  exists (State (Vec st (fi + cnt) eo)
            (Heap (cells hp') (avail hp') (log hp'))). split.
  { unfold resize_fill, bind at 1, get_this, size, nsize. simpl.
    replace (Z.of_nat (fi - st) <? n)%Z with true
      by (symmetry; apply Z.ltb_lt; lia).
    unfold bind at 1, insert_fill, bind at 1, get_this. simpl.
    replace (st + (fi - st)) with fi by lia.
    unfold bind at 1, fill_insert.
    replace (n - Z.of_nat (fi - st) =? 0)%Z with false
      by (symmetry; apply Z.eqb_neq; lia).
    unfold bind at 1, get_this. simpl.
    replace (n - Z.of_nat (fi - st) <? Z.of_nat (eo - fi))%Z with true
      by (symmetry; apply Z.ltb_lt; lia).
    rewrite Nat.sub_diag. change (Z.of_nat 0) with 0%Z.
    replace (n - Z.of_nat (fi - st) <? 0)%Z with false
      by (symmetry; apply Z.ltb_ge; lia).
    unfold uninitialized_fill_n. fold cnt.
    rewrite Nat.sub_0_r. unfold bind. rewrite Hrun.
    unfold set_finish, bind, get_this, put_this, uninitialized_move,
      std_fill, distance, ret. simpl.
    rewrite !Nat.leb_refl, !Nat.sub_diag. simpl.
    rewrite !Nat.add_0_r. destruct hp'. reflexivity. }
  replace (Z.to_nat n - length l) with cnt by (unfold cnt; lia).
  destruct hp' as [c' a' l']. simpl in *.
  split; [exact Hc|].
  unfold size, capacity, nsize, ncapacity. simpl.
  split; [unfold cnt; lia|]. split; [reflexivity|]. split; [reflexivity|].
  split; [exact Hav|exact Hwf'].
Qed.

(** ** Constructors *)

(** X15: [vector(count, value)].  With [count > max_size()] the
    constructor throws [length_error] before any allocation.  Otherwise,
    when the allocator can provide [count] elements and the copy
    constructor of the value does not throw, the new vector holds [count]
    copies of the value with [capacity() == size() == count], it is
    well-formed, and no slot that existed before has changed. *)
Theorem fill_constructor s (r : ref T) x (count : Z) :
  refers s r x ->
  (0 <= count)%Z ->
  ((max_size < count)%Z ->
   vector_fill count r s = Throw length_error (State (Vec 0 0 0) (mem s))) /\
  ((count <= max_size)%Z ->
   (count <= avail (mem s))%Z ->
   copy_throws x = false ->
   0 < length (cells (mem s)) ->
   exists s',
     vector_fill count r s = Ret tt s' /\
     contents s' = Some (replicate (Z.to_nat count) x) /\
     size (this s') = count /\
     capacity (this s') = count /\
     wf s' /\
     (forall a, a < length (cells (mem s)) ->
                cells (mem s') !! a = cells (mem s) !! a)).
Proof.
  intros Hr Hcount. split.
  - intros Hbig. unfold vector_fill, bind, put_this, check_init_len.
    replace (max_size <? count)%Z with true
      by (symmetry; apply Z.ltb_lt; exact Hbig).
    reflexivity.
  - intros Hfit Hav Hx Hnull.
    set (s0 := State (Vec 0 0 0) (mem s)).
    assert (Hhead : vector_fill count r s = fill_initialize count r s0).
    { unfold vector_fill, bind at 1, put_this. fold s0.
      unfold bind at 1, check_init_len.
      replace (max_size <? count)%Z with false
        by (symmetry; apply Z.ltb_ge; exact Hfit).
      reflexivity. }
    rewrite Hhead. unfold fill_initialize, create_storage.
    destruct (decide (count = 0%Z)) as [->|Hpos].
    + exists s0. split; [reflexivity|]. simpl.
      split; [reflexivity|]. split; [reflexivity|]. split; [reflexivity|].
      split; [|reflexivity].
      apply (wf_intro _ _ _ _ []); simpl; try lia; try reflexivity.
      left. reflexivity.
    + pose proof max_size_le_alloc as Hma.
      assert (Hc0 : (0 < count)%Z) by lia.
      assert (Hc1 : (count <= alloc_max_size)%Z) by lia.
      pose proof (allocate_ok s0 count Hc0 Hc1 Hav) as Hal.
      simpl in Hal.
      set (base := length (cells (mem s))) in *.
      set (cnt := Z.to_nat count) in *.
      set (hp1 := Heap _ _ _) in Hal.
      assert (Hwf1 : wf (State (Vec base base (base + cnt)) hp1)).
      { apply (wf_intro _ _ _ _ []); simpl; try lia.
        - rewrite Nat.sub_diag. reflexivity.
        - intros i Hi. rewrite lookup_app_r by (unfold base; lia).
          apply lookup_replicate_2. unfold base. lia.
        - right. unfold blocks, capacity, ncapacity. simpl.
          split; [lia|]. rewrite held_blocks_snoc. left.
          f_equal. lia. }
      assert (Hl1 : contents (State (Vec base base (base + cnt)) hp1)
                    = Some []).
      { unfold contents, nsize. simpl. rewrite Nat.sub_diag. reflexivity. }
      destruct (append_const_ok base base (base + cnt) hp1 [] (ACopy r) x cnt
                  Hwf1 Hl1) as (hp' & Hrun & Hc & Hwf' & _ & Hout).
      { split; [|exact Hx]. apply (refers_frame s); [exact Hr|].
        intros a y Ha. simpl. rewrite lookup_app_l; [exact Ha|].
        eapply lookup_lt_Some. exact Ha. }
      { lia. }
      exists (State (Vec base (base + cnt) (base + cnt)) hp'). split.
      { unfold bind at 1. unfold bind at 1. rewrite Hal.
        unfold put_this. unfold bind at 1, get_this. simpl.
        unfold bind, uninitialized_fill_n. fold cnt. rewrite Hrun.
        unfold set_finish, bind, get_this, put_this. simpl. reflexivity. }
      split; [exact Hc|].
      unfold size, capacity, nsize, ncapacity. simpl.
      split; [unfold cnt; lia|]. split; [unfold cnt; lia|].
      split; [exact Hwf'|].
      intros a Ha. rewrite Hout by (fold base in Ha; lia). simpl.
      apply lookup_app_l. exact Ha.
Qed.

(** X16: the copy constructor [vector(other)] from a well-formed vector
    whose elements' copy constructors do not throw, when the allocator can
    provide [other.size()] elements: the new vector holds the same element
    sequence, in a block of its own with [capacity() == other.size()]; it
    is well-formed, and no slot that existed before has changed (in
    particular the source vector is intact). *)
Theorem copy_constructor s (other : vec) (l : list T) :
  wf (State other (mem s)) ->
  contents (State other (mem s)) = Some l ->
  (forall y, y ∈ l -> copy_throws y = false) ->
  (size other <= avail (mem s))%Z ->
  0 < length (cells (mem s)) ->
  exists s',
    vector_copy other s = Ret tt s' /\
    contents s' = Some l /\
    capacity (this s') = size other /\
    wf s' /\
    (forall a, a < length (cells (mem s)) ->
               cells (mem s') !! a = cells (mem s) !! a) /\
    contents (State other (mem s')) = Some l.
Proof.
  intros Hwf Hl Hcopy Hav Hnull.
  pose proof (wf_size_le_max _ Hwf) as Hmax. simpl in Hmax.
  destruct other as [st fi eo].
  destruct (wf_slots _ _ _ _ _ Hwf Hl)
    as (Hlen & Hobj & Hraw & Hin & Hcap & Hord & Hz).
  unfold size, nsize in Hav, Hmax. simpl in Hav, Hmax.
  set (k := length l) in *.
  assert (Hfi : fi = st + k) by lia.
  set (s0 := State (Vec 0 0 0) (mem s)).
  assert (Hold : forall t y, l !! t = Some y ->
            cells (mem s) !! (st + t) = Some (Obj y) /\
            st + t < length (cells (mem s))).
  { intros t y Ht. pose proof (Hobj _ _ Ht) as Hc. split; [exact Hc|].
    eapply lookup_lt_Some. exact Hc. }
  assert (Hsame : forall hp' : heap T,
            (forall a, a < length (cells (mem s)) ->
                       cells hp' !! a = cells (mem s) !! a) ->
            contents (State (Vec st fi eo) hp') = Some l).
  { intros hp' Hframe. unfold contents, nsize. simpl.
    replace (fi - st) with (length l) by (fold k; lia).
    apply objs_at_intro. intros t y Ht.
    destruct (Hold _ _ Ht) as [Hc Hlt]. rewrite Hframe by exact Hlt.
    exact Hc. }
  unfold vector_copy, bind at 1, put_this. fold s0.
  unfold bind at 1, check_init_len, size, nsize. simpl.
  replace (max_size <? Z.of_nat (fi - st))%Z with false
    by (symmetry; apply Z.ltb_ge; exact Hmax).
  unfold ret at 1. unfold create_storage.
  destruct (decide (k = 0)) as [Hk0|Hk0].
  - exists s0. assert (l = []) as -> by (apply nil_length_inv; exact Hk0).
    split.
    { replace (fi - st) with 0 by lia. simpl.
      unfold uninitialized_copy, distance, bind.
      replace (st <=? fi) with true by (symmetry; apply Nat.leb_le; lia).
      unfold ret. replace (fi - st) with 0 by lia. reflexivity. }
    simpl. split; [reflexivity|].
    split; [unfold capacity, ncapacity; simpl; lia|]. split.
    { apply (wf_intro _ _ _ _ []); simpl; try lia; try reflexivity.
      left. reflexivity. }
    split; [reflexivity|]. exact Hl.
  - pose proof max_size_le_alloc as Hma.
    assert (Hc0 : (0 < Z.of_nat (fi - st))%Z) by lia.
    assert (Hc1 : (Z.of_nat (fi - st) <= alloc_max_size)%Z) by lia.
    pose proof (allocate_ok s0 _ Hc0 Hc1 Hav) as Hal.
    simpl in Hal. rewrite Nat2Z.id in Hal.
    replace (fi - st) with k in * by lia.
    set (base := length (cells (mem s))) in *.
    set (s1 := State _ _) in Hal.
    destruct (uninit_copy_ok st base k 0
                (State (Vec base base (base + k)) (mem s1)))
      as (s2 & Hrun & Hthis & Hout & Hin2).
    { intros t Ht. destruct (lookup_lt_is_Some_2 l t) as [y Hy]; [lia|].
      destruct (Hold _ _ Hy) as [Hc Hlt]. exists y. split.
      - simpl. rewrite lookup_app_l by exact Hlt. exact Hc.
      - apply Hcopy. eapply list_elem_of_lookup_2. exact Hy. }
    { intros t Ht. simpl. rewrite lookup_app_r by (unfold base; lia).
      apply lookup_replicate_2. unfold base. lia. }
    { intros t t' Ht Ht'.
      destruct (lookup_lt_is_Some_2 l t) as [y Hy]; [lia|].
      destruct (Hold _ _ Hy) as [_ Hlt]. fold base in Hlt. lia. }
    destruct s2 as [v2 hp2]. simpl in Hthis, Hout, Hin2. subst v2.
    assert (Hframe : forall a, a < base ->
                       cells hp2 !! a = cells (mem s) !! a).
    { intros a Ha. rewrite Hout by lia. apply lookup_app_l. exact Ha. }
    assert (Hc : objs_at (cells hp2) base (base + (0 + k) - base) = Some l).
    { replace (base + (0 + k) - base) with (length l) by (fold k; lia).
      apply objs_at_intro. intros t y Ht.
      destruct (Hold _ _ Ht) as [Hcell Hlt].
      apply lookup_lt_Some in Ht as Htk. fold k in Htk.
      apply (Hin2 t y); [lia|].
      rewrite lookup_app_l by exact Hlt. exact Hcell. }
    exists (State (Vec base (base + (0 + k)) (base + k)) hp2). split.
    { unfold bind at 1. unfold bind at 1. rewrite Hal.
      unfold put_this. unfold bind at 1, get_this. simpl.
      rewrite Nat2Z.id.
      unfold bind, uninitialized_copy, distance, bind.
      replace (st <=? fi) with true by (symmetry; apply Nat.leb_le; lia).
      unfold ret. replace (fi - st) with k by lia.
      unfold s1 in Hrun. simpl in Hrun.
      rewrite Hrun. unfold set_finish, bind, get_this, put_this. simpl.
      reflexivity. }
    split; [exact Hc|]. split.
    { unfold capacity, ncapacity. simpl. lia. }
    split.
    { apply (wf_intro _ _ _ _ l); simpl; try lia; [exact Hc|].
      pose proof (quiet_run _ _ _ _ (quiet_uninit_loop _ _ _ _) Hrun) as Hb.
      right. unfold blocks, capacity, ncapacity in *. simpl in *.
      split; [lia|]. rewrite Hb, held_blocks_snoc. left. f_equal. lia. }
    split; [exact Hframe|]. apply Hsame. exact Hframe.
Qed.

(** ** Assignment between two vectors *)

(** [std::copy] between disjoint ranges of constructed objects. *)
Lemma copy_loop_ok src dst n : forall i s,
  (forall j, i <= j < i + n ->
     exists x, cells (mem s) !! (src + j) = Some (Obj x) /\
               copy_throws x = false) ->
  (forall j, i <= j < i + n ->
     exists y, cells (mem s) !! (dst + j) = Some (Obj y)) ->
  (forall j k, i <= j < i + n -> i <= k < i + n -> src + j <> dst + k) ->
  exists s',
    assign_loop (fun t => dst + t) (fun t => ACopy (Loc (src + t))) n i s
      = Ret tt s' /\
    this s' = this s /\
    avail (mem s') = avail (mem s) /\
    (forall c, c < dst + i \/ dst + (i + n) <= c ->
               cells (mem s') !! c = cells (mem s) !! c) /\
    (forall j x, i <= j < i + n ->
                 cells (mem s) !! (src + j) = Some (Obj x) ->
                 cells (mem s') !! (dst + j) = Some (Obj x)).
Proof.
  induction n as [|n IH]; intros i s Hsrc Hdst Hdis; simpl.
  - exists s. split; [reflexivity|]. split; [reflexivity|].
    split; [reflexivity|]. split; [auto|]. intros; lia.
  - destruct (Hsrc i ltac:(lia)) as (x & Hx & Hnt).
    destruct (Hdst i ltac:(lia)) as (y & Hy).
    unfold bind. rewrite (assign_copy_ok _ _ _ _ _ Hx Hnt Hy).
    set (s1 := State _ _).
    assert (Hkeep : forall c, c <> dst + i ->
                      cells (mem s1) !! c = cells (mem s) !! c).
    { intros c Hc. simpl. apply list_lookup_insert_ne. lia. }
    destruct (IH (S i) s1) as (s' & Hrun & Hthis & Hav & Hout & Hin).
    { intros j Hj. rewrite Hkeep; [apply Hsrc; lia|].
      apply Hdis; lia. }
    { intros j Hj. rewrite Hkeep by lia. apply Hdst. lia. }
    { intros j k Hj Hk. apply Hdis; lia. }
    exists s'. split; [exact Hrun|]. split; [exact Hthis|].
    split; [exact Hav|]. split.
    + intros c Hc. rewrite Hout by lia. apply Hkeep. lia.
    + intros j z Hj Hz. destruct (decide (j = i)) as [->|Hne].
      * rewrite Hout by lia. rewrite Hx in Hz. injection Hz as <-. simpl.
        apply list_lookup_insert_eq. eapply lookup_lt_Some. exact Hy.
      * apply Hin; [lia|]. rewrite Hkeep; [exact Hz|]. apply Hdis; lia.
Qed.

(** The body of [operator=(const vector& other)] for another vector whose
    storage does not overlap this one's. *)
Lemma copy_assign_from_ok st fi eo hp (b : vec) (la lb : list T) :
  wf (State (Vec st fi eo) hp) ->
  contents (State (Vec st fi eo) hp) = Some la ->
  wf (State b hp) ->
  contents (State b hp) = Some lb ->
  apart (Vec st fi eo) b ->
  (forall y, y ∈ lb -> copy_throws y = false) ->
  ((Z.of_nat (eo - st) < size b)%Z ->
   (size b <= avail hp)%Z /\ 0 < length (cells hp)) ->
  exists s',
    copy_assign_from b (State (Vec st fi eo) hp) = Ret tt s' /\
    contents s' = Some lb /\
    wf s' /\
    (forall c, c < length (cells hp) -> ~ st <= c < eo ->
               cells (mem s') !! c = cells hp !! c) /\
    ((size b <= Z.of_nat (eo - st))%Z ->
     start_ (this s') = st /\ end_of_storage_ (this s') = eo).
Proof.
  intros Hwf Hla Hwfb Hlb Hapart Hcopy Hroom.
  pose proof (wf_size_le_max _ Hwfb) as Hmaxb. simpl in Hmaxb.
  destruct b as [st' fi' eo'].
  destruct (wf_slots _ _ _ _ _ Hwf Hla)
    as (Hlen & Hobj & Hraw & Hin & Hcap & Hord & Hnull).
  destruct (wf_slots _ _ _ _ _ Hwfb Hlb)
    as (Hlen' & Hobj' & _ & Hin' & _ & Hord' & _).
  unfold apart in Hapart. simpl in Hapart.
  unfold size, nsize in Hroom, Hmaxb |- *. simpl in Hroom, Hmaxb |- *.
  set (ka := length la) in *. set (kb := length lb) in *.
  assert (fi = st + ka) as -> by lia.
  assert (fi' = st' + kb) as -> by lia.
  replace (st' + kb - st') with kb in * by lia.
  set (base := length (cells hp)) in *.
  set (s0 := State (Vec st (st + ka) eo) hp).
  assert (Hsrc : forall t y, lb !! t = Some y ->
            cells hp !! (st' + t) = Some (Obj y) /\
            ~ st <= st' + t < eo /\ st' + t < base /\
            copy_throws y = false).
  { intros t y Ht. pose proof (Hobj' _ _ Ht) as Hc.
    apply lookup_lt_Some in Ht as Hlt. fold kb in Hlt.
    split; [exact Hc|]. split; [lia|]. split.
    - eapply lookup_lt_Some. exact Hc.
    - apply Hcopy. eapply list_elem_of_lookup_2. exact Ht. }
  assert (Hothers : forall hp' : heap T,
            (forall c, c < base -> ~ st <= c < eo ->
                       cells hp' !! c = cells hp !! c) ->
            forall t y, lb !! t = Some y ->
                        cells hp' !! (st' + t) = Some (Obj y)).
  { intros hp' Hframe t y Ht.
    destruct (Hsrc _ _ Ht) as (Hc & Hout & Hlt & _).
    rewrite Hframe by assumption. exact Hc. }
  unfold copy_assign_from, size, nsize. simpl.
  replace (st' + kb - st') with kb by lia.
  unfold bind at 1, get_this. fold s0.
  unfold capacity, ncapacity. simpl.
  destruct (Z.of_nat (eo - st) <? Z.of_nat kb)%Z eqn:Ecap.
  - (* a new block *)
    apply Z.ltb_lt in Ecap. destruct (Hroom Ecap) as [Hav Hnz].
    pose proof max_size_le_alloc as Hma.
    assert (Hn0 : (0 < Z.of_nat kb)%Z) by lia.
    assert (Hn1 : (Z.of_nat kb <= alloc_max_size)%Z) by lia.
    assert (Hlb' : objs_at (cells (mem s0)) st' kb = Some lb).
    { apply objs_at_intro. exact Hobj'. }
    destruct (allocate_and_copy_ok s0 (Z.of_nat kb) st' kb lb
                Hn0 Hn1 Hav ltac:(lia) Hlb' Hcopy)
      as (s1 & Hrun1 & Hthis1 & Hout1 & Hnew1 & _ & Hb1).
    simpl in Hrun1, Hout1, Hnew1, Hb1.
    fold base in Hrun1, Hout1, Hnew1, Hb1.
    assert (Hla1 : objs_at (cells (mem s1)) st ka = Some la).
    { apply objs_at_intro. intros t y Ht.
      pose proof (Hobj _ _ Ht) as Hc.
      rewrite Hout1; [exact Hc|]. eapply lookup_lt_Some. exact Hc. }
    destruct (std_destroy_ok s1 st ka la Hla1)
      as (s2 & Hrun2 & Hthis2 & Hout2).
    pose proof (quiet_run _ _ _ _ (quiet_std_destroy _ _) Hrun2) as Hb2.
    rewrite Hb1 in Hb2.
    destruct (deallocate_ok s2 st (eo - st))
      as (s3 & Hrun3 & Hthis3 & Hout3 & _).
    { destruct (wf_owns _ Hwf) as [Hst|[_ Hheld]]; [left; exact Hst|right].
      rewrite Hb2. right. exact Hheld. }
    assert (Hb3 : In (base, Z.of_nat kb) (blocks s3)).
    { apply (deallocate_keeps_block _ _ _ _ _ Hrun3).
      - rewrite Hb2. left. reflexivity.
      - simpl. destruct (wf_block_in_heap _ Hwf) as [_ Hlt]. simpl in Hlt.
        fold base in Hlt. lia. }
    assert (Hbase : st < eo -> eo <= base).
    { intros Hk. pose proof (Hin (eo - 1) ltac:(lia)). lia. }
    assert (Hkeep : forall c, ~ st <= c < eo ->
                      cells (mem s3) !! c = cells (mem s1) !! c).
    { intros c Hc. rewrite Hout3 by lia. apply Hout2. lia. }
    assert (Hc : objs_at (cells (mem s3)) base
                   (base + Z.to_nat (Z.of_nat kb) - base) = Some lb).
    { replace (base + Z.to_nat (Z.of_nat kb) - base) with kb by lia.
      rewrite <- Hnew1. apply objs_at_ext. intros t Ht.
      apply Hkeep. lia. }
    exists (State (Vec base (base + Z.to_nat (Z.of_nat kb))
                       (base + Z.to_nat (Z.of_nat kb))) (mem s3)).
    split.
    { unfold bind at 1. rewrite Hrun1.
      unfold bind at 1. rewrite Hrun2.
      unfold bind. rewrite Hrun3. reflexivity. }
    split; [exact Hc|]. split.
    { apply (wf_intro _ _ _ _ lb); simpl; try lia; [exact Hc|].
      right. unfold capacity, ncapacity. simpl. split; [lia|].
      replace (Z.of_nat (base + Z.to_nat (Z.of_nat kb) - base))
        with (Z.of_nat kb) by lia.
      exact Hb3. }
    split.
    { intros c Hc1 Hc2. simpl. rewrite Hkeep by exact Hc2.
      apply Hout1. exact Hc1. }
    intros Hle. lia.
  - (* the storage is reused *)
    apply Z.ltb_ge in Ecap.
    assert (Hdis : forall j k, j < kb -> k < eo - st -> st' + j <> st + k).
    { intros j k Hj Hk. lia. }
    assert (Hdone : forall hp' : heap T,
              (forall t y, lb !! t = Some y ->
                           cells hp' !! (st + t) = Some (Obj y)) ->
              (forall c, st + kb <= c < eo -> cells hp' !! c = Some Raw) ->
              (forall c, c < st \/ eo <= c -> cells hp' !! c = cells hp !! c) ->
              held_blocks (log hp') = held_blocks (log hp) ->
              let s' := State (Vec st (st + Z.to_nat (Z.of_nat kb)) eo) hp' in
              contents s' = Some lb /\ wf s' /\
              (forall c, c < base -> ~ st <= c < eo ->
                         cells (mem s') !! c = cells hp !! c) /\
              ((Z.of_nat kb <= Z.of_nat (eo - st))%Z ->
               start_ (this s') = st /\ end_of_storage_ (this s') = eo)).
    { intros hp' Hfill Hspare Hframe Hheld s'. unfold s'.
      rewrite Nat2Z.id.
      assert (Hc : objs_at (cells hp') st (st + kb - st) = Some lb).
      { replace (st + kb - st) with kb by lia.
        apply objs_at_intro. exact Hfill. }
      split; [exact Hc|]. split.
      { apply (wf_intro _ _ _ _ lb); simpl; try lia.
        - exact Hc.
        - intros t Ht. apply Hspare. lia.
        - apply (owns_same _ _ _ _ _ _ (wf_owns _ Hwf)). exact Hheld. }
      split.
      { intros c Hc1 Hc2. simpl. apply Hframe. lia. }
      intros _. simpl. auto. }
    destruct (Z.of_nat kb <=? Z.of_nat (st + ka - st))%Z eqn:Esz.
    + (* at most as many elements as before *)
      apply Z.leb_le in Esz.
      destruct (copy_loop_ok st' st kb 0 s0)
        as (s1 & Hrun1 & Hthis1 & Hav1 & Hout1 & Hin1).
      { intros j Hj. destruct (lookup_lt_is_Some_2 lb j) as [y Hy]; [lia|].
        destruct (Hsrc _ _ Hy) as (Hc & _ & _ & Hnt). exists y. auto. }
      { intros j Hj. destruct (lookup_lt_is_Some_2 la j) as [y Hy]; [lia|].
        exists y. apply Hobj, Hy. }
      { intros j k Hj Hk. apply Hdis; lia. }
      destruct (destroy_n_raw (ka - kb) (st + kb) s1)
        as (s2 & Hrun2 & Hthis2 & Hout2 & Hraw2).
      { intros j Hj.
        destruct (lookup_lt_is_Some_2 la (kb + j)) as [y Hy]; [lia|].
        exists y. rewrite Hout1 by lia.
        replace (st + kb + j) with (st + (kb + j)) by lia.
        apply Hobj, Hy. }
      destruct s2 as [v2 hp2]. simpl in Hthis2, Hout2, Hraw2.
      rewrite Hthis1 in Hthis2. subst v2.
      destruct (Hdone hp2) as (Hc & Hwf' & Hframe & Hsame).
      { intros t y Ht. apply lookup_lt_Some in Ht as Hlt. fold kb in Hlt.
        rewrite Hout2 by lia. apply (Hin1 t y); [lia|].
        apply Hobj', Ht. }
      { intros c Hc. destruct (decide (c < st + ka)) as [Hlt|Hge].
        - replace c with (st + kb + (c - (st + kb))) by lia.
          apply Hraw2. lia.
        - rewrite Hout2 by lia. rewrite Hout1 by lia.
          replace c with (st + ka + (c - (st + ka))) by lia.
          apply Hraw. lia. }
      { intros c Hc. rewrite Hout2 by lia. apply Hout1. lia. }
      { pose proof (quiet_run _ _ _ _ (quiet_destroy_n _ _) Hrun2) as Hq2.
        pose proof (quiet_run _ _ _ _ (quiet_assign_loop _ _ _ _) Hrun1)
          as Hq1.
        unfold blocks in Hq1, Hq2. simpl in Hq1, Hq2. congruence. }
      eexists. split; [|split; [exact Hc|split; [exact Hwf'|
                                  split; [exact Hframe|exact Hsame]]]].
      unfold bind at 1. unfold bind at 1. unfold std_copy, distance.
      unfold bind at 1. unfold bind at 1.
      replace (st' <=? st' + kb) with true
        by (symmetry; apply Nat.leb_le; lia).
      unfold ret at 1. replace (st' + kb - st') with kb by lia.
      rewrite Hrun1. unfold ret at 1. cbv beta iota.
      unfold std_destroy, distance, bind.
      replace (st + kb <=? st + ka) with true
        by (symmetry; apply Nat.leb_le; lia).
      unfold ret at 1. replace (st + ka - (st + kb)) with (ka - kb) by lia.
      rewrite Hrun2.
      unfold set_finish, bind, get_this, put_this. simpl. reflexivity.
    + (* more elements than before, within the capacity *)
      apply Z.leb_gt in Esz.
      destruct (copy_loop_ok st' st ka 0 s0)
        as (s1 & Hrun1 & Hthis1 & Hav1 & Hout1 & Hin1).
      { intros j Hj. destruct (lookup_lt_is_Some_2 lb j) as [y Hy]; [lia|].
        destruct (Hsrc _ _ Hy) as (Hc & _ & _ & Hnt). exists y. auto. }
      { intros j Hj. destruct (lookup_lt_is_Some_2 la j) as [y Hy]; [lia|].
        exists y. apply Hobj, Hy. }
      { intros j k Hj Hk. apply Hdis; lia. }
      destruct (uninit_copy_ok (st' + ka) (st + ka) (kb - ka) 0 s1)
        as (s2 & Hrun2 & Hthis2 & Hout2 & Hin2).
      { intros j Hj.
        destruct (lookup_lt_is_Some_2 lb (ka + j)) as [y Hy]; [lia|].
        destruct (Hsrc _ _ Hy) as (Hc & Hnot & _ & Hnt). exists y.
        split; [|exact Hnt]. rewrite Hout1 by lia.
        replace (st' + ka + j) with (st' + (ka + j)) by lia. exact Hc. }
      { intros j Hj. rewrite Hout1 by lia. apply Hraw. lia. }
      { intros j k Hj Hk.
        pose proof (Hdis (ka + j) (ka + k) ltac:(lia) ltac:(lia)). lia. }
      destruct s2 as [v2 hp2]. simpl in Hthis2, Hout2, Hin2.
      rewrite Hthis1 in Hthis2. subst v2.
      destruct (Hdone hp2) as (Hc & Hwf' & Hframe & Hsame).
      { intros t y Ht. apply lookup_lt_Some in Ht as Hlt. fold kb in Hlt.
        destruct (Hsrc _ _ Ht) as (Hcell & Hnot & _ & _).
        destruct (decide (t < ka)) as [Hlo|Hhi].
        - rewrite Hout2 by lia. apply (Hin1 t y); [lia|exact Hcell].
        - replace (st + t) with (st + ka + (t - ka)) by lia.
          apply (Hin2 (t - ka) y); [lia|].
          rewrite Hout1 by lia.
          replace (st' + ka + (t - ka)) with (st' + t) by lia.
          exact Hcell. }
      { intros c Hc. rewrite Hout2 by lia. rewrite Hout1 by lia.
        replace c with (st + ka + (c - (st + ka))) by lia.
        apply Hraw. lia. }
      { intros c Hc. rewrite Hout2 by lia. apply Hout1. lia. }
      { pose proof (quiet_run _ _ _ _ (quiet_uninit_loop _ _ _ _) Hrun2)
          as Hq2.
        pose proof (quiet_run _ _ _ _ (quiet_assign_loop _ _ _ _) Hrun1)
          as Hq1.
        unfold blocks in Hq1, Hq2. simpl in Hq1, Hq2. congruence. }
      eexists. split; [|split; [exact Hc|split; [exact Hwf'|
                                  split; [exact Hframe|exact Hsame]]]].
      unfold bind at 1. unfold bind at 1. unfold bind at 1.
      unfold std_copy, distance. unfold bind at 1. unfold bind at 1.
      replace (st + ka - st) with ka by lia.
      replace (st' <=? st' + ka) with true
        by (symmetry; apply Nat.leb_le; lia).
      unfold ret at 1. replace (st' + ka - st') with ka by lia.
      rewrite Hrun1. unfold ret at 1. cbv beta iota.
      unfold uninitialized_copy, distance, bind.
      replace (st' + ka <=? st' + kb) with true
        by (symmetry; apply Nat.leb_le; lia).
      unfold ret at 1.
      replace (st' + kb - (st' + ka)) with (kb - ka) by lia.
      rewrite Hrun2.
      unfold ret, set_finish, bind, get_this, put_this. simpl. reflexivity.
Qed.

(** X17: copy assignment [self = other] between two different,
    well-formed vectors with separate storage, when the copy operations of
    [other]'s elements do not throw and, if [other.size()] exceeds
    [capacity()], the allocator can provide [other.size()] elements:
    afterwards both vectors hold [other]'s element sequence, [other] itself
    is untouched, the result is well-formed, and when [other.size() <=
    capacity()] the storage is reused ([begin()] and [capacity()] are
    unchanged). *)
Theorem copy_assignment (w : world T) (self other : nat) (a b : vec)
    (lb : list T) :
  self <> other ->
  objects w !! self = Some a ->
  objects w !! other = Some b ->
  wf (state_of w a) ->
  wf (state_of w b) ->
  contents_of w other = Some lb ->
  apart a b ->
  (forall y, y ∈ lb -> copy_throws y = false) ->
  ((capacity a < size b)%Z ->
   (size b <= avail (wmem w))%Z /\ 0 < length (cells (wmem w))) ->
  exists w' a',
    operator_assign self other w = Ret tt w' /\
    objects w' !! self = Some a' /\
    objects w' !! other = Some b /\
    contents_of w' self = Some lb /\
    contents_of w' other = Some lb /\
    wf (state_of w' a') /\
    ((size b <= capacity a)%Z ->
     start_ a' = start_ a /\ capacity a' = capacity a).
Proof.
  intros Hne Hself Hother Hwfa Hwfb Hlb Hapart Hcopy Hroom.
  unfold contents_of in Hlb. rewrite Hother in Hlb.
  unfold state_of in Hwfa, Hwfb.
  pose proof Hwfa as (_ & _ & [la Hla] & _).
  destruct a as [st fi eo].
  destruct (copy_assign_from_ok st fi eo (wmem w) b la lb
              Hwfa Hla Hwfb Hlb Hapart Hcopy Hroom)
    as (s' & Hrun & Hc & Hwf' & Hframe & Hreuse).
  destruct (wf_slots _ _ _ _ _ Hwfa Hla)
    as (Hlen & Hobj & Hraw & Hin & Hcap & Hord & Hnull).
  destruct b as [st' fi' eo'].
  destruct (wf_slots _ _ _ _ _ Hwfb Hlb)
    as (Hlen' & Hobj' & _ & Hin' & _ & Hord' & _).
  unfold apart in Hapart. simpl in Hapart.
  exists (World (<[self := this s']> (objects w)) (mem s')), (this s').
  pose proof (lookup_lt_Some _ _ _ Hself) as Hlt.
  assert (Hs' : (<[self := this s']> (objects w)) !! self = Some (this s'))
    by (apply list_lookup_insert_eq; exact Hlt).
  assert (Ho' : (<[self := this s']> (objects w)) !! other
                = Some (Vec st' fi' eo'))
    by (rewrite list_lookup_insert_ne by exact Hne; exact Hother).
  split.
  { unfold operator_assign.
    replace (other =? self) with false
      by (symmetry; apply Nat.eqb_neq; congruence).
    cbn [negb]. unfold bind, object. rewrite Hother.
    unfold on_object. rewrite Hself, Hrun. reflexivity. }
  split; [exact Hs'|]. split; [exact Ho'|]. split.
  { unfold contents_of. simpl. rewrite Hs'. exact Hc. }
  split.
  { unfold contents_of. simpl. rewrite Ho'. simpl.
    unfold nsize. simpl. replace (fi' - st') with (length lb) by lia.
    apply objs_at_intro. intros t y Ht.
    pose proof (Hobj' _ _ Ht) as Hcell.
    apply lookup_lt_Some in Ht as Htk.
    rewrite Hframe; [exact Hcell| |lia].
    eapply lookup_lt_Some. exact Hcell. }
  split.
  { unfold state_of. simpl. destruct s'. exact Hwf'. }
  intros Hle. unfold capacity, ncapacity in Hle |- *. simpl in Hle |- *.
  destruct (Hreuse Hle) as [-> ->]. split; reflexivity.
Qed.

(** X18: move assignment [self = std::move(other)] between two different,
    well-formed vectors with separate storage: [self] takes over [other]'s
    storage and element sequence without touching an element of it,
    [other] is left empty with no storage, every slot of [self]'s old
    block has been released, and no slot outside that block has changed. *)
Theorem move_assignment (w : world T) (self other : nat) (a b : vec)
    (lb : list T) :
  self <> other ->
  objects w !! self = Some a ->
  objects w !! other = Some b ->
  wf (state_of w a) ->
  wf (state_of w b) ->
  contents_of w other = Some lb ->
  apart a b ->
  exists w',
    operator_assign_move self other w = Ret tt w' /\
    objects w' !! self = Some b /\
    objects w' !! other = Some (Vec 0 0 0) /\
    contents_of w' self = Some lb /\
    contents_of w' other = Some [] /\
    wf (state_of w' b) /\
    (forall c, start_ a <= c < end_of_storage_ a ->
               cells (wmem w') !! c = Some Free) /\
    (forall c, ~ start_ a <= c < end_of_storage_ a ->
               cells (wmem w') !! c = cells (wmem w) !! c).
Proof.
  intros Hne Hself Hother Hwfa Hwfb Hlb Hapart.
  unfold contents_of in Hlb. rewrite Hother in Hlb.
  unfold state_of in Hwfa, Hwfb.
  pose proof Hwfa as (_ & _ & [la Hla] & _).
  destruct a as [st fi eo].
  destruct (wf_slots _ _ _ _ _ Hwfa Hla)
    as (Hlen & Hobj & Hraw & Hin & Hcap & Hord & Hnull).
  destruct b as [st' fi' eo'].
  destruct (wf_slots _ _ _ _ _ Hwfb Hlb)
    as (Hlen' & Hobj' & Hraw' & Hin' & Hcap' & Hord' & Hnull').
  unfold apart in Hapart. simpl in Hapart.
  (* clear() *)
  destruct (erase_at_end_ok st fi eo (wmem w) st)
    as (s1 & Hrun1 & Hthis1 & Hout1 & Hraw1).
  { lia. }
  { intros c Hc.
    destruct (lookup_lt_is_Some_2 la (c - st) ltac:(lia)) as [z Hz].
    exists z. replace c with (st + (c - st)) by lia. apply Hobj, Hz. }
  (* the block is released *)
  pose proof (quiet_run _ _ _ _ (quiet_erase_at_end _) Hrun1) as Hb1.
  destruct (deallocate_ok s1 st (eo - st))
    as (s2 & Hrun2 & Hthis2 & Hout2 & Hfree2).
  { destruct (wf_owns _ Hwfa) as [Hst|[_ Hheld]]; [left; exact Hst|right].
    rewrite Hb1. exact Hheld. }
  assert (Hown2 : owns (State (Vec st' fi' eo') (mem s2))).
  { destruct (wf_owns _ Hwfb) as [Hst|[Hlt Hheld]]; [left; exact Hst|right].
    simpl in Hlt. split; [exact Hlt|].
    apply (deallocate_keeps_block _ _ _ _ _ Hrun2).
    - rewrite Hb1. exact Hheld.
    - simpl. destruct (wf_owns _ Hwfa) as [Hst|[Hlt' _]]; simpl in *; lia. }
  assert (Hkeep : forall c, ~ st <= c < eo ->
                    cells (mem s2) !! c = cells (wmem w) !! c).
  { intros c Hc. rewrite Hout2 by lia. apply Hout1. lia. }
  pose proof (lookup_lt_Some _ _ _ Hself) as Hlts.
  pose proof (lookup_lt_Some _ _ _ Hother) as Hlto.
  set (objs1 := <[self := this s2]> (objects w)).
  set (objs2 := <[self := Vec st' fi' eo']> objs1).
  set (objs3 := <[other := Vec 0 0 0]> objs2).
  exists (World objs3 (mem s2)).
  assert (Hs3 : objs3 !! self = Some (Vec st' fi' eo')).
  { unfold objs3, objs2, objs1.
    rewrite list_lookup_insert_ne by congruence.
    apply list_lookup_insert_eq. rewrite length_insert. exact Hlts. }
  assert (Ho3 : objs3 !! other = Some (Vec 0 0 0)).
  { unfold objs3, objs2, objs1. apply list_lookup_insert_eq.
    rewrite !length_insert. exact Hlto. }
  assert (Hc : objs_at (cells (mem s2)) st' (fi' - st') = Some lb).
  { replace (fi' - st') with (length lb) by lia.
    apply objs_at_intro. intros t y Ht.
    apply lookup_lt_Some in Ht as Htk.
    rewrite Hkeep by lia. apply Hobj', Ht. }
  split.
  { unfold operator_assign_move.
    replace (other =? self) with false
      by (symmetry; apply Nat.eqb_neq; congruence).
    cbn [negb].
    unfold bind at 1, on_object. rewrite Hself.
    assert (Hbody : (clear;;
                     v <- get_this;;
                     deallocate (start_ v)
                       (Z.of_nat (end_of_storage_ v - start_ v)))
                      (State (Vec st fi eo) (wmem w)) = Ret tt s2).
    { unfold clear, bind at 1. unfold bind at 1, get_this. simpl.
      rewrite Hrun1. unfold bind. rewrite Hthis1. simpl. exact Hrun2. }
    rewrite Hbody.
    unfold bind at 1, object. simpl.
    rewrite list_lookup_insert_ne by exact Hne. rewrite Hother.
    unfold bind, set_object. simpl.
    rewrite list_lookup_insert_eq by exact Hlts. simpl.
    fold objs1. fold objs2.
    replace (objs2 !! other) with (Some (Vec st' fi' eo')).
    2:{ unfold objs2, objs1. rewrite !list_lookup_insert_ne by exact Hne.
        symmetry. exact Hother. }
    reflexivity. }
  split; [exact Hs3|]. split; [exact Ho3|]. split.
  { unfold contents_of. simpl. rewrite Hs3. exact Hc. }
  split.
  { unfold contents_of. simpl. rewrite Ho3. reflexivity. }
  split.
  { unfold state_of. simpl.
    apply (wf_intro _ _ _ _ lb); try lia; [exact Hc| |exact Hown2].
    intros t Ht. rewrite Hkeep by lia. apply Hraw'. exact Ht. }
  split.
  - intros c Hc'. simpl in Hc' |- *.
    assert (Hst : st <> 0) by lia.
    apply (Hfree2 Hst); [lia|].
    destruct (decide (c < fi)) as [Hlt|Hge].
    + eapply lookup_lt_Some. apply Hraw1. lia.
    + eapply lookup_lt_Some. rewrite Hout1 by lia.
      replace c with (fi + (c - fi)) by lia. apply Hraw. lia.
  - intros c Hc'. simpl in Hc' |- *. apply Hkeep. exact Hc'.
Qed.

(** ** [swap] *)

Lemma swap_run (w : world T) (self other : nat) (a b : vec) :
  objects w !! self = Some a ->
  objects w !! other = Some b ->
  self <> other ->
  swap self other w =
    Ret tt (World (<[other := a]> (<[self := b]> (objects w))) (wmem w)).
Proof.
  intros Hself Hother Hne.
  pose proof (lookup_lt_Some _ _ _ Hself) as Hlts.
  pose proof (lookup_lt_Some _ _ _ Hother) as Hlto.
  destruct a as [sa fa ea], b as [sb fb eb].
  unfold swap, bind, object, set_object.
  repeat first
    [ rewrite Hself | rewrite Hother
    | progress cbn [objects wmem start_ finish_ end_of_storage_]
    | rewrite list_lookup_insert_eq by (rewrite ?length_insert; assumption)
    | rewrite list_lookup_insert_ne by congruence ].
  f_equal. f_equal. apply list_eq. intros i.
  destruct (decide (i = other)) as [->|Hio];
    [|destruct (decide (i = self)) as [->|His]];
    repeat first
      [ rewrite list_lookup_insert_eq by (rewrite ?length_insert; assumption)
      | rewrite list_lookup_insert_ne by congruence ];
    reflexivity.
Qed.

(** X19: [swap] between two different vectors exchanges their storage
    pointers and nothing else: each vector gets the other's element
    sequence and capacity, no other object and no slot of the heap
    changes (no element is touched, the allocator is not called), and
    swapping twice restores the initial state. *)
Theorem swap_exchanges (w : world T) (self other : nat) (a b : vec) :
  objects w !! self = Some a ->
  objects w !! other = Some b ->
  self <> other ->
  exists w',
    swap self other w = Ret tt w' /\
    objects w' !! self = Some b /\
    objects w' !! other = Some a /\
    contents_of w' self = contents_of w other /\
    contents_of w' other = contents_of w self /\
    (forall k, k <> self -> k <> other ->
               objects w' !! k = objects w !! k) /\
    wmem w' = wmem w /\
    swap self other w' = Ret tt w.
Proof.
  intros Hself Hother Hne.
  pose proof (lookup_lt_Some _ _ _ Hself) as Hlts.
  pose proof (lookup_lt_Some _ _ _ Hother) as Hlto.
  set (objs' := <[other := a]> (<[self := b]> (objects w))).
  assert (Hs' : objs' !! self = Some b).
  { unfold objs'. rewrite list_lookup_insert_ne by congruence.
    apply list_lookup_insert_eq. exact Hlts. }
  assert (Ho' : objs' !! other = Some a).
  { unfold objs'. apply list_lookup_insert_eq.
    rewrite length_insert. exact Hlto. }
  exists (World objs' (wmem w)).
  split; [apply swap_run; assumption|].
  split; [exact Hs'|]. split; [exact Ho'|].
  split; [unfold contents_of; simpl; rewrite Hs', Hother; reflexivity|].
  split; [unfold contents_of; simpl; rewrite Ho', Hself; reflexivity|].
  split.
  { intros k Hks Hko. simpl. unfold objs'.
    rewrite !list_lookup_insert_ne by congruence. reflexivity. }
  split; [reflexivity|].
  rewrite (swap_run (World objs' (wmem w)) self other b a Hs' Ho' Hne).
  simpl.
  destruct w as [objs hp]. simpl in *. f_equal. f_equal.
  apply list_eq. intros i. unfold objs'.
  destruct (decide (i = other)) as [->|Hio];
    [|destruct (decide (i = self)) as [->|His]].
  - rewrite list_lookup_insert_eq by (rewrite !length_insert; exact Hlto).
    symmetry. exact Hother.
  - rewrite list_lookup_insert_ne by congruence.
    rewrite list_lookup_insert_eq by (rewrite !length_insert; exact Hlts).
    symmetry. exact Hself.
  - rewrite !list_lookup_insert_ne by congruence. reflexivity.
Qed.

(** ** [assign(count, value)] *)

Lemma assign_ref_ok p (r : ref T) x y s :
  refers s r x ->
  copy_throws x = false ->
  cells (mem s) !! p = Some (Obj y) ->
  assign_at p (ACopy r) s =
    Ret tt (State (this s)
              (Heap (<[p := Obj x]> (cells (mem s))) (avail (mem s))
                    (log (mem s) ++ [EAssign p]))).
Proof.
  intros Hr Hx Hp. destruct r as [v|a]; simpl in Hr.
  - subst v. unfold assign_at, eval_arg, deref, bind, ret.
    rewrite Hx. unfold store. rewrite Hp. reflexivity.
  - apply (assign_copy_ok _ _ _ y); assumption.
Qed.

(** [std::fill] over constructed objects; the value may be one of them. *)
Lemma fill_loop_ok first (r : ref T) x n : forall i s,
  refers s r x ->
  copy_throws x = false ->
  (forall j, i <= j < i + n ->
     exists y, cells (mem s) !! (first + j) = Some (Obj y)) ->
  exists s',
    assign_loop (fun t => first + t) (fun _ => ACopy r) n i s = Ret tt s' /\
    this s' = this s /\
    avail (mem s') = avail (mem s) /\
    (forall c, c < first + i \/ first + (i + n) <= c ->
               cells (mem s') !! c = cells (mem s) !! c) /\
    (forall j, i <= j < i + n ->
               cells (mem s') !! (first + j) = Some (Obj x)) /\
    refers s' r x.
Proof.
  induction n as [|n IH]; intros i s Hr Hx Hobj; simpl.
  - exists s. split; [reflexivity|]. split; [reflexivity|].
    split; [reflexivity|]. split; [auto|]. split; [intros; lia|exact Hr].
  - destruct (Hobj i ltac:(lia)) as (y & Hy).
    unfold bind. rewrite (assign_ref_ok _ _ _ _ _ Hr Hx Hy).
    set (s1 := State _ _).
    assert (Hr1 : refers s1 r x).
    { destruct r as [v|a]; simpl in Hr |- *; [exact Hr|].
      destruct (decide (a = first + i)) as [->|Hne].
      - apply list_lookup_insert_eq. eapply lookup_lt_Some. exact Hy.
      - rewrite list_lookup_insert_ne by congruence. exact Hr. }
    destruct (IH (S i) s1 Hr1 Hx)
      as (s' & Hrun & Hthis & Hav & Hout & Hin & Hr').
    { intros j Hj. simpl. rewrite list_lookup_insert_ne by lia.
      apply Hobj. lia. }
    exists s'. split; [exact Hrun|]. split; [exact Hthis|].
    split; [exact Hav|]. split.
    + intros c Hc. rewrite Hout by lia. simpl.
      apply list_lookup_insert_ne. lia.
    + split; [|exact Hr'].
      intros j Hj. destruct (decide (j = i)) as [->|Hne].
      * rewrite Hout by lia. simpl. apply list_lookup_insert_eq.
        eapply lookup_lt_Some. exact Hy.
      * apply Hin. lia.
Qed.

(** X20: [assign(count, value)] with [count <= capacity()] on a
    well-formed vector, for a value (possibly an element of the vector
    itself) whose copy operations do not throw: afterwards the vector
    holds [count] copies of the value; [begin()] and [capacity()] are
    unchanged, the allocator is not called, and the result is
    well-formed. *)
Theorem assign_fill_in_place s (l : list T) (count : Z) (r : ref T) x :
  wf s ->
  contents s = Some l ->
  refers s r x ->
  copy_throws x = false ->
  (0 <= count <= capacity (this s))%Z ->
  exists s',
    assign_fill count r s = Ret tt s' /\
    contents s' = Some (replicate (Z.to_nat count) x) /\
    size (this s') = count /\
    start_ (this s') = start_ (this s) /\
    capacity (this s') = capacity (this s) /\
    avail (mem s') = avail (mem s) /\
    wf s'.
Proof.
  intros Hwf Hl Hr Hx Hcount. destruct s as [[st fi eo] hp].
  destruct (wf_slots _ _ _ _ _ Hwf Hl)
    as (Hlen & Hobj & Hraw & Hin & Hcap & Hord & Hnull).
  unfold capacity, ncapacity in Hcount. simpl in Hcount.
  set (k := length l) in *. set (cnt := Z.to_nat count).
  assert (Hfi : fi = st + k) by lia.
  set (s0 := State (Vec st fi eo) hp) in *.
  assert (Hall : forall c, st <= c < fi ->
                   exists y, cells hp !! c = Some (Obj y)).
  { intros c Hc.
    destruct (lookup_lt_is_Some_2 l (c - st) ltac:(lia)) as [z Hz].
    exists z. replace c with (st + (c - st)) by lia. apply Hobj, Hz. }
  assert (Hdone : forall hp' : heap T,
            (forall j, j < cnt -> cells hp' !! (st + j) = Some (Obj x)) ->
            (forall c, st + cnt <= c < eo -> cells hp' !! c = Some Raw) ->
            avail hp' = avail hp ->
            held_blocks (log hp') = held_blocks (log hp) ->
            let s' := State (Vec st (st + cnt) eo) hp' in
            contents s' = Some (replicate cnt x) /\
            size (this s') = count /\
            start_ (this s') = st /\
            capacity (this s') = Z.of_nat (eo - st) /\
            avail (mem s') = avail hp /\
            wf s').
  { intros hp' Hfill Hspare Hav Hheld s'. unfold s'.
    assert (Hc : objs_at (cells hp') st (st + cnt - st)
                 = Some (replicate cnt x)).
    { replace (st + cnt - st) with (length (replicate cnt x))
        by (rewrite length_replicate; lia).
      apply objs_at_intro. intros t y Ht.
      apply lookup_replicate in Ht as [-> Hlt]. apply Hfill, Hlt. }
    split; [exact Hc|].
    unfold size, capacity, nsize, ncapacity. simpl.
    split; [unfold cnt; lia|]. split; [reflexivity|].
    split; [reflexivity|]. split; [exact Hav|].
    apply (wf_intro _ _ _ _ (replicate cnt x)); simpl; try (unfold cnt; lia).
    - exact Hc.
    - intros t Ht. apply Hspare. unfold cnt in *. lia.
    - apply (owns_same _ _ _ _ _ _ (wf_owns _ Hwf)). exact Hheld. }
  unfold assign_fill, bind at 1, get_this. fold s0.
  unfold capacity, ncapacity, size, nsize. simpl.
  replace (Z.of_nat (eo - st) <? count)%Z with false
    by (symmetry; apply Z.ltb_ge; lia).
  destruct (count <=? Z.of_nat (fi - st))%Z eqn:Esz.
  - (* not more elements than before *)
    apply Z.leb_le in Esz.
    destruct (fill_loop_ok st r x cnt 0 s0 Hr Hx)
      as (s1 & Hrun1 & Hthis1 & Hav1 & Hout1 & Hin1 & _).
    { intros j Hj. apply Hall. unfold cnt in *. lia. }
    destruct s1 as [v1 hp1]. simpl in Hthis1, Hav1, Hout1, Hin1. subst v1.
    destruct (erase_at_end_ok st fi eo hp1 (st + cnt))
      as (s2 & Hrun2 & Hthis2 & Hout2 & Hraw2).
    { unfold cnt. lia. }
    { intros c Hc. rewrite Hout1 by lia. apply Hall. lia. }
    destruct s2 as [v2 hp2]. simpl in Hthis2, Hout2, Hraw2. subst v2.
    exists (State (Vec st (st + cnt) eo) hp2). split.
    { unfold bind at 1, std_fill_n, bind at 1. fold cnt.
      rewrite Hrun1. unfold ret at 1. exact Hrun2. }
    apply Hdone.
    + intros j Hj. rewrite Hout2 by lia. apply Hin1. lia.
    + intros c Hc. destruct (decide (c < fi)) as [Hlt|Hge].
      * apply Hraw2. lia.
      * rewrite Hout2 by lia. rewrite Hout1 by lia.
        replace c with (fi + (c - fi)) by lia. apply Hraw. lia.
    + rewrite <- Hav1. apply (erase_at_end_avail _ _ _ Hrun2).
    + pose proof (quiet_run _ _ _ _ (quiet_erase_at_end _) Hrun2) as Hq2.
      pose proof (quiet_run _ _ _ _ (quiet_assign_loop _ _ _ _) Hrun1)
        as Hq1.
      unfold blocks in Hq1, Hq2. simpl in Hq1, Hq2. congruence.
  - (* more elements than before, within the capacity *)
    apply Z.leb_gt in Esz.
    destruct (fill_loop_ok st r x k 0 s0 Hr Hx)
      as (s1 & Hrun1 & Hthis1 & Hav1 & Hout1 & Hin1 & Hr1).
    { intros j Hj. apply Hall. lia. }
    destruct (uninit_const_ok (ACopy r) x fi (cnt - k) 0 s1)
      as (s2 & Hrun2 & Hthis2 & Hav2 & Hout2 & Hin2).
    { split; assumption. }
    { intros j Hj. rewrite Hout1 by lia. apply Hraw. unfold cnt in *. lia. }
    destruct s2 as [v2 hp2]. simpl in Hthis2, Hav2, Hout2, Hin2.
    exists (State (Vec st (st + cnt) eo) hp2). split.
    { unfold bind at 1, std_fill, distance, bind at 1.
      replace (st <=? fi) with true by (symmetry; apply Nat.leb_le; lia).
      unfold ret at 1. replace (fi - st) with k by lia.
      rewrite Hrun1. unfold bind at 1, uninitialized_fill_n.
      fold cnt. rewrite Hrun2.
      unfold set_finish, bind, get_this, put_this. simpl.
      rewrite Hthis2, Hthis1. reflexivity. }
    apply Hdone.
    + intros j Hj. destruct (decide (j < k)) as [Hlo|Hhi].
      * rewrite Hout2 by lia. apply Hin1. lia.
      * replace (st + j) with (fi + (j - k)) by lia. apply Hin2. lia.
    + intros c Hc. rewrite Hout2 by (unfold cnt in *; lia).
      rewrite Hout1 by lia.
      replace c with (fi + (c - fi)) by (unfold cnt in *; lia).
      apply Hraw. unfold cnt in *. lia.
    + rewrite Hav2. exact Hav1.
    + pose proof (quiet_run _ _ _ _ (quiet_uninit_loop _ _ _ _) Hrun2)
        as Hq2.
      pose proof (quiet_run _ _ _ _ (quiet_assign_loop _ _ _ _) Hrun1)
        as Hq1.
      unfold blocks in Hq1, Hq2. simpl in Hq1, Hq2. congruence.
Qed.

Lemma deallocate_avail p n s s' :
  deallocate p n s = Ret tt s' ->
  avail (mem s') = avail (mem s) /\
  length (cells (mem s')) = length (cells (mem s)).
Proof.
  intros Hrun. destruct (deallocate_blocks _ _ _ _ Hrun) as (_ & Hav & Hlen).
  split; assumption.
Qed.

(** X21: [assign(count, value)] with [count > capacity()] on a
    well-formed vector, for a value that is not an element of the vector,
    when [count <= max_size()], the copy constructor of the value does not
    throw and the allocator can provide [2 * count] elements: afterwards
    the vector holds [count] copies of the value with [capacity() ==
    count] and is well-formed, and the old block has been released; but the
    allocator has been asked for two blocks of [count] elements
    ([create_storage] runs once in [assign] and once more in
    [fill_initialize]): the vector lives in the second one, and the first
    one is left allocated, raw and unreferenced. *)
Theorem assign_fill_reallocates s (l : list T) (count : Z) (r : ref T) x :
  wf s ->
  contents s = Some l ->
  refers s r x ->
  (forall a, r = Loc a -> ~ start_ (this s) <= a < finish_ (this s)) ->
  copy_throws x = false ->
  (capacity (this s) < count <= max_size)%Z ->
  (2 * count <= avail (mem s))%Z ->
  0 < length (cells (mem s)) ->
  exists s',
    assign_fill count r s = Ret tt s' /\
    contents s' = Some (replicate (Z.to_nat count) x) /\
    capacity (this s') = count /\
    wf s' /\
    avail (mem s') = (avail (mem s) - 2 * count)%Z /\
    start_ (this s') = length (cells (mem s)) + Z.to_nat count /\
    (forall c, length (cells (mem s)) <= c
                 < length (cells (mem s)) + Z.to_nat count ->
               cells (mem s') !! c = Some Raw) /\
    (forall c, start_ (this s) <= c < end_of_storage_ (this s) ->
               cells (mem s') !! c = Some Free).
Proof.
  intros Hwf Hl Hr Hnot Hx Hcount Hav Hnz. destruct s as [[st fi eo] hp].
  destruct (wf_slots _ _ _ _ _ Hwf Hl)
    as (Hlen & Hobj & Hraw & Hin & Hcap & Hord & Hnull).
  unfold capacity, ncapacity in Hcount. simpl in Hcount, Hav, Hnz, Hnot.
  set (cnt := Z.to_nat count).
  set (base := length (cells hp)) in *.
  set (s0 := State (Vec st fi eo) hp) in *.
  pose proof max_size_le_alloc as Hma.
  assert (Hc0 : (0 < count)%Z) by lia.
  assert (Hc1 : (count <= alloc_max_size)%Z) by lia.
  (* clear() *)
  destruct (erase_at_end_ok st fi eo hp st)
    as (s1 & Hrun1 & Hthis1 & Hout1 & Hraw1).
  { lia. }
  { intros c Hc.
    destruct (lookup_lt_is_Some_2 l (c - st) ltac:(lia)) as [z Hz].
    exists z. replace c with (st + (c - st)) by lia. apply Hobj, Hz. }
  destruct (erase_at_end_avail _ _ _ Hrun1) as [Hav1 Hlen1].
  simpl in Hav1, Hlen1.
  (* the old block is released *)
  pose proof (quiet_run _ _ _ _ (quiet_erase_at_end _) Hrun1) as Hb1.
  destruct (deallocate_ok s1 st (eo - st))
    as (s2 & Hrun2 & Hthis2 & Hout2 & Hfree2).
  { destruct (wf_owns _ Hwf) as [Hst|[_ Hheld]]; [left; exact Hst|right].
    rewrite Hb1. exact Hheld. }
  destruct (deallocate_avail _ _ _ _ Hrun2) as [Hav2 Hlen2].
  assert (Hkeep2 : forall c, ~ st <= c < eo ->
                     cells (mem s2) !! c = cells hp !! c).
  { intros c Hc. rewrite Hout2 by lia. apply Hout1. lia. }
  assert (Hfree : forall c, st <= c < eo ->
                    cells (mem s2) !! c = Some Free).
  { intros c Hc. assert (Hst : st <> 0) by lia.
    apply (Hfree2 Hst); [lia|]. rewrite Hlen1. apply Hin. exact Hc. }
  (* the first block *)
  assert (Hal3 := allocate_ok s2 count Hc0 Hc1 ltac:(lia)).
  rewrite Hlen2, Hlen1 in Hal3. fold base in Hal3.
  set (hp3 := Heap _ _ _) in Hal3.
  set (s3 := State (Vec base base (base + cnt)) hp3).
  (* the second block *)
  assert (Hal4 := allocate_ok s3 count Hc0 Hc1
                    ltac:(simpl; lia)).
  simpl in Hal4. rewrite length_app, length_replicate in Hal4.
  rewrite Hlen2, Hlen1 in Hal4. fold base cnt in Hal4.
  set (hp4 := Heap _ _ _) in Hal4.
  set (b2 := base + cnt) in *.
  assert (Hlook4 : forall c, c < base ->
                     cells hp4 !! c = cells (mem s2) !! c).
  { intros c Hc. simpl.
    rewrite lookup_app_l
      by (rewrite length_app, Hlen2, Hlen1; fold base; lia).
    apply lookup_app_l. rewrite Hlen2, Hlen1. exact Hc. }
  assert (Hfirst4 : forall c, base <= c < b2 -> cells hp4 !! c = Some Raw).
  { intros c Hc. simpl.
    rewrite lookup_app_l
      by (rewrite length_app, length_replicate, Hlen2, Hlen1;
          fold base cnt b2; lia).
    rewrite lookup_app_r by (rewrite Hlen2, Hlen1; fold base; lia).
    apply lookup_replicate_2. rewrite Hlen2, Hlen1. fold base cnt.
    unfold b2 in Hc. lia. }
  assert (Hsecond4 : forall t, t < cnt -> cells hp4 !! (b2 + t) = Some Raw).
  { intros t Ht. simpl.
    rewrite lookup_app_r
      by (rewrite length_app, length_replicate, Hlen2, Hlen1;
          fold base cnt b2; lia).
    apply lookup_replicate_2.
    rewrite length_app, length_replicate, Hlen2, Hlen1.
    fold base cnt b2. lia. }
  assert (Hwf4 : wf (State (Vec b2 b2 (b2 + cnt)) hp4)).
  { apply (wf_intro _ _ _ _ []); try (unfold b2; lia).
    - rewrite Nat.sub_diag. reflexivity.
    - intros t Ht. apply Hsecond4. lia.
    - right. unfold blocks, capacity, ncapacity. simpl.
      split; [unfold cnt; lia|]. rewrite held_blocks_snoc. left.
      f_equal. unfold cnt. lia. }
  assert (Hl4 : contents (State (Vec b2 b2 (b2 + cnt)) hp4) = Some []).
  { unfold contents, nsize. simpl. rewrite Nat.sub_diag. reflexivity. }
  destruct (append_const_ok b2 b2 (b2 + cnt) hp4 [] (ACopy r) x cnt
              Hwf4 Hl4) as (hp5 & Hrun5 & Hc5 & Hwf5 & Hav5 & Hout5).
  { split; [|exact Hx]. destruct r as [v|a]; simpl in Hr |- *; [exact Hr|].
    pose proof (lookup_lt_Some _ _ _ Hr) as Hlt. fold base in Hlt.
    change (cells hp4 !! a = Some (Obj x)).
    rewrite Hlook4 by exact Hlt. rewrite Hkeep2; [exact Hr|].
    intros Ha. destruct (decide (a < fi)) as [Hlo|Hhi].
    - apply (Hnot a eq_refl). lia.
    - specialize (Hraw (a - fi) ltac:(lia)).
      replace (fi + (a - fi)) with a in Hraw by lia. congruence. }
  { lia. }
  exists (State (Vec b2 (b2 + cnt) (b2 + cnt)) hp5). split.
  { unfold assign_fill, bind at 1, get_this. fold s0.
    unfold capacity, ncapacity. simpl.
    replace (Z.of_nat (eo - st) <? count)%Z with true
      by (symmetry; apply Z.ltb_lt; lia).
    unfold bind at 1, clear, bind at 1, get_this. simpl.
    unfold s0. rewrite Hrun1. unfold bind at 1. rewrite Hrun2.
    unfold bind at 1, check_init_len.
    replace (max_size <? count)%Z with false
      by (symmetry; apply Z.ltb_ge; lia).
    unfold ret at 1. unfold bind at 1, create_storage, bind at 1.
    rewrite Hal3. unfold put_this at 1. fold cnt. cbn [mem].
    change (State (Vec base base (base + cnt)) hp3) with s3.
    unfold fill_initialize, create_storage.
    unfold bind at 1. unfold bind at 1. rewrite Hal4.
    unfold put_this. fold cnt. unfold bind at 1, get_this. simpl.
    unfold bind, uninitialized_fill_n. fold cnt. rewrite Hrun5.
    unfold set_finish, bind, get_this, put_this. simpl. reflexivity. }
  split; [exact Hc5|]. split.
  { unfold capacity, ncapacity. simpl. unfold cnt. lia. }
  split; [exact Hwf5|]. split.
  { simpl. rewrite Hav5. simpl. rewrite Hav2, Hav1. lia. }
  split; [reflexivity|]. split.
  - intros c Hc. change (base <= c < base + cnt) in Hc. simpl.
    rewrite Hout5 by (unfold b2; lia).
    apply Hfirst4. unfold b2. lia.
  - intros c Hc. simpl in Hc |- *.
    pose proof (Hin c Hc) as Hlt.
    rewrite Hout5 by (unfold b2; lia).
    rewrite Hlook4 by exact Hlt. apply Hfree, Hc.
Qed.

(** ** Further constructors and [push_back(T&&)] *)

(** X23: [vector(count)].  With [count > max_size()] the constructor
    throws [length_error] before any allocation.  Otherwise, when the
    allocator can provide [count] elements, the constructor allocates a
    block of [count] elements and default-initialises [count] objects in
    it.  For an element type whose default constructor builds [d], the new
    vector holds [count] objects equal to [d] with [capacity() == size()
    == count], it is well-formed, and no slot that existed before has
    changed.  For an element type whose default-initialisation performs no
    initialisation (such as [int]), the constructor returns with
    [capacity() == size() == count] and no slot that existed before
    changed, and every element is an object of indeterminate value: no
    value has been written to it, and reading it through [operator[]] is
    undefined. *)
Theorem count_constructor s (count : Z) :
  (0 <= count)%Z ->
  ((max_size < count)%Z ->
   vector_count count s = Throw length_error (State (Vec 0 0 0) (mem s))) /\
  ((count <= max_size)%Z ->
   (count <= avail (mem s))%Z ->
   0 < length (cells (mem s)) ->
   (forall d, default_init = Some (Some d) ->
      exists s',
        vector_count count s = Ret tt s' /\
        contents s' = Some (replicate (Z.to_nat count) d) /\
        size (this s') = count /\
        capacity (this s') = count /\
        wf s' /\
        (forall a, a < length (cells (mem s)) ->
                   cells (mem s') !! a = cells (mem s) !! a)) /\
   (default_init = None ->
      exists s',
        vector_count count s = Ret tt s' /\
        size (this s') = count /\
        capacity (this s') = count /\
        start_ (this s') =
          (if (count =? 0)%Z then 0 else length (cells (mem s))) /\
        (forall a, start_ (this s') <= a < finish_ (this s') ->
                   cells (mem s') !! a = Some Indet) /\
        (forall i, i < Z.to_nat count ->
                   subscript (Z.of_nat i) s' = Undef) /\
        (forall a, a < length (cells (mem s)) ->
                   cells (mem s') !! a = cells (mem s) !! a))).
Proof.
  intros Hcount. split.
  - intros Hbig. unfold vector_count, bind, put_this, check_init_len.
    replace (max_size <? count)%Z with true
      by (symmetry; apply Z.ltb_lt; exact Hbig).
    reflexivity.
  - intros Hfit Hav Hnull.
    set (s0 := State (Vec 0 0 0) (mem s)).
    assert (Hhead : vector_count count s = default_initialize count s0).
    { unfold vector_count, bind at 1, put_this. fold s0.
      unfold bind at 1, check_init_len.
      replace (max_size <? count)%Z with false
        by (symmetry; apply Z.ltb_ge; exact Hfit).
      reflexivity. }
    rewrite Hhead. unfold default_initialize, create_storage.
    destruct (decide (count = 0%Z)) as [->|Hpos].
    { split.
      - intros d Hd. exists s0. split; [reflexivity|]. simpl.
        split; [reflexivity|]. split; [reflexivity|]. split; [reflexivity|].
        split; [|reflexivity].
        apply (wf_intro _ _ _ _ []); simpl; try lia; try reflexivity.
        left. reflexivity.
      - intros Hnone. exists s0. split; [reflexivity|]. simpl.
        split; [reflexivity|]. split; [reflexivity|]. split; [reflexivity|].
        split; [intros; lia|]. split; [intros; lia|reflexivity]. }
    pose proof max_size_le_alloc as Hma.
    assert (Hc0 : (0 < count)%Z) by lia.
    assert (Hc1 : (count <= alloc_max_size)%Z) by lia.
    pose proof (allocate_ok s0 count Hc0 Hc1 Hav) as Hal.
    simpl in Hal.
    set (base := length (cells (mem s))) in *.
    set (cnt := Z.to_nat count) in *.
    set (hp1 := Heap _ _ _) in Hal.
    assert (Hraw1 : forall i, i < cnt -> cells hp1 !! (base + i) = Some Raw).
    { intros i Hi. simpl. rewrite lookup_app_r by (unfold base; lia).
      apply lookup_replicate_2. unfold base. lia. }
    split.
    + intros d Hd.
      assert (Hwf1 : wf (State (Vec base base (base + cnt)) hp1)).
      { apply (wf_intro _ _ _ _ []); simpl; try lia.
        - rewrite Nat.sub_diag. reflexivity.
        - intros i Hi. rewrite lookup_app_r by (unfold base; lia).
          apply lookup_replicate_2. unfold base. lia.
        - right. unfold blocks, capacity, ncapacity. simpl.
          split; [lia|]. rewrite held_blocks_snoc. left.
          f_equal. lia. }
      assert (Hl1 : contents (State (Vec base base (base + cnt)) hp1)
                    = Some []).
      { unfold contents, nsize. simpl. rewrite Nat.sub_diag. reflexivity. }
      destruct (append_const_ok base base (base + cnt) hp1 []
                  (AMake (Some d)) d cnt Hwf1 Hl1)
        as (hp' & Hrun & Hc & Hwf' & _ & Hout).
      { reflexivity. }
      { lia. }
      exists (State (Vec base (base + cnt) (base + cnt)) hp'). split.
      { unfold bind at 1. unfold bind at 1. rewrite Hal.
        unfold put_this. unfold bind at 1, get_this. simpl.
        unfold bind, uninitialized_default_construct_n. fold cnt.
        rewrite (default_loop_made (Some d)) by exact Hd.
        rewrite Hrun.
        unfold set_finish, bind, get_this, put_this. simpl. reflexivity. }
      split; [exact Hc|].
      unfold size, capacity, nsize, ncapacity. simpl.
      split; [unfold cnt; lia|]. split; [unfold cnt; lia|].
      split; [exact Hwf'|].
      intros a Ha. rewrite Hout by (fold base in Ha; lia). simpl.
      apply lookup_app_l. exact Ha.
    + intros Hnone.
      destruct (default_loop_indet base cnt 0
                  (State (Vec base base (base + cnt)) hp1) Hnone)
        as (s' & Hrun & Hthis & _ & Hout & Hfill).
      { intros j Hj. apply Hraw1. lia. }
      destruct s' as [v' hp']. simpl in Hthis, Hout, Hfill. subst v'.
      exists (State (Vec base (base + (0 + cnt)) (base + cnt)) hp'). split.
      { unfold bind at 1. unfold bind at 1. rewrite Hal.
        unfold put_this. unfold bind at 1, get_this. simpl.
        unfold bind, uninitialized_default_construct_n. fold cnt.
        rewrite Hrun.
        unfold set_finish, bind, get_this, put_this. simpl. reflexivity. }
      unfold size, capacity, nsize, ncapacity. simpl.
      split; [unfold cnt; lia|]. split; [unfold cnt; lia|].
      split.
      { replace (count =? 0)%Z with false
          by (symmetry; apply Z.eqb_neq; exact Hpos).
        reflexivity. }
      split.
      { intros a Ha. replace a with (base + (a - base)) by lia.
        apply Hfill. lia. }
      split.
      { intros i Hi. unfold subscript, bind, get_this, read. simpl.
        rewrite Nat2Z.id, Hfill by lia. reflexivity. }
      intros a Ha. rewrite Hout by (fold base in Ha; lia). simpl.
      apply lookup_app_l. exact Ha.
Qed.

(** X24: [push_back(T&&)] (through [emplace_back]) on a well-formed
    vector with spare capacity, for an object that is not an element of
    the vector: if its move constructor does not throw, its value becomes
    the new last element, the object itself is left in its moved-from
    state, and [begin()] and [capacity()] are unchanged; if the move
    constructor throws, the exception leaves the state as it was. *)
Theorem push_back_move_with_spare_capacity s (l : list T) (a : nat) x :
  wf s ->
  contents s = Some l ->
  finish_ (this s) < end_of_storage_ (this s) ->
  cells (mem s) !! a = Some (Obj x) ->
  ~ start_ (this s) <= a < finish_ (this s) ->
  (move_throws x = false ->
   exists s',
     push_back_move (Loc a) s = Ret tt s' /\
     contents s' = Some (l ++ [x]) /\
     cells (mem s') !! a = Some (Obj (moved_from x)) /\
     start_ (this s') = start_ (this s) /\
     capacity (this s') = capacity (this s) /\
     wf s') /\
  (move_throws x = true ->
   push_back_move (Loc a) s = Throw elem_failure s).
Proof.
  intros Hwf Hl Hspare Ha Hnot.
  destruct s as [[st fi eo] hp]. simpl in *.
  destruct (wf_slots _ _ _ _ _ Hwf Hl)
    as (Hlen & Hobj & Hraw & Hin & Hcap & Hord & Hnull).
  pose proof (Hraw 0 ltac:(lia)) as Hfree. rewrite Nat.add_0_r in Hfree.
  assert (Hafi : a <> fi) by congruence.
  assert (Hspare_ne : forall i, i < eo - fi -> a <> fi + i).
  { intros i Hi ->. rewrite (Hraw i Hi) in Ha. discriminate. }
  pose proof (lookup_lt_Some _ _ _ Ha) as Halt.
  pose proof (lookup_lt_Some _ _ _ Hfree) as Hflt.
  split.
  - intros Hx.
    pose proof (construct_move_ok fi a x (State (Vec st fi eo) hp)
                  Ha Hx Hfree) as Hco.
    set (hp' := Heap _ _ _) in Hco.
    exists (State (Vec st (S fi) eo) hp'). split.
    { unfold push_back_move, emplace_back, bind at 1, get_this. simpl.
      replace (fi =? eo) with false by (symmetry; apply Nat.eqb_neq; lia).
      simpl. unfold bind. rewrite Hco. reflexivity. }
    assert (Hl' : objs_at (cells hp') st (S (length l)) = Some (l ++ [x])).
    { apply objs_at_snoc.
      - apply objs_at_intro. intros t y Ht.
        apply lookup_lt_Some in Ht as Htl. simpl.
        rewrite !list_lookup_insert_ne by lia. apply Hobj, Ht.
      - replace (st + length l) with fi by lia. simpl.
        apply list_lookup_insert_eq. rewrite length_insert. exact Hflt. }
    unfold contents, capacity, nsize, ncapacity. simpl.
    replace (S fi - st) with (S (length l)) by lia.
    split; [exact Hl'|]. split.
    { rewrite list_lookup_insert_ne by congruence.
      apply list_lookup_insert_eq. exact Halt. }
    split; [reflexivity|]. split; [reflexivity|].
    apply (wf_intro _ _ _ _ (l ++ [x])); simpl; try lia.
    + replace (S fi - st) with (S (length l)) by lia. exact Hl'.
    + intros i Hi. rewrite list_lookup_insert_ne by lia.
      specialize (Hraw (S i) ltac:(lia)).
      replace (fi + S i) with (S fi + i) in Hraw by lia.
      rewrite list_lookup_insert_ne; [exact Hraw|].
      pose proof (Hspare_ne (S i) ltac:(lia)). lia.
    + owns_from Hwf.
  - intros Hx. unfold push_back_move, emplace_back, bind at 1, get_this.
    simpl.
    replace (fi =? eo) with false by (symmetry; apply Nat.eqb_neq; lia).
    simpl. unfold bind, construct, eval_arg, deref, bind, read. simpl.
    rewrite Ha, Hx. reflexivity.
Qed.

(** X26: [resize(n, value)] up to exactly [capacity()] does not use the
    spare capacity: [fill_insert] tests [capacity() - size() > count]
    strictly, so it asks the allocator for a new block, and when the
    allocator cannot provide [capacity()] elements the call throws
    [bad_alloc] and leaves the state as it was (where [resize(n)], which
    tests [available >= n], appends in place). *)
Theorem resize_fill_to_capacity_reallocates s (r : ref T) :
  wf s ->
  (1 <= sizeof_T)%Z ->
  (size (this s) < capacity (this s))%Z ->
  (avail (mem s) < capacity (this s))%Z ->
  resize_fill (capacity (this s)) r s = Throw bad_alloc s.
Proof.
  intros Hwf Hsizeof Hlt Hav.
  pose proof Hwf as (Hsf & Hfe & _ & _ & Hcap & _).
  pose proof (wf_size_le_max _ Hwf) as Hmax.
  destruct (check_len_without_wrap s (capacity (this s) - size (this s))
              Hsizeof ltac:(lia) Hmax) as [Hfit _].
  specialize (Hfit ltac:(lia)).
  destruct s as [[st fi eo] hp].
  unfold size, capacity, nsize, ncapacity in *. simpl in *.
  set (s0 := State (Vec st fi eo) hp) in *.
  unfold resize_fill, bind at 1, get_this, size, nsize. simpl.
  replace (Z.of_nat (fi - st) <? Z.of_nat (eo - st))%Z with true
    by (symmetry; apply Z.ltb_lt; lia).
  unfold bind at 1, insert_fill, bind at 1, get_this. simpl.
  replace (st + (fi - st)) with fi by lia.
  unfold bind at 1, fill_insert.
  replace (Z.of_nat (eo - st) - Z.of_nat (fi - st) =? 0)%Z with false
    by (symmetry; apply Z.eqb_neq; lia).
  unfold bind at 1, get_this. simpl.
  replace (Z.of_nat (eo - st) - Z.of_nat (fi - st) <? Z.of_nat (eo - fi))%Z
    with false by (symmetry; apply Z.ltb_ge; lia).
  unfold bind at 1. fold s0. rewrite Hfit.
  unfold bind, allocate, Tr_allocate.
  match goal with
  | |- context [(?n =? 0)%Z] =>
      replace (n =? 0)%Z with false by (symmetry; apply Z.eqb_neq; lia);
      replace ((alloc_max_size <? n) || (avail (mem s0) <? n))%Z with true
  end.
  - reflexivity.
  - symmetry. apply orb_true_iff. right. apply Z.ltb_lt. simpl. lia.
Qed.

(** X27: the range constructor [vector(first, last)] from [k] constructed
    objects that are not part of the new vector.  With [k > max_size()] it
    throws [length_error] before any allocation.  Otherwise, when the
    objects' copy constructors do not throw and the allocator can provide
    [k] elements, the new vector holds the same sequence in a block of its
    own with [capacity() == size() == k]; it is well-formed and no slot
    that existed before has changed. *)
Theorem range_constructor s (first k : nat) (l : list T) :
  objs_at (cells (mem s)) first k = Some l ->
  ((max_size < Z.of_nat k)%Z ->
   vector_range first (first + k) s
     = Throw length_error (State (Vec 0 0 0) (mem s))) /\
  ((Z.of_nat k <= max_size)%Z ->
   (forall y, y ∈ l -> copy_throws y = false) ->
   (Z.of_nat k <= avail (mem s))%Z ->
   0 < length (cells (mem s)) ->
   exists s',
     vector_range first (first + k) s = Ret tt s' /\
     contents s' = Some l /\
     size (this s') = Z.of_nat k /\
     capacity (this s') = Z.of_nat k /\
     wf s' /\
     (forall a, a < length (cells (mem s)) ->
                cells (mem s') !! a = cells (mem s) !! a)).
Proof.
  intros Hl. pose proof (objs_at_length _ _ _ _ Hl) as Hlen.
  set (s0 := State (Vec 0 0 0) (mem s)).
  assert (Hhead : vector_range first (first + k) s =
            (count <- check_init_len (Z.of_nat k);;
             create_storage count;;
             v <- get_this;;
             p <- uninitialized_copy_n first k (start_ v);;
             set_finish p) s0).
  { unfold vector_range, bind at 1, put_this. fold s0.
    unfold ranges_initialize, bind at 1, distance.
    replace (first <=? first + k) with true
      by (symmetry; apply Nat.leb_le; lia).
    unfold ret at 1. replace (first + k - first) with k by lia.
    reflexivity. }
  rewrite Hhead. unfold bind at 1, check_init_len. split.
  - intros Hbig.
    replace (max_size <? Z.of_nat k)%Z with true
      by (symmetry; apply Z.ltb_lt; exact Hbig).
    reflexivity.
  - intros Hfit Hcopy Hav Hnull.
    replace (max_size <? Z.of_nat k)%Z with false
      by (symmetry; apply Z.ltb_ge; exact Hfit).
    unfold ret at 1. unfold create_storage.
    assert (Hold : forall t y, l !! t = Some y ->
              cells (mem s) !! (first + t) = Some (Obj y) /\
              first + t < length (cells (mem s))).
    { intros t y Ht. pose proof (objs_at_lookup _ _ _ _ _ _ Hl Ht) as Hc.
      split; [exact Hc|]. eapply lookup_lt_Some. exact Hc. }
    destruct (decide (k = 0)) as [Hk0|Hk0].
    + exists s0.
      assert (l = []) as -> by (apply nil_length_inv; lia).
      clear Hlen. subst k.
      split; [reflexivity|]. simpl. split; [reflexivity|].
      split; [reflexivity|]. split; [reflexivity|]. split; [|reflexivity].
      apply (wf_intro _ _ _ _ []); simpl; try lia; try reflexivity.
      left. reflexivity.
    + pose proof max_size_le_alloc as Hma.
      assert (Hc0 : (0 < Z.of_nat k)%Z) by lia.
      assert (Hc1 : (Z.of_nat k <= alloc_max_size)%Z) by lia.
      pose proof (allocate_ok s0 _ Hc0 Hc1 Hav) as Hal.
      simpl in Hal. rewrite Nat2Z.id in Hal.
      set (base := length (cells (mem s))) in *.
      set (hp1 := Heap _ _ _) in Hal.
      destruct (uninit_copy_ok first base k 0
                  (State (Vec base base (base + k)) hp1))
        as (s2 & Hrun & Hthis & Hout & Hin2).
      { intros t Ht. destruct (lookup_lt_is_Some_2 l t) as [y Hy]; [lia|].
        destruct (Hold _ _ Hy) as [Hc Hlt]. exists y. split.
        - simpl. rewrite lookup_app_l by exact Hlt. exact Hc.
        - apply Hcopy. eapply list_elem_of_lookup_2. exact Hy. }
      { intros t Ht. simpl. rewrite lookup_app_r by (unfold base; lia).
        apply lookup_replicate_2. unfold base. lia. }
      { intros t t' Ht Ht'.
        destruct (lookup_lt_is_Some_2 l t) as [y Hy]; [lia|].
        destruct (Hold _ _ Hy) as [_ Hlt]. fold base in Hlt. lia. }
      destruct s2 as [v2 hp2]. simpl in Hthis, Hout, Hin2. subst v2.
      assert (Hc : objs_at (cells hp2) base (base + (0 + k) - base)
                   = Some l).
      { replace (base + (0 + k) - base) with (length l) by lia.
        apply objs_at_intro. intros t y Ht.
        destruct (Hold _ _ Ht) as [Hcell Hlt].
        apply lookup_lt_Some in Ht as Htk.
        apply (Hin2 t y); [lia|].
        rewrite lookup_app_l by exact Hlt. exact Hcell. }
      exists (State (Vec base (base + (0 + k)) (base + k)) hp2). split.
      { unfold bind at 1. unfold bind at 1. unfold bind at 1. rewrite Hal.
        unfold put_this. unfold bind at 1, get_this. simpl.
        rewrite Nat2Z.id.
        unfold bind, uninitialized_copy_n. simpl in Hrun.
        rewrite Hrun. unfold set_finish, bind, get_this, put_this. simpl.
        reflexivity. }
      split; [exact Hc|].
      unfold size, capacity, nsize, ncapacity. simpl.
      split; [lia|]. split; [lia|]. split.
      { apply (wf_intro _ _ _ _ l); simpl; try lia; [exact Hc|].
        pose proof (quiet_run _ _ _ _ (quiet_uninit_loop _ _ _ _) Hrun)
          as Hb.
        right. unfold blocks, capacity, ncapacity in *. simpl in *.
        split; [lia|]. rewrite Hb, held_blocks_snoc. left. f_equal. lia. }
      intros a Ha. rewrite Hout by (fold base in Ha; lia).
      apply lookup_app_l. exact Ha.
Qed.

(** ** [Lsh::allocator] *)

(** X25: [Lsh::allocator<T>::allocate(n)] does not check [n]: the byte
    count it passes to [operator new], [n * sizeof(T)] in [size_t]
    arithmetic, is the true size of [n] objects exactly when [n <=
    max_size()]; beyond that it has wrapped around and is too small. *)
Theorem Lsh_allocate_exact_up_to_max_size (n : Z) :
  (1 <= sizeof_T)%Z ->
  (0 <= n)%Z ->
  (Lsh_allocate_bytes n = n * sizeof_T <-> n <= Lsh_max_size)%Z /\
  ((Lsh_max_size < n)%Z -> (Lsh_allocate_bytes n < n * sizeof_T)%Z).
Proof.
  intros Hsz Hn. unfold Lsh_allocate_bytes, Lsh_max_size, wrap.
  assert (HM : (0 < SIZE_MOD)%Z) by reflexivity.
  assert (Hiff : (n <= (SIZE_MOD - 1) / sizeof_T <->
                  n * sizeof_T < SIZE_MOD)%Z).
  { split.
    - intros Hle.
      assert (Hsz0 : (0 < sizeof_T)%Z) by lia.
      pose proof (Z.mul_div_le (SIZE_MOD - 1) sizeof_T Hsz0).
      nia.
    - intros Hlt. apply Z.div_le_lower_bound; lia. }
  split.
  - rewrite Hiff. split.
    + intros Heq.
      pose proof (Z.mod_pos_bound (n * sizeof_T) SIZE_MOD HM). lia.
    + intros Hlt. apply Z.mod_small. nia.
  - intros Hbig.
    pose proof (Z.mod_pos_bound (n * sizeof_T) SIZE_MOD HM).
    assert (~ (n * sizeof_T < SIZE_MOD)%Z) by (rewrite <- Hiff; lia).
    lia.
Qed.

End MoreProperties.

(** * The ordering of vectors *)

Section OrderingProperties.
Context {T : Type} `{Element T} `{Ordered T}.

Lemma objs_at_cons (c : list (cell T)) p n x (l : list T) :
  objs_at c p (S n) = Some (x :: l) ->
  c !! p = Some (Obj x) /\ objs_at c (S p) n = Some l.
Proof.
  simpl. destruct (c !! p) as [[| |v|]|]; try discriminate.
  destruct (objs_at c (S p) n); [|discriminate].
  intros [= -> ->]. split; reflexivity.
Qed.

Lemma lex_loop_spec (l1 : list T) : forall (l2 : list T) p q (s : state T),
  objs_at (cells (mem s)) p (length l1) = Some l1 ->
  objs_at (cells (mem s)) q (length l2) = Some l2 ->
  lex_loop (length l1) (length l2) p q s = Ret (lex_lt l1 l2) s.
Proof.
  induction l1 as [|x t1 IH]; intros [|y t2] p q s H1 H2;
    try reflexivity.
  apply objs_at_cons in H1 as [Hx H1].
  apply objs_at_cons in H2 as [Hy H2].
  cbn [length lex_loop lex_lt]. unfold bind, read. rewrite Hx, Hy.
  destruct (elem_lt x y); [reflexivity|].
  destruct (elem_lt y x); [reflexivity|].
  apply IH; assumption.
Qed.

(** [l1] is lexicographically less than [l2]: at the first index [k] where
    the two sequences differ in the order ([k] elements before it being
    pairwise unordered), either [l1] has ended and [l2] has not, or the
    element of [l1] is less than the one of [l2]. *)
Lemma lex_lt_first_difference (l1 : list T) : forall l2 : list T,
  lex_lt l1 l2 = true <-> lex_less l1 l2.
Proof.
  unfold lex_less.
  induction l1 as [|x t1 IH]; intros [|y t2]; simpl.
  - split; [discriminate|].
    intros (k & _ & _ & _ & [[_ Hk]|(a & b & Ha & _)]);
      [lia|discriminate].
  - split; [|reflexivity]. intros _. exists 0.
    split; [intros; lia|]. split; [lia|]. split; [lia|]. left. lia.
  - split; [discriminate|].
    intros (k & _ & _ & Hk2 & [[_ Hk]|(a & b & _ & Hb & _)]); [lia|].
    destruct k; discriminate.
  - destruct (elem_lt x y) eqn:Exy.
    { split; [|reflexivity]. intros _. exists 0.
      split; [intros; lia|]. split; [lia|]. split; [lia|].
      right. exists x, y. auto. }
    destruct (elem_lt y x) eqn:Eyx.
    { split; [discriminate|].
      intros (k & Hpre & _ & _ & Hk). destruct k as [|k].
      - destruct Hk as [[Hk _]|(a & b & [= <-] & [= <-] & Hab)];
          [discriminate|congruence].
      - destruct (Hpre 0 x y ltac:(lia) eq_refl eq_refl). congruence. }
    rewrite IH. split.
    + intros (k & Hpre & Hk1 & Hk2 & Hk). exists (S k).
      split.
      { intros [|i] a b Hi Ha Hb.
        - injection Ha as <-. injection Hb as <-. auto.
        - apply (Hpre i); [lia|assumption..]. }
      split; [lia|]. split; [lia|].
      destruct Hk as [[-> Hlt]|Hk]; [left; lia|right; exact Hk].
    + intros (k & Hpre & Hk1 & Hk2 & Hk). destruct k as [|k].
      { destruct Hk as [[Hk _]|(a & b & [= <-] & [= <-] & Hab)];
          [discriminate|congruence]. }
      exists k. split.
      { intros i a b Hi Ha Hb. apply (Hpre (S i)); [lia|assumption..]. }
      split; [lia|]. split; [lia|].
      destruct Hk as [[Hk Hlt]|Hk]; [left; lia|right; exact Hk].
Qed.

(** X22: [operator<] on two vectors whose elements are constructed decides
    the lexicographic order of their element sequences under the elements'
    [operator<]: it returns true exactly when, at the first index where the
    sequences are ordered one way or the other, the left one has ended and
    the right one has not, or the left element is the smaller one.  It
    changes nothing, and the other three operators are derived from it:
    [rhs > lhs] is [lhs < rhs], and [lhs >= rhs] and [rhs <= lhs] are its
    negation. *)
Theorem operator_lt_lexicographic (s : state T) (lhs rhs : vec)
    (ls rs : list T) :
  start_ lhs <= finish_ lhs ->
  start_ rhs <= finish_ rhs ->
  objs_at (cells (mem s)) (start_ lhs) (nsize lhs) = Some ls ->
  objs_at (cells (mem s)) (start_ rhs) (nsize rhs) = Some rs ->
  exists b,
    operator_lt lhs rhs s = Ret b s /\
    (b = true <-> lex_less ls rs) /\
    operator_gt rhs lhs s = Ret b s /\
    operator_ge lhs rhs s = Ret (negb b) s /\
    operator_le rhs lhs s = Ret (negb b) s.
Proof.
  intros Hl Hr Hls Hrs.
  assert (Hrun : operator_lt lhs rhs s = Ret (lex_lt ls rs) s).
  { unfold operator_lt, lexicographical_compare, distance, bind.
    apply Nat.leb_le in Hl, Hr. rewrite Hl, Hr. unfold ret.
    pose proof (objs_at_length _ _ _ _ Hls) as Hn1.
    pose proof (objs_at_length _ _ _ _ Hrs) as Hn2.
    unfold nsize in Hls, Hrs, Hn1, Hn2.
    rewrite <- Hn1, <- Hn2 in *. apply lex_loop_spec; assumption. }
  exists (lex_lt ls rs). split; [exact Hrun|].
  split; [apply lex_lt_first_difference|].
  unfold operator_gt, operator_ge, operator_le, bind. rewrite Hrun.
  split; [reflexivity|]. split; reflexivity.
Qed.

End OrderingProperties.

(** * The properties on concrete vectors *)

Ltac wf_by_computation :=
  unfold wf; cbv zeta;
  split; [|split; [|split; [|split; [|split; [|split]]]]];
  [ vm_compute; lia
  | vm_compute; lia
  | eexists; vm_compute; reflexivity
  | vm_compute; reflexivity
  | vm_compute; discriminate
  | vm_compute; lia
  | first [ left; reflexivity
          | right; split; [vm_compute; lia|vm_compute; tauto] ] ].

Section IntFacts.
#[local] Existing Instance int_elem.

(** The concrete states are reached from the empty vector. *)
Example int_states_reached :
  after ((push_back (Ext 1%Z);; push_back (Ext 2%Z);; push_back (Ext 3%Z))
           fresh) = v123_spare /\
  after (push_back (Ext 4%Z) v123_spare) = v1234_full /\
  after ((push_back (Ext 1%Z);; push_back (Ext 2%Z)) fresh) = v12_full /\
  after ((reserve 2;; push_back (Ext 7%Z)) fresh) = v7_cap2.
Proof.
  split; [|split; [|split]]; vm_compute; reflexivity.
Qed.

Lemma wf_v123_spare : wf v123_spare.
Proof. wf_by_computation. Qed.

Lemma wf_v1234_full : wf v1234_full.
Proof. wf_by_computation. Qed.

(** The scenario of section 8 of the specification that the model
    supports: five appends from empty give [1, 2, 3, 4, 5]; inserting [0]
    at the front gives [0, 1, 2, 3, 4, 5]; [resize(3)] keeps the first
    three; [resize(5, 9)] appends two nines. *)
Example scenario_push_insert_resize :
  let s5 := after ((push_back (Ext 1%Z);; push_back (Ext 2%Z);;
                    push_back (Ext 3%Z);; push_back (Ext 4%Z);;
                    push_back (Ext 5%Z)) fresh) in
  let s6 := after ((v <- get_this;; insert (start_ v) (ACopy (Ext 0%Z));;
                    ret tt) s5) in
  let s3 := after (resize 3 s6) in
  let s9 := after (resize_fill 5 (Ext 9%Z) s3) in
  contents s5 = Some [1; 2; 3; 4; 5]%Z /\
  contents s6 = Some [0; 1; 2; 3; 4; 5]%Z /\
  contents s3 = Some [0; 1; 2]%Z /\
  contents s9 = Some [0; 1; 2; 9; 9]%Z.
Proof.
  intros s5 s6 s3 s9. split; [|split; [|split]]; vm_compute; reflexivity.
Qed.

(** Assignment between two distinct objects, [a = {1, 2, 3}] and an empty
    [b]: [b = a] gives [b] its own block with a copy of the elements and
    leaves [a] alone; [b = std::move(a)] hands [a]'s block to [b] and
    leaves [a] empty. *)
Example assignment_between_objects :
  let w := World [this v123_spare; Vec 0 0 0] (mem v123_spare) in
  operator_assign 1 0 w =
    Ret tt (World [Vec 4 7 8; Vec 8 11 11]
              (Heap [Free; Free; Free; Free; Obj 1%Z; Obj 2%Z; Obj 3%Z; Raw;
                     Obj 1%Z; Obj 2%Z; Obj 3%Z]
                    990
                    (log (mem v123_spare) ++
                     [EAlloc 3 8; EConstruct 8; EConstruct 9;
                      EConstruct 10]))) /\
  operator_assign_move 1 0 w =
    Ret tt (World [Vec 0 0 0; Vec 4 7 8] (mem v123_spare)).
Proof. intros w. split; vm_compute; reflexivity. Qed.

(** [reserve(100)] on an empty vector: capacity [100], size [0], no element
    constructed. *)
Example reserve_on_empty :
  reserve 100 fresh =
    Ret tt (State (Vec 1 1 101)
              (Heap (Free :: replicate 100 Raw) 900 [EAlloc 100 1])).
Proof. vm_compute. reflexivity. Qed.

(** C2: [c = {1, 2, 3}] with one spare slot; [c.insert(c.begin(),
    c.back())] takes the path without reallocation, shifts the elements
    first and reads the argument afterwards, when its slot already holds
    the former second-to-last element: the result is [2, 1, 2, 3], not
    [3, 1, 2, 3]. *)
Theorem insert_own_back_in_place_reads_shifted_slot :
  contents v123_spare = Some [1; 2; 3]%Z /\
  capacity (this v123_spare) = 4%Z /\
  exists s',
    insert (start_ (this v123_spare))
           (ACopy (Loc (finish_ (this v123_spare) - 1))) v123_spare
      = Ret (start_ (this s')) s' /\
    contents s' = Some [2; 1; 2; 3]%Z.
Proof.
  split; [vm_compute; reflexivity|]. split; [vm_compute; reflexivity|].
  exists (after (insert (start_ (this v123_spare))
                        (ACopy (Loc (finish_ (this v123_spare) - 1)))
                        v123_spare)).
  split; vm_compute; reflexivity.
Qed.

(** The same call on a full vector reallocates, builds the new element
    from the argument before any old element is moved, and inserts the
    value the last element had. *)
Example insert_own_back_reallocating :
  contents v1234_full = Some [1; 2; 3; 4]%Z /\
  capacity (this v1234_full) = 4%Z /\
  exists s',
    insert (start_ (this v1234_full))
           (ACopy (Loc (finish_ (this v1234_full) - 1))) v1234_full
      = Ret (start_ (this s')) s' /\
    contents s' = Some [4; 1; 2; 3; 4]%Z.
Proof.
  split; [vm_compute; reflexivity|]. split; [vm_compute; reflexivity|].
  exists (after (insert (start_ (this v1234_full))
                        (ACopy (Loc (finish_ (this v1234_full) - 1)))
                        v1234_full)).
  split; vm_compute; reflexivity.
Qed.

(** C3: on [v = {1, 2}], a request for [2^64 - 1] more elements makes
    [count + size()] wrap around to [1]; [check_len] does not throw
    [length_error] although the required capacity exceeds [max_size()], it
    returns [max_size()], and [insert(begin(), 2^64 - 1, x)] goes on to the
    allocator, which fails with [bad_alloc]. *)
Theorem check_len_wraps_past_max_size :
  size (this v12_full) = 2%Z /\
  (max_size < (2 ^ 64 - 1) + size (this v12_full))%Z /\
  check_len (2 ^ 64 - 1) v12_full = Ret max_size v12_full /\
  insert_fill (start_ (this v12_full)) (2 ^ 64 - 1) (Ext 0%Z) v12_full
    = Throw bad_alloc v12_full.
Proof.
  split; [|split; [|split]]; vm_compute; reflexivity.
Qed.

(** C4: [v = {1, 2, 3}] lives in the block of four slots that
    [allocate(4)] returned at address [4].  [shrink_to_fit] passes
    [finish_ = 7], a pointer into the middle of that block, with count [1]
    to the allocator's [deallocate].  The allocator holds no block that
    starts there: the call is outside the allocator's contract, the
    behaviour of [shrink_to_fit] is undefined, and [capacity() == size()]
    is not reached.  Only on a vector with [capacity() == size()], such as
    [{1, 2, 3, 4}], where it does nothing, is the call defined. *)
Theorem shrink_to_fit_releases_interior_pointer :
  wf v123_spare /\
  contents v123_spare = Some [1; 2; 3]%Z /\
  size (this v123_spare) = 3%Z /\
  capacity (this v123_spare) = 4%Z /\
  blocks v123_spare = [(4, 4%Z)] /\
  finish_ (this v123_spare) = 7 /\
  holds_block 7 1 (blocks v123_spare) = false /\
  deallocate (finish_ (this v123_spare))
             (Z.of_nat (end_of_storage_ (this v123_spare)
                        - finish_ (this v123_spare)))
             v123_spare = Undef /\
  shrink_to_fit v123_spare = Undef /\
  capacity (this v1234_full) = size (this v1234_full) /\
  shrink_to_fit v1234_full = Ret tt v1234_full.
Proof.
  split; [exact wf_v123_spare|].
  repeat split; vm_compute; reflexivity.
Qed.

(** C5: a vector holding one element in a block of two slots: the
    destructor calls [deallocate(start_, size())], that is with count [1]
    for the block that [allocate(2)] returned (the call with
    [capacity()] would have been in order); and [shrink_to_fit] on
    [{1, 2, 3}] with capacity [4] calls [deallocate] on [finish_], which
    no [allocate] returned.  Both calls break the allocator's contract:
    the log with the call appended is not a log of the allocator, and the
    behaviour of the destructor and of [shrink_to_fit] is undefined. *)
Theorem deallocate_calls_break_allocator_contract :
  (log (mem v7_cap2) = [EAlloc 2 1; EConstruct 1] /\
   blocks v7_cap2 = [(1, 2%Z)] /\
   size (this v7_cap2) = 1%Z /\
   exists s1,
     std_destroy (start_ (this v7_cap2)) (finish_ (this v7_cap2)) v7_cap2
       = Ret tt s1 /\
     log (mem s1) = [EAlloc 2 1; EConstruct 1; EDestroy 1] /\
     Tr_deallocate (start_ (this v7_cap2)) (size (this v7_cap2)) s1
       = Undef /\
     vector_dtor v7_cap2 = Undef /\
     log_ok (log (mem s1) ++ [EDealloc 1 1]) = false /\
     exists s2,
       Tr_deallocate (start_ (this v7_cap2)) (capacity (this v7_cap2)) s1
         = Ret tt s2 /\
       log (mem s2) = log (mem s1) ++ [EDealloc 1 2] /\
       log_ok (log (mem s2)) = true) /\
  (log_ok (log (mem v123_spare)) = true /\
   In (EAlloc 4 4) (log (mem v123_spare)) /\
   deallocate (finish_ (this v123_spare))
              (Z.of_nat (end_of_storage_ (this v123_spare)
                         - finish_ (this v123_spare)))
              v123_spare = Undef /\
   shrink_to_fit v123_spare = Undef /\
   log_ok (log (mem v123_spare) ++ [EDealloc 7 1]) = false).
Proof.
  split.
  - split; [vm_compute; reflexivity|]. split; [vm_compute; reflexivity|].
    split; [vm_compute; reflexivity|].
    exists (after (std_destroy (start_ (this v7_cap2))
                               (finish_ (this v7_cap2)) v7_cap2)).
    split; [vm_compute; reflexivity|]. split; [vm_compute; reflexivity|].
    split; [vm_compute; reflexivity|]. split; [vm_compute; reflexivity|].
    split; [vm_compute; reflexivity|].
    eexists. split; [vm_compute; reflexivity|].
    split; vm_compute; reflexivity.
  - split; [vm_compute; reflexivity|]. split; [vm_compute; tauto|].
    split; [vm_compute; reflexivity|]. split; vm_compute; reflexivity.
Qed.

End IntFacts.

Section FragileFacts.
#[local] Existing Instance fragile_elem.

Example fragile_state_reached :
  after ((push_back (Ext 5%Z);; push_back (Ext 13%Z)) fresh) = v5_13_full.
Proof. vm_compute. reflexivity. Qed.

Lemma wf_v5_13_full : wf v5_13_full.
Proof. wf_by_computation. Qed.

(** C1, as stated, fails: [v = {5, 13}] is full and the move constructor
    throws on [13].  [push_back(7)] allocates a block of four slots at
    address [4], builds [7] in its third slot, moves [5] over, and fails on
    [13].  The exception propagates with the first old element moved from
    ([0, 13] instead of [5, 13]), with [7] still constructed in the new
    block, and with the new block never handed back to the allocator. *)
Lemma failed_push_back_leaks_and_moves_out :
  contents v5_13_full = Some [5; 13]%Z /\
  run_growth (g_push_back (Ext 7%Z)) v5_13_full
    = Throw elem_failure v5_13_failed /\
  contents v5_13_failed = Some [0; 13]%Z /\
  contents v5_13_failed <> contents v5_13_full /\
  log (mem v5_13_failed) =
    log (mem v5_13_full) ++
    [EAlloc 4 4; EConstruct 6; EConstruct 4; EDestroy 4] /\
  cells (mem v5_13_failed) !! 6 = Some (Obj 7%Z) /\
  ~ In (EDealloc 4 4) (log (mem v5_13_failed)).
Proof.
  split; [vm_compute; reflexivity|]. split; [vm_compute; reflexivity|].
  split; [vm_compute; reflexivity|]. split; [vm_compute; discriminate|].
  split; [vm_compute; reflexivity|]. split; [vm_compute; reflexivity|].
  vm_compute. intuition discriminate.
Qed.

Lemma failed_growth_keeps_vector_witness :
  wf v5_13_full /\
  reallocates (g_push_back (Ext 7%Z)) (this v5_13_full) /\
  run_growth (g_push_back (Ext 7%Z)) v5_13_full
    = Throw elem_failure v5_13_failed /\
  this v5_13_failed = this v5_13_full /\
  exists l', contents v5_13_failed = Some l' /\
             Forall2 residue [5; 13]%Z l'.
Proof.
  assert (Hre : reallocates (g_push_back (Ext 7%Z)) (this v5_13_full))
    by (vm_compute; reflexivity).
  assert (Hrun : run_growth (g_push_back (Ext 7%Z)) v5_13_full
                 = Throw elem_failure v5_13_failed)
    by (vm_compute; reflexivity).
  split; [exact wf_v5_13_full|]. split; [exact Hre|]. split; [exact Hrun|].
  destruct (failed_growth_keeps_vector _ _ _ _ wf_v5_13_full Hre Hrun)
    as (Hthis & _ & _ & _ & Hl).
  split; [exact Hthis|].
  destruct (Hl [5; 13]%Z eq_refl) as (l' & Hl' & Hall & _).
  exists l'. split; assumption.
Defined.

End FragileFacts.

Section IntWitnesses.
#[local] Existing Instance int_elem.

Lemma operator_eq_spec_witness :
  let lhs := this v123_spare in
  let rhs := Vec 5 7 8 in
  start_ lhs <= finish_ lhs /\
  objs_at (cells (mem v123_spare)) (start_ lhs) (nsize lhs)
    = Some [1; 2; 3]%Z /\
  objs_at (cells (mem v123_spare)) (start_ rhs) (nsize rhs)
    = Some [2; 3]%Z /\
  exists b,
    operator_eq lhs rhs v123_spare = Ret b v123_spare /\
    operator_ne lhs rhs v123_spare = Ret (negb b) v123_spare.
Proof.
  intros lhs rhs.
  assert (H1 : start_ lhs <= finish_ lhs) by (vm_compute; lia).
  assert (H2 : objs_at (cells (mem v123_spare)) (start_ lhs) (nsize lhs)
               = Some [1; 2; 3]%Z) by (vm_compute; reflexivity).
  assert (H3 : objs_at (cells (mem v123_spare)) (start_ rhs) (nsize rhs)
               = Some [2; 3]%Z) by (vm_compute; reflexivity).
  split; [exact H1|]. split; [exact H2|]. split; [exact H3|].
  destruct (operator_eq_spec v123_spare lhs rhs _ _ H1 H2 H3)
    as (b & Heq & _ & Hne).
  exists b. split; assumption.
Defined.

Lemma assign_own_range_unchanged_witness :
  wf v123_spare /\
  contents v123_spare = Some [1; 2; 3]%Z /\
  exists s',
    assign (start_ (this v123_spare)) (finish_ (this v123_spare)) v123_spare
      = Ret tt s' /\
    size (this s') = size (this v123_spare) /\
    capacity (this s') = capacity (this v123_spare) /\
    contents s' = Some [1; 2; 3]%Z.
Proof.
  assert (Hc : contents v123_spare = Some [1; 2; 3]%Z)
    by (vm_compute; reflexivity).
  split; [exact wf_v123_spare|]. split; [exact Hc|].
  destruct (assign_own_range_unchanged v123_spare _ wf_v123_spare Hc)
    as (s' & _ & Hsz & Hcap & Hc' & Hret).
  exists s'. split; [apply Hret; intros x _; reflexivity|].
  repeat split; assumption.
Defined.

Lemma reserve_spec_witness :
  wf v123_spare /\
  contents v123_spare = Some [1; 2; 3]%Z /\
  exists s',
    reserve 10 v123_spare = Ret tt s' /\
    capacity (this s') = 10%Z /\
    size (this s') = size (this v123_spare) /\
    contents s' = Some [1; 2; 3]%Z /\
    start_ (this s') = 8 /\
    blocks s' = [(8, 10%Z)] /\
    (forall a, 4 <= a < 8 -> cells (mem s') !! a = Some Free) /\
    wf s'.
Proof.
  assert (Hc : contents v123_spare = Some [1; 2; 3]%Z)
    by (vm_compute; reflexivity).
  split; [exact wf_v123_spare|]. split; [exact Hc|].
  destruct (reserve_spec v123_spare 10 _ wf_v123_spare Hc)
    as (_ & Hgrow & _).
  destruct Hgrow
    as (s' & Hrun & _ & Hcap & Hsz & Hc' & Hst & Hb & Hfree & _ & Hwf').
  { vm_compute. split; [reflexivity|intros Hgt; discriminate Hgt]. }
  { vm_compute. intros Hgt; discriminate Hgt. }
  { intros x _. reflexivity. }
  exists s'. split; [exact Hrun|]. split; [exact Hcap|].
  split; [exact Hsz|]. split; [exact Hc'|]. split; [exact Hst|].
  split; [exact Hb|]. split; [exact Hfree|].
  apply Hwf'. vm_compute. lia.
Defined.

End IntWitnesses.

(** * The further properties on concrete vectors *)

Section MoreWitnesses.
#[local] Existing Instance int_elem.
#[local] Existing Instance int_lt.

(** The further concrete states are reached from empty vectors. *)
Example more_states_reached :
  after ((push_back (Ext 1%Z);; push_back (Ext 2%Z);; push_back (Ext 3%Z))
           (State (Vec 0 0 0) (Heap [Free] 7 []))) = v123_spare_exhausted /\
  after ((reserve 4;; push_back (Ext 1%Z)) fresh) = v1_cap4 /\
  (on_object 1 (reserve 2;; push_back (Ext 7%Z));;
   on_object 0 (reserve 4;; push_back (Ext 1%Z);; push_back (Ext 2%Z);;
                push_back (Ext 3%Z)))
    (World [Vec 0 0 0; Vec 0 0 0] empty_heap) = Ret tt two_vectors.
Proof.
  split; [|split]; vm_compute; reflexivity.
Qed.

Lemma wf_v123_spare_exhausted : wf v123_spare_exhausted.
Proof. wf_by_computation. Qed.

Lemma wf_v1_cap4 : wf v1_cap4.
Proof. wf_by_computation. Qed.

Lemma wf_two_vectors_0 : wf (state_of two_vectors (Vec 3 6 7)).
Proof. wf_by_computation. Qed.

Lemma wf_two_vectors_1 : wf (state_of two_vectors (Vec 1 2 3)).
Proof. wf_by_computation. Qed.

Lemma contents_v123_spare : contents v123_spare = Some [1; 2; 3]%Z.
Proof. vm_compute. reflexivity. Qed.

Lemma contents_v1234_full : contents v1234_full = Some [1; 2; 3; 4]%Z.
Proof. vm_compute. reflexivity. Qed.

Lemma int_sizeof : (1 <= sizeof_T)%Z.
Proof. vm_compute. intros Hgt. discriminate Hgt. Qed.

Lemma int_copies (l : list Z) : forall y, y ∈ l -> copy_throws y = false.
Proof. intros y _. reflexivity. Qed.

Lemma int_moves (l : list Z) : forall y, y ∈ l -> move_throws y = false.
Proof. intros y _. reflexivity. Qed.

Lemma push_back_with_spare_capacity_witness :
  wf v123_spare /\
  exists s',
    push_back (Ext 9%Z) v123_spare = Ret tt s' /\
    contents s' = Some [1; 2; 3; 9]%Z /\
    capacity (this s') = capacity (this v123_spare) /\
    wf s'.
Proof.
  split; [exact wf_v123_spare|].
  assert (Hsp : finish_ (this v123_spare) < end_of_storage_ (this v123_spare))
    by (simpl; lia).
  destruct (push_back_with_spare_capacity v123_spare _ (Ext 9%Z) 9%Z
              wf_v123_spare contents_v123_spare Hsp eq_refl) as [Hok _].
  destruct (Hok eq_refl) as (s' & Hrun & Hc & _ & Hcap & _ & _ & Hwf).
  exists s'. split; [exact Hrun|]. split; [exact Hc|].
  split; [exact Hcap|exact Hwf].
Defined.

Lemma pop_back_removes_last_witness :
  wf v123_spare /\
  exists s',
    pop_back v123_spare = Ret tt s' /\
    contents s' = Some [1; 2]%Z /\
    capacity (this s') = capacity (this v123_spare) /\
    wf s'.
Proof.
  split; [exact wf_v123_spare|].
  destruct (pop_back_removes_last v123_spare [1; 2]%Z 3%Z
              wf_v123_spare contents_v123_spare)
    as (s' & Hrun & Hc & _ & Hcap & _ & Hwf).
  exists s'. split; [exact Hrun|]. split; [exact Hc|].
  split; [exact Hcap|exact Hwf].
Defined.

Lemma push_back_then_pop_back_witness :
  (push_back (Ext 9%Z);; pop_back) v123_spare =
    Ret tt (logged v123_spare [EConstruct 7; EDestroy 7]).
Proof.
  assert (Hsp : finish_ (this v123_spare) < end_of_storage_ (this v123_spare))
    by (simpl; lia).
  exact (push_back_then_pop_back v123_spare (Ext 9%Z) 9%Z
           wf_v123_spare Hsp eq_refl eq_refl).
Defined.

Lemma at_checks_bounds_witness :
  at_ 1 v123_spare = Ret 2%Z v123_spare /\
  at_ 3 v123_spare = Throw out_of_range v123_spare.
Proof.
  assert (H1 : (0 <= 1)%Z) by lia.
  assert (H3 : (0 <= 3)%Z) by lia.
  split.
  - apply (at_checks_bounds v123_spare _ 1 wf_v123_spare
             contents_v123_spare H1).
    reflexivity.
  - apply (at_checks_bounds v123_spare _ 3 wf_v123_spare
             contents_v123_spare H3).
    vm_compute. intros Hgt. discriminate Hgt.
Defined.

Lemma erase_removes_element_witness :
  exists s',
    erase 4 v123_spare = Ret 4 s' /\
    contents s' = Some [2; 3]%Z /\
    wf s'.
Proof.
  destruct (erase_removes_element v123_spare _ 0 1%Z
              wf_v123_spare contents_v123_spare eq_refl)
    as (s' & Hrun & Hc & _ & _ & _ & Hwf).
  { intros t y _ _. reflexivity. }
  exists s'. split; [exact Hrun|]. split; [exact Hc|exact Hwf].
Defined.

Lemma erase_range_removes_elements_witness :
  exists s',
    erase_range 4 6 v123_spare = Ret 4 s' /\
    contents s' = Some [3]%Z /\
    wf s'.
Proof.
  assert (Hij : 0 <= 2 <= length [1; 2; 3]%Z) by (simpl; lia).
  destruct (erase_range_removes_elements v123_spare _ 0 2
              wf_v123_spare contents_v123_spare Hij)
    as (s' & Hrun & Hc & _ & _ & Hwf & _).
  { intros t y _ _. reflexivity. }
  exists s'. split; [exact Hrun|]. split; [exact Hc|exact Hwf].
Defined.

Lemma push_back_reallocates_witness :
  exists s',
    push_back (Ext 5%Z) v1234_full = Ret tt s' /\
    contents s' = Some [1; 2; 3; 4; 5]%Z /\
    capacity (this s') = 8%Z /\
    wf s'.
Proof.
  assert (Hroom : (size (this v1234_full) + 1 <= max_size)%Z)
    by (vm_compute; intros Hgt; discriminate Hgt).
  assert (Hav : (2 * size (this v1234_full) + 1 <= avail (mem v1234_full))%Z)
    by (vm_compute; intros Hgt; discriminate Hgt).
  assert (Hnz : 0 < length (cells (mem v1234_full))) by (simpl; lia).
  destruct (push_back_reallocates v1234_full _ (Ext 5%Z) 5%Z
              wf_v1234_full contents_v1234_full eq_refl eq_refl eq_refl
              (int_moves _) int_sizeof Hroom Hav Hnz)
    as (s' & Hrun & Hc & _ & Hcap & Hwf & _).
  exists s'. split; [exact Hrun|]. split; [exact Hc|].
  split; [exact Hcap|exact Hwf].
Defined.

Lemma insert_reallocates_witness :
  exists s',
    insert 5 (ACopy (Loc 7)) v1234_full = Ret (start_ (this s') + 1) s' /\
    contents s' = Some [1; 4; 2; 3; 4]%Z /\
    wf s'.
Proof.
  assert (Hi : 1 <= length [1; 2; 3; 4]%Z) by (simpl; lia).
  assert (Hroom : (size (this v1234_full) + 1 <= max_size)%Z)
    by (vm_compute; intros Hgt; discriminate Hgt).
  assert (Hav : (2 * size (this v1234_full) + 1 <= avail (mem v1234_full))%Z)
    by (vm_compute; intros Hgt; discriminate Hgt).
  assert (Hnz : 0 < length (cells (mem v1234_full))) by (simpl; lia).
  destruct (insert_reallocates v1234_full _ 1 (Loc 7) 4%Z
              wf_v1234_full contents_v1234_full eq_refl Hi eq_refl eq_refl
              (int_moves _) int_sizeof Hroom Hav Hnz)
    as (s' & Hrun & Hc & _ & _ & Hwf & _).
  exists s'. split; [exact Hrun|]. split; [exact Hc|exact Hwf].
Defined.

Lemma insert_in_place_witness :
  exists s',
    insert 5 (ACopy (Ext 9%Z)) v123_spare = Ret 5 s' /\
    contents s' = Some [1; 9; 2; 3]%Z /\
    wf s'.
Proof.
  assert (Hsp : finish_ (this v123_spare) < end_of_storage_ (this v123_spare))
    by (simpl; lia).
  assert (Hi : 1 <= length [1; 2; 3]%Z) by (simpl; lia).
  destruct (insert_in_place v123_spare _ 1 (Ext 9%Z) 9%Z
              wf_v123_spare contents_v123_spare Hsp Hi eq_refl I eq_refl)
    as (s' & Hrun & Hc & _ & _ & Hwf & _).
  { intros t y _ _. reflexivity. }
  exists s'. split; [exact Hrun|]. split; [exact Hc|exact Hwf].
Defined.

Lemma clear_keeps_capacity_witness :
  exists s',
    clear v123_spare = Ret tt s' /\
    contents s' = Some [] /\
    capacity (this s') = 4%Z /\
    wf s'.
Proof.
  destruct (clear_keeps_capacity v123_spare wf_v123_spare)
    as (s' & Hrun & Hc & _ & _ & Hcap & Hwf).
  exists s'. split; [exact Hrun|]. split; [exact Hc|].
  split; [exact Hcap|exact Hwf].
Defined.

Lemma resize_shrinks_witness :
  exists s',
    resize 1 v123_spare = Ret tt s' /\
    resize_fill 1 (Ext 9%Z) v123_spare = Ret tt s' /\
    contents s' = Some [1]%Z /\
    capacity (this s') = 4%Z.
Proof.
  assert (Hn : (0 <= 1 <= size (this v123_spare))%Z)
    by (split; vm_compute; intros Hgt; discriminate Hgt).
  destruct (resize_shrinks v123_spare _ 1 wf_v123_spare
              contents_v123_spare Hn)
    as (s' & Hrun & Hfill & Hc & _ & _ & Hcap & _).
  exists s'. split; [exact Hrun|]. split; [exact (Hfill (Ext 9%Z))|].
  split; [exact Hc|exact Hcap].
Defined.

Lemma element_access_witness :
  subscript 1 v123_spare = Ret 2%Z v123_spare /\
  front v123_spare = Ret 1%Z v123_spare /\
  back v123_spare = Ret 3%Z v123_spare.
Proof.
  destruct (element_access v123_spare _ wf_v123_spare contents_v123_spare)
    as (Hsub & Hfront & Hback).
  split; [exact (Hsub 1 2%Z eq_refl)|].
  split; [exact (Hfront 1%Z eq_refl)|exact (Hback 3%Z eq_refl)].
Defined.

Lemma wf_v123_spare_fragile : wf (H := fragile_elem) v123_spare.
Proof. wf_by_computation. Qed.

Lemma resize_grows_in_place_witness :
  (exists s',
     resize 4 v123_spare = Ret tt s' /\
     size (this s') = 4%Z /\
     start_ (this s') = 4 /\
     subscript 2 s' = Ret 3%Z s' /\
     cells (mem s') !! 7 = Some Indet /\
     subscript 3 s' = Undef) /\
  (exists s',
     resize (H := fragile_elem) 4 v123_spare = Ret tt s' /\
     contents s' = Some [1; 2; 3; 0]%Z /\
     start_ (this s') = 4 /\
     wf (H := fragile_elem) s').
Proof.
  assert (Hn : (size (this v123_spare) < 4 <= capacity (this v123_spare))%Z)
    by (split; [vm_compute; reflexivity
               |vm_compute; intros Hgt; discriminate Hgt]).
  split.
  - destruct (resize_grows_in_place v123_spare _ 4 wf_v123_spare
                contents_v123_spare Hn)
      as (_ & Hindet & _).
    destruct (Hindet eq_refl)
      as (s' & Hrun & Hsz & Hst & _ & _ & _ & Hold & Hnew & Hread & _).
    exists s'. split; [exact Hrun|]. split; [exact Hsz|].
    split; [exact Hst|]. split; [exact (Hold 2 3%Z eq_refl)|].
    assert (Hfi : finish_ (this s') = 8).
    { change (start_ (this v123_spare)) with 4 in Hst.
      unfold size, nsize in Hsz. rewrite Hst in Hsz. lia. }
    split.
    + apply Hnew. rewrite Hfi. simpl. lia.
    + apply (Hread 3). simpl. lia.
  - destruct (resize_grows_in_place (H := fragile_elem) v123_spare _ 4
                wf_v123_spare_fragile contents_v123_spare Hn)
      as (Hmade & _).
    destruct (Hmade 0%Z eq_refl)
      as (s' & Hrun & Hc & _ & Hst & _ & _ & Hwf).
    exists s'. split; [exact Hrun|]. split; [exact Hc|].
    split; [exact Hst|exact Hwf].
Defined.

Lemma resize_fill_grows_in_place_witness :
  exists s',
    resize_fill 3 (Ext 9%Z) v1_cap4 = Ret tt s' /\
    contents s' = Some [1; 9; 9]%Z /\
    start_ (this s') = 1 /\
    wf s'.
Proof.
  assert (Hc0 : contents v1_cap4 = Some [1]%Z) by (vm_compute; reflexivity).
  assert (Hn : (size (this v1_cap4) < 3 < capacity (this v1_cap4))%Z)
    by (split; vm_compute; reflexivity).
  destruct (resize_fill_grows_in_place v1_cap4 _ 3 (Ext 9%Z) 9%Z wf_v1_cap4
              Hc0 eq_refl eq_refl Hn)
    as (s' & Hrun & Hc & _ & Hst & _ & _ & Hwf).
  exists s'. split; [exact Hrun|]. split; [exact Hc|].
  split; [exact Hst|exact Hwf].
Defined.

Lemma fill_constructor_witness :
  exists s',
    vector_fill 2 (Ext 9%Z) fresh = Ret tt s' /\
    contents s' = Some [9; 9]%Z /\
    capacity (this s') = 2%Z /\
    wf s'.
Proof.
  assert (H0 : (0 <= 2)%Z) by lia.
  destruct (fill_constructor fresh (Ext 9%Z) 9%Z 2 eq_refl H0) as [_ Hok].
  destruct Hok as (s' & Hrun & Hc & _ & Hcap & Hwf & _).
  { vm_compute. intros Hgt. discriminate Hgt. }
  { vm_compute. intros Hgt. discriminate Hgt. }
  { reflexivity. }
  { simpl. lia. }
  exists s'. split; [exact Hrun|]. split; [exact Hc|].
  split; [exact Hcap|exact Hwf].
Defined.

Lemma copy_constructor_witness :
  exists s',
    vector_copy (Vec 4 7 8) v123_spare = Ret tt s' /\
    contents s' = Some [1; 2; 3]%Z /\
    capacity (this s') = 3%Z /\
    contents (State (Vec 4 7 8) (mem s')) = Some [1; 2; 3]%Z.
Proof.
  assert (Hav : (size (Vec 4 7 8) <= avail (mem v123_spare))%Z)
    by (vm_compute; intros Hgt; discriminate Hgt).
  assert (Hnz : 0 < length (cells (mem v123_spare))) by (simpl; lia).
  destruct (copy_constructor v123_spare (Vec 4 7 8) _
              wf_v123_spare contents_v123_spare (int_copies _) Hav Hnz)
    as (s' & Hrun & Hc & Hcap & _ & _ & Hother).
  exists s'. split; [exact Hrun|]. split; [exact Hc|].
  split; [exact Hcap|exact Hother].
Defined.

Lemma copy_assignment_witness :
  exists w',
    operator_assign 0 1 two_vectors = Ret tt w' /\
    contents_of w' 0 = Some [7]%Z /\
    contents_of w' 1 = Some [7]%Z.
Proof.
  assert (Hne : 0 <> 1) by lia.
  assert (Hlb : contents_of two_vectors 1 = Some [7]%Z)
    by (vm_compute; reflexivity).
  assert (Hap : apart (Vec 3 6 7) (Vec 1 2 3))
    by (right; left; simpl; lia).
  destruct (copy_assignment two_vectors 0 1 (Vec 3 6 7) (Vec 1 2 3) _
              Hne eq_refl eq_refl wf_two_vectors_0 wf_two_vectors_1 Hlb Hap
              (int_copies _))
    as (w' & a' & Hrun & _ & _ & Hc0 & Hc1 & _).
  { vm_compute. intros Hlt. discriminate Hlt. }
  exists w'. split; [exact Hrun|]. split; [exact Hc0|exact Hc1].
Defined.

Lemma move_assignment_witness :
  exists w',
    operator_assign_move 0 1 two_vectors = Ret tt w' /\
    contents_of w' 0 = Some [7]%Z /\
    contents_of w' 1 = Some [] /\
    objects w' !! 1 = Some (Vec 0 0 0).
Proof.
  assert (Hne : 0 <> 1) by lia.
  assert (Hlb : contents_of two_vectors 1 = Some [7]%Z)
    by (vm_compute; reflexivity).
  assert (Hap : apart (Vec 3 6 7) (Vec 1 2 3))
    by (right; left; simpl; lia).
  destruct (move_assignment two_vectors 0 1 (Vec 3 6 7) (Vec 1 2 3) _
              Hne eq_refl eq_refl wf_two_vectors_0 wf_two_vectors_1 Hlb Hap)
    as (w' & Hrun & _ & Ho & Hc0 & Hc1 & _).
  exists w'. split; [exact Hrun|]. split; [exact Hc0|].
  split; [exact Hc1|exact Ho].
Defined.

Lemma swap_exchanges_witness :
  exists w',
    swap 0 1 two_vectors = Ret tt w' /\
    contents_of w' 0 = Some [7]%Z /\
    contents_of w' 1 = Some [1; 2; 3]%Z /\
    swap 0 1 w' = Ret tt two_vectors.
Proof.
  assert (Hne : 0 <> 1) by lia.
  destruct (swap_exchanges two_vectors 0 1 (Vec 3 6 7) (Vec 1 2 3)
              eq_refl eq_refl Hne)
    as (w' & Hrun & _ & _ & Hc0 & Hc1 & _ & _ & Hback).
  exists w'. split; [exact Hrun|]. split; [exact Hc0|].
  split; [exact Hc1|exact Hback].
Defined.

Lemma assign_fill_in_place_witness :
  exists s',
    assign_fill 2 (Ext 9%Z) v123_spare = Ret tt s' /\
    contents s' = Some [9; 9]%Z /\
    capacity (this s') = 4%Z /\
    wf s'.
Proof.
  assert (Hn : (0 <= 2 <= capacity (this v123_spare))%Z)
    by (split; vm_compute; intros Hgt; discriminate Hgt).
  destruct (assign_fill_in_place v123_spare _ 2 (Ext 9%Z) 9%Z wf_v123_spare
              contents_v123_spare eq_refl eq_refl Hn)
    as (s' & Hrun & Hc & _ & _ & Hcap & _ & Hwf).
  exists s'. split; [exact Hrun|]. split; [exact Hc|].
  split; [exact Hcap|exact Hwf].
Defined.

Lemma assign_fill_reallocates_witness :
  exists s',
    assign_fill 10 (Ext 9%Z) v123_spare = Ret tt s' /\
    contents s' = Some (replicate 10 9%Z) /\
    avail (mem s') = (avail (mem v123_spare) - 20)%Z /\
    start_ (this s') = 18.
Proof.
  assert (Hnot : forall a, Ext 9%Z = Loc a ->
            ~ start_ (this v123_spare) <= a < finish_ (this v123_spare))
    by (intros a Ha; discriminate Ha).
  assert (Hn : (capacity (this v123_spare) < 10 <= max_size)%Z)
    by (split; [vm_compute; reflexivity
               |vm_compute; intros Hgt; discriminate Hgt]).
  assert (Hav : (2 * 10 <= avail (mem v123_spare))%Z)
    by (vm_compute; intros Hgt; discriminate Hgt).
  assert (Hnz : 0 < length (cells (mem v123_spare))) by (simpl; lia).
  destruct (assign_fill_reallocates v123_spare _ 10 (Ext 9%Z) 9%Z
              wf_v123_spare contents_v123_spare eq_refl Hnot eq_refl Hn Hav
              Hnz)
    as (s' & Hrun & Hc & _ & _ & Havail & Hst & _).
  exists s'. split; [exact Hrun|]. split; [exact Hc|].
  split; [exact Havail|exact Hst].
Defined.

Lemma operator_lt_lexicographic_witness :
  exists b,
    operator_lt (Vec 4 7 8) (Vec 5 7 8) v123_spare = Ret b v123_spare /\
    operator_ge (Vec 4 7 8) (Vec 5 7 8) v123_spare
      = Ret (negb b) v123_spare.
Proof.
  assert (H1 : start_ (Vec 4 7 8) <= finish_ (Vec 4 7 8)) by (simpl; lia).
  assert (H2 : start_ (Vec 5 7 8) <= finish_ (Vec 5 7 8)) by (simpl; lia).
  assert (H3 : objs_at (cells (mem v123_spare)) (start_ (Vec 4 7 8))
                 (nsize (Vec 4 7 8)) = Some [1; 2; 3]%Z)
    by (vm_compute; reflexivity).
  assert (H4 : objs_at (cells (mem v123_spare)) (start_ (Vec 5 7 8))
                 (nsize (Vec 5 7 8)) = Some [2; 3]%Z)
    by (vm_compute; reflexivity).
  destruct (operator_lt_lexicographic v123_spare _ _ _ _ H1 H2 H3 H4)
    as (b & Hlt & _ & _ & Hge & _).
  exists b. split; [exact Hlt|exact Hge].
Defined.

Lemma count_constructor_witness :
  (exists s',
     vector_count 2 fresh = Ret tt s' /\
     size (this s') = 2%Z /\
     capacity (this s') = 2%Z /\
     start_ (this s') = 1 /\
     subscript 0 s' = Undef /\
     subscript 1 s' = Undef) /\
  (exists s',
     vector_count (H := fragile_elem) 2 fresh = Ret tt s' /\
     contents s' = Some [0; 0]%Z /\
     capacity (this s') = 2%Z /\
     wf (H := fragile_elem) s').
Proof.
  assert (H0 : (0 <= 2)%Z) by lia.
  split.
  - destruct (count_constructor fresh 2 H0) as [_ Hok].
    destruct Hok as [_ Hindet].
    { vm_compute. intros Hgt. discriminate Hgt. }
    { vm_compute. intros Hgt. discriminate Hgt. }
    { simpl. lia. }
    destruct (Hindet eq_refl)
      as (s' & Hrun & Hsz & Hcap & Hst & _ & Hread & _).
    exists s'. split; [exact Hrun|]. split; [exact Hsz|].
    split; [exact Hcap|]. split; [exact Hst|].
    split; [apply (Hread 0)|apply (Hread 1)]; simpl; lia.
  - destruct (count_constructor (H := fragile_elem) fresh 2 H0) as [_ Hok].
    destruct Hok as [Hmade _].
    { vm_compute. intros Hgt. discriminate Hgt. }
    { vm_compute. intros Hgt. discriminate Hgt. }
    { simpl. lia. }
    destruct (Hmade 0%Z eq_refl) as (s' & Hrun & Hc & _ & Hcap & Hwf & _).
    exists s'. split; [exact Hrun|]. split; [exact Hc|].
    split; [exact Hcap|exact Hwf].
Defined.

Lemma push_back_move_with_spare_capacity_witness :
  exists s',
    push_back_move (Loc 1) (state_of two_vectors (Vec 3 6 7)) = Ret tt s' /\
    contents s' = Some [1; 2; 3; 7]%Z /\
    cells (mem s') !! 1 = Some (Obj 7%Z) /\
    wf s'.
Proof.
  set (s := state_of two_vectors (Vec 3 6 7)).
  assert (Hc0 : contents s = Some [1; 2; 3]%Z) by (vm_compute; reflexivity).
  assert (Hsp : finish_ (this s) < end_of_storage_ (this s))
    by (simpl; lia).
  assert (Hnot : ~ start_ (this s) <= 1 < finish_ (this s))
    by (simpl; lia).
  destruct (push_back_move_with_spare_capacity s _ 1 7%Z wf_two_vectors_0
              Hc0 Hsp eq_refl Hnot) as [Hok _].
  destruct (Hok eq_refl) as (s' & Hrun & Hc & Hsrc & _ & _ & Hwf).
  exists s'. split; [exact Hrun|]. split; [exact Hc|].
  split; [exact Hsrc|exact Hwf].
Defined.

Lemma resize_fill_to_capacity_reallocates_witness :
  resize_fill 4 (Ext 9%Z) v123_spare_exhausted
    = Throw bad_alloc v123_spare_exhausted.
Proof.
  assert (Hlt : (size (this v123_spare_exhausted)
                 < capacity (this v123_spare_exhausted))%Z)
    by (vm_compute; reflexivity).
  assert (Hav : (avail (mem v123_spare_exhausted)
                 < capacity (this v123_spare_exhausted))%Z)
    by (vm_compute; reflexivity).
  exact (resize_fill_to_capacity_reallocates v123_spare_exhausted (Ext 9%Z)
           wf_v123_spare_exhausted int_sizeof Hlt Hav).
Defined.

Lemma range_constructor_witness :
  exists s',
    vector_range 4 7 v123_spare = Ret tt s' /\
    contents s' = Some [1; 2; 3]%Z /\
    capacity (this s') = 3%Z /\
    wf s'.
Proof.
  assert (Hl : objs_at (cells (mem v123_spare)) 4 3 = Some [1; 2; 3]%Z)
    by (vm_compute; reflexivity).
  destruct (range_constructor v123_spare 4 3 _ Hl) as [_ Hok].
  destruct Hok as (s' & Hrun & Hc & _ & Hcap & Hwf & _).
  { vm_compute. intros Hgt. discriminate Hgt. }
  { apply int_copies. }
  { vm_compute. intros Hgt. discriminate Hgt. }
  { simpl. lia. }
  exists s'. split; [exact Hrun|]. split; [exact Hc|].
  split; [exact Hcap|exact Hwf].
Defined.

Lemma Lsh_allocate_exact_up_to_max_size_witness :
  (Lsh_allocate_bytes 5 = 5 * sizeof_T <-> 5 <= Lsh_max_size)%Z /\
  ((Lsh_max_size < 5)%Z -> (Lsh_allocate_bytes 5 < 5 * sizeof_T)%Z).
Proof.
  assert (H0 : (0 <= 5)%Z) by lia.
  exact (Lsh_allocate_exact_up_to_max_size 5 int_sizeof H0).
Defined.

End MoreWitnesses.
